(** * madmin-go: the legacy health-report records (health-old.go)

    A shallow embedding of the record types of [health-old.go], of their
    accessor methods, and of the two renderings [String] and [JSON], which
    the source obtains from [json.Marshal] and [json.MarshalIndent].

    The file is organised as follows.
    - [Go]: the outcome of a Go call (value or error, return or panic),
      the IEEE bit patterns behind [float32]/[float64], and [time.Time]
      seen through its calendar fields.
    - [Json]: the behaviour of [encoding/json] on the kinds of value that
      occur in these records: a universe [value] playing the role of
      [reflect.Value], the emptiness test behind [omitempty], the encoder,
      [Indent] and [Compact].
    - One module per struct type of the source, holding the record, its
      view as a [value] (field names and options exactly as tagged) and its
      methods. *)

From Stdlib Require Import ZArith List String Ascii Bool Lia.
From Stdlib Require Import DecimalString DecimalZ.
Import ListNotations.

Set Warnings "-register-all".

Local Open Scope list_scope.
Local Open Scope string_scope.
Local Open Scope Z_scope.

(* ===================================================================== *)
(** * Go: calls, floats, time                                             *)
(* ===================================================================== *)

Module Go.

(** The errors [json.Marshal] can hand back for the records of this file. *)
Inductive error : Type :=
| UnsupportedValueError (str : string)
    (* json: unsupported value: <str> *)
| MarshalerError (type_name : string) (msg : string)
    (* json: error calling MarshalJSON for type <type_name>: <msg> *)
| SyntaxError
    (* json: invalid character ... / unexpected end of JSON input *)
| UnmarshalTypeError (found : string)
    (* json: cannot unmarshal <found> into Go value of type ... *)
| UnmarshalerError (msg : string)
    (* the error of an UnmarshalJSON method *)
| OutsideModel.
    (* an input on which this development does not follow the decoder *)

(** A Go function returning [(T, error)]. *)
Inductive result (A : Type) : Type :=
| Ok (a : A)
| Err (e : error).
Arguments Ok {A} a.
Arguments Err {A} e.

Definition bind {A B : Type} (r : result A) (k : A -> result B) : result B :=
  match r with
  | Ok a => k a
  | Err e => Err e
  end.

(** A Go call either returns or panics with a value. *)
Inductive outcome (A : Type) : Type :=
| Returns (a : A)
| Panics (e : error).
Arguments Returns {A} a.
Arguments Panics {A} e.

(** A method with a value receiver runs on its own copy of the receiver,
    which it may read and assign; it ends by returning or by panicking. *)
Definition method (R A : Type) : Type := R -> outcome A * R.

Definition ret {R A : Type} (a : A) : method R A := fun r => (Returns a, r).
Definition panic {R A : Type} (e : error) : method R A := fun r => (Panics e, r).
Definition receiver {R : Type} : method R R := fun r => (Returns r, r).
Definition seq {R A B : Type} (m : method R A) (k : A -> method R B)
  : method R B :=
  fun r =>
    match m r with
    | (Returns a, r') => k a r'
    | (Panics e, r') => (Panics e, r')
    end.

(** What a call yields, and the receiver copy it leaves behind. *)
Definition call {R A : Type} (m : method R A) (r : R) : outcome A := fst (m r).
Definition after {R A : Type} (m : method R A) (r : R) : R := snd (m r).

(** The double quote character. *)
Definition dquote : ascii := ascii_of_nat 34.

(** ** Integers in decimal, as [strconv.AppendInt] writes them *)

Definition itoa (n : Z) : string := NilZero.string_of_int (Z.to_int n).

(** ** Floating point numbers as their IEEE 754 bit patterns *)

(** [bitSize] is 32 or 64; [bits] is the pattern, [0 <= bits < 2^bitSize]. *)
Definition mantBits (bitSize : Z) : Z := if bitSize =? 32 then 23 else 52.
Definition expMask (bitSize : Z) : Z := if bitSize =? 32 then 0xFF else 0x7FF.

Definition exponent (bitSize bits : Z) : Z :=
  Z.land (Z.shiftr bits (mantBits bitSize)) (expMask bitSize).
Definition mantissa (bitSize bits : Z) : Z :=
  Z.land bits (Z.shiftl 1 (mantBits bitSize) - 1).
Definition signbit (bitSize bits : Z) : bool := Z.testbit bits (bitSize - 1).

(** [math.IsNaN] and [math.IsInf(f, 0)]. *)
Definition IsNaN (bitSize bits : Z) : bool :=
  (exponent bitSize bits =? expMask bitSize) && negb (mantissa bitSize bits =? 0).
Definition IsInf (bitSize bits : Z) : bool :=
  (exponent bitSize bits =? expMask bitSize) && (mantissa bitSize bits =? 0).

(** [f == 0]: true of both signed zeros. *)
Definition floatIsZero (bitSize bits : Z) : bool :=
  (exponent bitSize bits =? 0) && (mantissa bitSize bits =? 0).

(** [strconv.FormatFloat(f, 'g', -1, bitSize)] on the values that have no
    digits. *)
Definition formatSpecial (bitSize bits : Z) : string :=
  if IsNaN bitSize bits then "NaN"
  else if signbit bitSize bits then "-Inf" else "+Inf".

(** ** time.Time *)

(** A [time.Time] is an instant, an optional monotonic clock reading and a
    [*Location].  The instant is kept here as what [Date()], [Clock()] and
    [Nanosecond()] return in the value's own location: the encoder reads
    nothing else.  [Zone name offset] is a location whose offset east of
    UTC at that instant is [offset] seconds. *)
Inductive Location : Type :=
| UTC
| Zone (name : string) (offset : Z).

Record Time : Type := mkTime {
  year : Z;
  month : Z;
  day : Z;
  hour : Z;
  minute : Z;
  second : Z;
  nanosecond : Z;
  monotonic : option Z;
  loc : Location
}.

(** The zero value [time.Time{}]: January 1, year 1, 00:00:00 UTC. *)
Definition zeroTime : Time := mkTime 1 1 1 0 0 0 0 None UTC.

Definition zoneOffset (t : Time) : Z :=
  match loc t with
  | UTC => 0
  | Zone _ off => off
  end.

Definition digit (d : Z) : ascii := ascii_of_nat (48 + Z.to_nat d).

(** The last [width] decimal digits of [x]. *)
Fixpoint digits (width : nat) (x : Z) : string :=
  match width with
  | O => EmptyString
  | S w => digits w (x / 10) ++ String (digit (x mod 10)) EmptyString
  end.

(** [appendInt(b, x, width)]: decimal, zero-padded to [width], with a
    leading minus for negative [x]. *)
Definition appendInt (x : Z) (width : nat) : string :=
  (if x <? 0 then "-" else EmptyString) ++
  (if Z.abs x <? 10 ^ Z.of_nat width then digits width (Z.abs x)
   else itoa (Z.abs x)).

(** Drop the trailing zeros of a digit string. *)
Fixpoint trimZeros (s : string) : string :=
  match s with
  | EmptyString => EmptyString
  | String c r =>
      match trimZeros r with
      | EmptyString => if Ascii.eqb c "0" then EmptyString else String c EmptyString
      | r' => String c r'
      end
  end.

(** [appendNano] for the layout [.999999999]: nothing when the fraction is
    zero, otherwise a dot and nine digits without trailing zeros. *)
Definition appendNano (nanosec : Z) : string :=
  if nanosec =? 0 then EmptyString
  else "." ++ trimZeros (appendInt nanosec 9).

(** [Time.appendFormatRFC3339(b, true)]. *)
Definition appendFormatRFC3339 (t : Time) : string :=
  appendInt (year t) 4 ++ "-" ++ appendInt (month t) 2 ++ "-" ++
  appendInt (day t) 2 ++ "T" ++
  appendInt (hour t) 2 ++ ":" ++ appendInt (minute t) 2 ++ ":" ++
  appendInt (second t) 2 ++ appendNano (nanosecond t) ++
  (let offset := zoneOffset t in
   if offset =? 0 then "Z"
   else
     let zone := Z.quot offset 60 in
     (if zone <? 0 then "-" else "+") ++
     appendInt (Z.quot (Z.abs zone) 60) 2 ++ ":" ++
     appendInt (Z.rem (Z.abs zone) 60) 2).

(** [Time.appendStrictRFC3339]: the year must take exactly four digits and
    the zone hour must be below 24. *)
Definition appendStrictRFC3339 (t : Time) : string + string :=
  if negb ((0 <=? year t) && (year t <=? 9999)) then
    inr "year outside of range [0,9999]"
  else if negb (zoneOffset t =? 0)
          && (24 <=? Z.quot (Z.abs (Z.quot (zoneOffset t) 60)) 60) then
    inr "timezone hour outside of range [0,23]"
  else inl (appendFormatRFC3339 t).

(** [Time.MarshalJSON]: the quoted RFC 3339 text, or an error. *)
Definition MarshalJSON (t : Time) : string + string :=
  match appendStrictRFC3339 t with
  | inl s => inl (String dquote (s ++ String dquote EmptyString))
  | inr e => inr ("Time.MarshalJSON: " ++ e)
  end.

(** ** Reading a time back: [Time.UnmarshalJSON] *)

Definition digitVal (c : ascii) : option Z :=
  let x := Z.of_N (N_of_ascii c) in
  if (48 <=? x) && (x <=? 57) then Some (x - 48) else None.

Fixpoint digitsValue (s : string) (acc : Z) : option Z :=
  match s with
  | EmptyString => Some acc
  | String c r =>
      match digitVal c with
      | Some d => digitsValue r (acc * 10 + d)
      | None => None
      end
  end.

(** [parseUint] of [parseRFC3339]: [s] is all digits and its value lies
    in [lo, hi]. *)
Definition parseUint (s : string) (lo hi : Z) : option Z :=
  match digitsValue s 0 with
  | Some x => if (lo <=? x) && (x <=? hi) then Some x else None
  | None => None
  end.

Definition isLeap (y : Z) : bool :=
  (y mod 4 =? 0) && (negb (y mod 100 =? 0) || (y mod 400 =? 0)).

Definition daysIn (m y : Z) : Z :=
  if m =? 2 then (if isLeap y then 29 else 28)
  else if (m =? 4) || (m =? 6) || (m =? 9) || (m =? 11) then 30
  else 31.

(** The leading digits of [s], and what follows them. *)
Fixpoint spanDigits (s : string) : string * string :=
  match s with
  | EmptyString => (EmptyString, EmptyString)
  | String c r =>
      match digitVal c with
      | Some _ => let (ds, rest) := spanDigits r in (String c ds, rest)
      | None => (EmptyString, s)
      end
  end.

(** The fractional second: a dot and digits, of which nine count. *)
Definition parseFraction (s : string) : option (Z * string) :=
  match s with
  | String c r =>
      if Ascii.eqb c "." then
        match spanDigits r with
        | (EmptyString, _) => Some (0, s)
        | (ds, rest) =>
            let ds9 := substring 0 9 ds in
            match digitsValue ds9 0 with
            | Some v => Some (v * 10 ^ (9 - Z.of_nat (String.length ds9)), rest)
            | None => None
            end
        end
      else Some (0, s)
  | EmptyString => Some (0, s)
  end.

Definition charAt (s : string) (i : nat) (c : ascii) : bool :=
  match String.get i s with
  | Some d => Ascii.eqb c d
  | None => false
  end.

(** The zone: [Z], or a sign, hours, a colon and minutes.  A zone that
    is written with an offset is read as a fixed zone without a name
    (the decoder prefers the local zone when it has that offset). *)
Definition parseZone (s : string) : option Location :=
  if (s =? "Z")%string then Some UTC
  else if negb (String.length s =? 6)%nat then None
  else
    match parseUint (substring 1 2 s) 0 23, parseUint (substring 4 2 s) 0 59 with
    | Some hr, Some mm =>
        if (charAt s 0 "-" || charAt s 0 "+") && charAt s 3 ":" then
          let off := (hr * 60 + mm) * 60 in
          Some (Zone EmptyString (if charAt s 0 "-" then - off else off))
        else None
    | _, _ => None
    end.

(** [parseRFC3339]. *)
Definition parseRFC3339 (s : string) : option Time :=
  if (String.length s <? 19)%nat then None
  else
    match parseUint (substring 0 4 s) 0 9999,
          parseUint (substring 5 2 s) 1 12 with
    | Some y, Some m =>
        match parseUint (substring 8 2 s) 1 (daysIn m y),
              parseUint (substring 11 2 s) 0 23,
              parseUint (substring 14 2 s) 0 59,
              parseUint (substring 17 2 s) 0 59 with
        | Some d, Some h, Some mi, Some sec =>
            if charAt s 4 "-" && charAt s 7 "-" && charAt s 10 "T"
               && charAt s 13 ":" && charAt s 16 ":" then
              match parseFraction (substring 19 (String.length s - 19) s) with
              | Some (ns, rest) =>
                  match parseZone rest with
                  | Some l => Some (mkTime y m d h mi sec ns None l)
                  | None => None
                  end
              | None => None
              end
            else None
        | _, _, _, _ => None
        end
    | _, _ => None
    end.

(** [Time.UnmarshalJSON] on the bytes of a JSON value: [null] changes
    nothing; otherwise the bytes between the quotes must read as a time.
    What the fallback [time.Parse] makes of a text [parseRFC3339]
    refuses is not followed. *)
Definition UnmarshalJSON (data : string) (t : Time) : result Time :=
  if (data =? "null")%string then Ok t
  else if (String.length data <? 2)%nat
          || negb (charAt data 0 dquote)
          || negb (charAt data (String.length data - 1) dquote) then
    Err (UnmarshalerError "Time.UnmarshalJSON: input is not a JSON string")
  else
    match parseRFC3339 (substring 1 (String.length data - 2) data) with
    | Some t' => Ok t'
    | None => Err OutsideModel
    end.

End Go.

(* ===================================================================== *)
(** * Json: what encoding/json does with these records                    *)
(* ===================================================================== *)

Module Json.
Import Go.

(** ** Output text *)

(** The encoder writes bytes.  The digits of a finite non-zero float come
    from [strconv.AppendFloat] (shortest form that reads back as the same
    float); they are kept as one item [Digits bitSize bits] standing for
    that run of bytes, which holds no quote, white space or punctuation. *)
Inductive item : Type :=
| Ch (c : ascii)
| Digits (bitSize : Z) (bits : Z).

Definition text : Type := list item.

Fixpoint bytes (s : string) : text :=
  match s with
  | EmptyString => []
  | String c r => Ch c :: bytes r
  end.

Definition byteval (c : ascii) : Z := Z.of_N (N_of_ascii c).

(** ** Strings: [appendString] with HTML escaping on *)

Definition hex (n : Z) : ascii :=
  match String.get (Z.to_nat n) "0123456789abcdef" with
  | Some c => c
  | None => "0"%char
  end.

(** [htmlSafeSet]: the ASCII bytes written as they are. *)
Definition htmlSafe (b : ascii) : bool :=
  let x := byteval b in
  (0x20 <=? x) && (x <? 0x80) &&
  negb ((x =? 0x22) || (x =? 0x26) || (x =? 0x3C) || (x =? 0x3E) || (x =? 0x5C)).

Definition escapeByte (b : ascii) : string :=
  let x := byteval b in
  if htmlSafe b then String b EmptyString
  else if (x =? 0x5C) || (x =? 0x22) then String "\" (String b EmptyString)
  else if x =? 0x08 then "\b"
  else if x =? 0x0C then "\f"
  else if x =? 0x0A then "\n"
  else if x =? 0x0D then "\r"
  else if x =? 0x09 then "\t"
  else "\u00" ++ String (hex (Z.shiftr x 4)) (String (hex (Z.land x 0xF)) EmptyString).

Definition isCont (x : Z) : bool := (0x80 <=? x) && (x <=? 0xBF).
Definition between (lo x hi : Z) : bool := (lo <=? x) && (x <=? hi).

(** The size of the well-formed multi-byte UTF-8 sequence at the head of
    [s], or [0] when there is none ([utf8.DecodeRuneInString] then
    answers [RuneError, 1]). *)
Definition runeSize (s : string) : nat :=
  match s with
  | String b0 (String b1 r1) =>
      let x0 := byteval b0 in
      let x1 := byteval b1 in
      if between 0xC2 x0 0xDF then (if isCont x1 then 2%nat else 0%nat)
      else
        match r1 with
        | String b2 r2 =>
            let x2 := byteval b2 in
            let second3 :=
              if x0 =? 0xE0 then between 0xA0 x1 0xBF
              else if x0 =? 0xED then between 0x80 x1 0x9F
              else isCont x1 in
            if between 0xE0 x0 0xEF then
              (if second3 && isCont x2 then 3%nat else 0%nat)
            else
              match r2 with
              | String b3 _ =>
                  let x3 := byteval b3 in
                  let second4 :=
                    if x0 =? 0xF0 then between 0x90 x1 0xBF
                    else if x0 =? 0xF4 then between 0x80 x1 0x8F
                    else isCont x1 in
                  if between 0xF0 x0 0xF4 && second4 && isCont x2 && isCont x3
                  then 4%nat else 0%nat
              | EmptyString => 0%nat
              end
        | EmptyString => 0%nat
        end
  | _ => 0%nat
  end.

(** U+2028 and U+2029 are E2 80 A8 and E2 80 A9. *)
Definition isLineSep (b0 b1 b2 : ascii) : bool :=
  (byteval b0 =? 0xE2) && (byteval b1 =? 0x80) &&
  ((byteval b2 =? 0xA8) || (byteval b2 =? 0xA9)).

(** What an invalid byte is replaced by: the escape of U+FFFD. *)
Definition replacement : string := "\u" ++ "fffd".

Fixpoint escape (s : string) : string :=
  match s with
  | EmptyString => EmptyString
  | String b r =>
      if byteval b <? 0x80 then escapeByte b ++ escape r
      else
        match runeSize s, r with
        | 2%nat, String b1 r' => String b (String b1 (escape r'))
        | 3%nat, String b1 (String b2 r') =>
            if isLineSep b b1 b2
            then "\u202" ++ String (hex (Z.land (byteval b2) 0xF)) (escape r')
            else String b (String b1 (String b2 (escape r')))
        | 4%nat, String b1 (String b2 (String b3 r')) =>
            String b (String b1 (String b2 (String b3 (escape r'))))
        | _, _ => replacement ++ escape r
        end
  end.

Definition appendString (s : string) : string :=
  String dquote (escape s ++ String dquote EmptyString).

(** ** Values as the encoder sees them *)

(** The part of a struct tag the encoder reads. *)
Record fieldtag : Type := tag {
  name : string;
  omitempty : bool
}.

(** The role of [reflect.Type], for the kinds these records contain. *)
Inductive rtype : Type :=
| TBool
| TInt (bitSize : Z)
| TUint (bitSize : Z)
| TFloat (bitSize : Z)
| TString
| TSlice (elem : rtype)
| TStruct (fields : list (fieldtag * rtype))
| TTime
| TInterface.

(** The role of [reflect.Value].  A slice carries the type of its
    elements; [VTime] is a [time.Time], which implements
    [json.Marshaler]; [VInterface v] is an interface holding [v] and
    [VNil] a nil interface. *)
Inductive value : Type :=
| VBool (b : bool)
| VInt (bitSize : Z) (n : Z)
| VUint (bitSize : Z) (n : Z)
| VFloat (bitSize : Z) (bits : Z)
| VString (s : string)
| VSlice (elem : rtype) (elems : list value)
| VStruct (fields : list (fieldtag * value))
| VTime (t : Time)
| VInterface (v : value)
| VNil.

Fixpoint typeOf (v : value) : rtype :=
  match v with
  | VBool _ => TBool
  | VInt bitSize _ => TInt bitSize
  | VUint bitSize _ => TUint bitSize
  | VFloat bitSize _ => TFloat bitSize
  | VString _ => TString
  | VSlice elem _ => TSlice elem
  | VStruct fields => TStruct (map (fun f => (fst f, typeOf (snd f))) fields)
  | VTime _ => TTime
  | VInterface _ => TInterface
  | VNil => TInterface
  end.

(** The zero value of a type. *)
Fixpoint zeroOf (t : rtype) : value :=
  match t with
  | TBool => VBool false
  | TInt bitSize => VInt bitSize 0
  | TUint bitSize => VUint bitSize 0
  | TFloat bitSize => VFloat bitSize 0
  | TString => VString EmptyString
  | TSlice elem => VSlice elem []
  | TStruct fields => VStruct (map (fun f => (fst f, zeroOf (snd f))) fields)
  | TTime => VTime zeroTime
  | TInterface => VNil
  end.

(** [isEmptyValue]: what [omitempty] omits.  A struct is never empty. *)
Definition isEmptyValue (v : value) : bool :=
  match v with
  | VBool b => negb b
  | VInt _ n => n =? 0
  | VUint _ n => n =? 0
  | VFloat bitSize bits => floatIsZero bitSize bits
  | VString s => (String.length s =? 0)%nat
  | VSlice _ elems => (List.length elems =? 0)%nat
  | VStruct _ => false
  | VTime _ => false
  | VInterface _ => false
  | VNil => true
  end.

(** [floatEncoder]: NaN and the infinities are refused. *)
Definition encodeFloat (bitSize bits : Z) : result text :=
  if IsInf bitSize bits || IsNaN bitSize bits then
    Err (UnsupportedValueError (formatSpecial bitSize bits))
  else if floatIsZero bitSize bits then
    Ok (bytes (if signbit bitSize bits then "-0" else "0"))
  else Ok [Digits bitSize bits].

(** [marshalerEncoder] at [time.Time]. *)
Definition encodeTime (t : Time) : result text :=
  match MarshalJSON t with
  | inl s => Ok (bytes s)
  | inr msg => Err (MarshalerError "time.Time" msg)
  end.

(** Join the encoded elements with commas. *)
Fixpoint commaSep (parts : list text) : text :=
  match parts with
  | [] => []
  | [p] => p
  | p :: rest => (p ++ Ch "," :: commaSep rest)%list
  end.

Definition arrayText (elems : list text) : text :=
  (Ch "[" :: commaSep elems ++ [Ch "]"])%list.

(** A member: the quoted name, a colon, the encoded value. *)
Definition memberText (m : string * text) : text :=
  (bytes (appendString (fst m)) ++ Ch ":" :: snd m)%list.

Definition objectText (members : list (string * text)) : text :=
  (Ch "{" :: commaSep (map memberText members) ++ [Ch "}"])%list.

(** The encoder.  A struct is written field by field in declaration
    order, a field tagged [omitempty] being skipped when its value is
    empty; the first error met ends the encoding. *)
Fixpoint encode (v : value) : result text :=
  match v with
  | VBool b => Ok (bytes (if b then "true" else "false"))
  | VInt _ n => Ok (bytes (itoa n))
  | VUint _ n => Ok (bytes (itoa n))
  | VFloat bitSize bits => encodeFloat bitSize bits
  | VString s => Ok (bytes (appendString s))
  | VSlice _ elems =>
      bind
        ((fix encodeElems (l : list value) : result (list text) :=
            match l with
            | [] => Ok []
            | x :: r =>
                bind (encode x) (fun e =>
                bind (encodeElems r) (fun es => Ok (e :: es)))
            end) elems)
        (fun es => Ok (arrayText es))
  | VStruct fields =>
      bind
        ((fix encodeFields (l : list (fieldtag * value))
            : result (list (string * text)) :=
            match l with
            | [] => Ok []
            | (t, x) :: r =>
                if omitempty t && isEmptyValue x then encodeFields r
                else
                  bind (encode x) (fun e =>
                  bind (encodeFields r) (fun ms => Ok ((name t, e) :: ms)))
            end) fields)
        (fun ms => Ok (objectText ms))
  | VTime t => encodeTime t
  | VInterface x => encode x
  | VNil => Ok (bytes "null")
  end.

(** The two local loops of [encode], named. *)
Fixpoint encodeElems (l : list value) : result (list text) :=
  match l with
  | [] => Ok []
  | x :: r =>
      bind (encode x) (fun e =>
      bind (encodeElems r) (fun es => Ok (e :: es)))
  end.

(** The members a struct contributes to its object: name and encoded
    value of every field that is written. *)
Fixpoint encodeFields (l : list (fieldtag * value))
  : result (list (string * text)) :=
  match l with
  | [] => Ok []
  | (t, x) :: r =>
      if omitempty t && isEmptyValue x then encodeFields r
      else
        bind (encode x) (fun e =>
        bind (encodeFields r) (fun ms => Ok ((name t, e) :: ms)))
  end.

(** [json.Marshal]. *)
Definition Marshal (v : value) : result text := encode v.

(** ** Indent and Compact *)

(** Both walk the text with the decoder's scanner.  On the encoder's own
    output all they need from it is whether the current byte lies inside
    a string literal. *)
Record scanner : Type := scan {
  inString : bool;
  escaped : bool
}.

Definition outside : scanner := scan false false.

Definition isChar (c : ascii) (i : item) : bool :=
  match i with
  | Ch d => Ascii.eqb c d
  | Digits _ _ => false
  end.

Definition lf : ascii := ascii_of_nat 10.

Definition isSpace (i : item) : bool :=
  isChar " " i || isChar (ascii_of_nat 9) i || isChar (ascii_of_nat 13) i
  || isChar lf i.

Definition step (s : scanner) (i : item) : scanner :=
  if inString s then
    if escaped s then scan true false
    else if isChar "\" i then scan true true
    else if isChar dquote i then outside
    else s
  else if isChar dquote i then scan true false
  else s.

Fixpoint repeatText (n : nat) (t : text) : text :=
  match n with
  | O => []
  | S k => (t ++ repeatText k t)%list
  end.

(** [appendNewline]: a line feed, the prefix, and [depth] indents. *)
Definition appendNewline (prefix indent : string) (depth : nat) : text :=
  (Ch lf :: bytes prefix ++ repeatText depth (bytes indent))%list.

(** [appendIndent], as the loop over [src] with its variables [scan],
    [needIndent] and [depth]. *)
Fixpoint appendIndent (prefix indent : string) (s : scanner)
    (needIndent : bool) (depth : nat) (src : text) : text :=
  match src with
  | [] => []
  | c :: rest =>
      if negb (inString s) && isSpace c then
        (* scanSkipSpace *)
        appendIndent prefix indent s needIndent depth rest
      else
        let closing := negb (inString s) && (isChar "}" c || isChar "]" c) in
        let bump := needIndent && negb closing in
        let depth1 := if bump then S depth else depth in
        let lead := if bump then appendNewline prefix indent depth1 else [] in
        let need1 := needIndent && closing in
        let s1 := step s c in
        (lead ++
         (if inString s then
            (* scanContinue: bytes of a string are copied *)
            c :: appendIndent prefix indent s1 need1 depth1 rest
          else if isChar "{" c || isChar "[" c then
            c :: appendIndent prefix indent s1 true depth1 rest
          else if isChar "," c then
            c :: appendNewline prefix indent depth1
              ++ appendIndent prefix indent s1 need1 depth1 rest
          else if isChar ":" c then
            c :: Ch " " :: appendIndent prefix indent s1 need1 depth1 rest
          else if closing then
            if need1 then
              c :: appendIndent prefix indent s1 false depth1 rest
            else
              appendNewline prefix indent (Nat.pred depth1)
                ++ c :: appendIndent prefix indent s1 false (Nat.pred depth1) rest
          else
            c :: appendIndent prefix indent s1 need1 depth1 rest))%list
  end.

Definition Indent (src : text) (prefix indent : string) : text :=
  appendIndent prefix indent outside false 0 src.

(** [json.MarshalIndent]: [Marshal], then [Indent] on its bytes. *)
Definition MarshalIndent (v : value) (prefix indent : string) : result text :=
  bind (Marshal v) (fun b => Ok (Indent b prefix indent)).

(** [json.Compact]: the text without its insignificant white space. *)
Fixpoint compactFrom (s : scanner) (src : text) : text :=
  match src with
  | [] => []
  | c :: rest =>
      if negb (inString s) && isSpace c then compactFrom s rest
      else c :: compactFrom (step s c) rest
  end.

Definition Compact (src : text) : text := compactFrom outside src.

(** ** Decoding *)

(** The decoder reads its input in two steps, as [Unmarshal] does: the
    scanner delimits the values, and each literal is converted when it is
    stored, by the rules of the type it is stored into.  A parsed text
    therefore keeps its literals as they stand: the bytes of a number,
    and the bytes between the quotes of a string. *)
Inductive json : Type :=
| JNull
| JBool (b : bool)
| JNumber (lit : text)
| JString (raw : string)
| JArray (elems : list json)
| JObject (members : list (string * json)).

(** *** The scanner *)

Definition hexVal (c : ascii) : option Z :=
  let x := byteval c in
  if between 48 x 57 then Some (x - 48)
  else if between 97 x 102 then Some (x - 87)
  else if between 65 x 70 then Some (x - 55)
  else None.

Definition isHex (c : ascii) : bool :=
  match hexVal c with
  | Some _ => true
  | None => false
  end.

Definition isSimpleEscape (c : ascii) : bool :=
  let x := byteval c in
  (x =? 0x22) || (x =? 0x5C) || (x =? 0x2F) || (x =? 0x62) || (x =? 0x66)
  || (x =? 0x6E) || (x =? 0x72) || (x =? 0x74).

(** The bytes of a string literal after its opening quote, up to the
    closing quote: no control character, and after a backslash one of
    the escapes of JSON. *)
Fixpoint scanString (t : text) : result (string * text) :=
  match t with
  | Ch c :: r =>
      if byteval c =? 0x22 then Ok (EmptyString, r)
      else if byteval c =? 0x5C then
        match r with
        | Ch e :: r1 =>
            if isSimpleEscape e then
              bind (scanString r1) (fun p =>
                Ok (String c (String e (fst p)), snd p))
            else if byteval e =? 0x75 then
              match r1 with
              | Ch h1 :: Ch h2 :: Ch h3 :: Ch h4 :: r2 =>
                  if isHex h1 && isHex h2 && isHex h3 && isHex h4 then
                    bind (scanString r2) (fun p =>
                      Ok (String c (String e (String h1 (String h2
                           (String h3 (String h4 (fst p)))))), snd p))
                  else Err SyntaxError
              | _ => Err SyntaxError
              end
            else Err SyntaxError
        | _ => Err SyntaxError
        end
      else if byteval c <? 0x20 then Err SyntaxError
      else bind (scanString r) (fun p => Ok (String c (fst p), snd p))
  | _ => Err SyntaxError
  end.

Definition isDigitCh (c : ascii) : bool := between 48 (byteval c) 57.

Definition isNumberCh (i : item) : bool :=
  match i with
  | Ch c =>
      isDigitCh c || Ascii.eqb c "-" || Ascii.eqb c "+" || Ascii.eqb c "."
      || Ascii.eqb c "e" || Ascii.eqb c "E"
  | Digits _ _ => false
  end.

(** The longest run of bytes a number can be made of. *)
Fixpoint spanNumber (t : text) : text * text :=
  match t with
  | i :: r =>
      if isNumberCh i then let (n, rest) := spanNumber r in (i :: n, rest)
      else ([], t)
  | [] => ([], [])
  end.

(** The grammar of a JSON number: sign, integer part without a leading
    zero, fraction, exponent. *)
Fixpoint allDigits (t : text) : bool :=
  match t with
  | [] => true
  | Ch c :: r => isDigitCh c && allDigits r
  | Digits _ _ :: _ => false
  end.

Fixpoint validExp (t : text) (seen : bool) : bool :=
  match t with
  | [] => seen
  | Ch c :: r => isDigitCh c && validExp r true
  | Digits _ _ :: _ => false
  end.

Definition validExponent (t : text) : bool :=
  match t with
  | [] => true
  | Ch c :: r =>
      (Ascii.eqb c "e" || Ascii.eqb c "E") &&
      match r with
      | Ch s :: r' =>
          if Ascii.eqb s "+" || Ascii.eqb s "-" then validExp r' false
          else validExp r false
      | _ => false
      end
  | Digits _ _ :: _ => false
  end.

Fixpoint validFrac (t : text) (seen : bool) : bool :=
  match t with
  | Ch c :: r =>
      if isDigitCh c then validFrac r true else seen && validExponent t
  | _ => seen && validExponent t
  end.

Definition validAfterInt (t : text) : bool :=
  match t with
  | Ch c :: r => if Ascii.eqb c "." then validFrac r false else validExponent t
  | _ => validExponent t
  end.

Fixpoint validIntTail (t : text) : bool :=
  match t with
  | Ch c :: r => if isDigitCh c then validIntTail r else validAfterInt t
  | _ => validAfterInt t
  end.

Definition validUnsigned (t : text) : bool :=
  match t with
  | Ch c :: r =>
      if Ascii.eqb c "0" then validAfterInt r
      else isDigitCh c && validIntTail r
  | _ => false
  end.

Definition validNumber (t : text) : bool :=
  match t with
  | Ch c :: r => if Ascii.eqb c "-" then validUnsigned r else validUnsigned t
  | _ => false
  end.

(** [expect w t]: [t] without its prefix [w]. *)
Fixpoint expect (w : string) (t : text) : result text :=
  match w with
  | EmptyString => Ok t
  | String c w' =>
      match t with
      | Ch d :: r => if Ascii.eqb c d then expect w' r else Err SyntaxError
      | _ => Err SyntaxError
      end
  end.

(** One value off the front of a compact text.  [fuel] bounds the
    nesting and the number of elements; twice the length of the text is
    enough. *)
Fixpoint parseValue (fuel : nat) (t : text) : result (json * text) :=
  match fuel with
  | O => Err OutsideModel
  | S f =>
      match t with
      | [] => Err SyntaxError
      | Digits bitSize bits :: r => Ok (JNumber [Digits bitSize bits], r)
      | Ch c :: r =>
          if Ascii.eqb c "{" then
            match r with
            | Ch d :: r' =>
                if Ascii.eqb d "}" then Ok (JObject [], r')
                else bind (parseMembers f r) (fun p => Ok (JObject (fst p), snd p))
            | _ => Err SyntaxError
            end
          else if Ascii.eqb c "[" then
            match r with
            | Ch d :: r' =>
                if Ascii.eqb d "]" then Ok (JArray [], r')
                else bind (parseElems f r) (fun p => Ok (JArray (fst p), snd p))
            | _ => bind (parseElems f r) (fun p => Ok (JArray (fst p), snd p))
            end
          else if byteval c =? 0x22 then
            bind (scanString r) (fun p => Ok (JString (fst p), snd p))
          else if Ascii.eqb c "t" then
            bind (expect "rue" r) (fun r' => Ok (JBool true, r'))
          else if Ascii.eqb c "f" then
            bind (expect "alse" r) (fun r' => Ok (JBool false, r'))
          else if Ascii.eqb c "n" then
            bind (expect "ull" r) (fun r' => Ok (JNull, r'))
          else
            let (lit, rest) := spanNumber t in
            if validNumber lit then Ok (JNumber lit, rest) else Err SyntaxError
      end
  end

with parseElems (fuel : nat) (t : text) : result (list json * text) :=
  match fuel with
  | O => Err OutsideModel
  | S f =>
      bind (parseValue f t) (fun p =>
        match snd p with
        | Ch c :: r =>
            if Ascii.eqb c "," then
              bind (parseElems f r) (fun q => Ok (fst p :: fst q, snd q))
            else if Ascii.eqb c "]" then Ok ([fst p], r)
            else Err SyntaxError
        | _ => Err SyntaxError
        end)
  end

with parseMembers (fuel : nat) (t : text)
  : result (list (string * json) * text) :=
  match fuel with
  | O => Err OutsideModel
  | S f =>
      match t with
      | Ch q :: t1 =>
          if byteval q =? 0x22 then
            bind (scanString t1) (fun k =>
              match snd k with
              | Ch colon :: t2 =>
                  if Ascii.eqb colon ":" then
                    bind (parseValue f t2) (fun p =>
                      match snd p with
                      | Ch c :: r =>
                          if Ascii.eqb c "," then
                            bind (parseMembers f r) (fun m =>
                              Ok ((fst k, fst p) :: fst m, snd m))
                          else if Ascii.eqb c "}" then
                            Ok ([(fst k, fst p)], r)
                          else Err SyntaxError
                      | _ => Err SyntaxError
                      end)
                  else Err SyntaxError
              | _ => Err SyntaxError
              end)
          else Err SyntaxError
      | _ => Err SyntaxError
      end
  end.

(** The whole of a text as one value.  White space between tokens is
    skipped by reading the compact form of the text. *)
Definition parse (data : text) : result json :=
  let t := Compact data in
  bind (parseValue (2 * List.length t + 2) t) (fun p =>
    match snd p with
    | [] => Ok (fst p)
    | _ => Err SyntaxError
    end).

(** *** Converting literals *)

Definition byteOf (x : Z) : ascii := ascii_of_N (Z.to_N x).

Definition hex4 (h1 h2 h3 h4 : ascii) : option Z :=
  match hexVal h1, hexVal h2, hexVal h3, hexVal h4 with
  | Some a, Some b, Some c, Some d => Some (((a * 16 + b) * 16 + c) * 16 + d)
  | _, _, _, _ => None
  end.

Definition isSurrogate (r : Z) : bool := between 0xD800 r 0xDFFF.

(** [utf16.DecodeRune]. *)
Definition decodeSurrogates (r1 r2 : Z) : option Z :=
  if between 0xD800 r1 0xDBFF && between 0xDC00 r2 0xDFFF
  then Some ((r1 - 0xD800) * 1024 + (r2 - 0xDC00) + 0x10000)
  else None.

(** U+FFFD in UTF-8. *)
Definition replacementBytes : string :=
  String (byteOf 0xEF) (String (byteOf 0xBF) (String (byteOf 0xBD) EmptyString)).

(** [utf8.EncodeRune]. *)
Definition encodeRune (r : Z) : string :=
  if r <? 0x80 then String (byteOf r) EmptyString
  else if r <? 0x800 then
    String (byteOf (Z.lor 0xC0 (Z.shiftr r 6)))
      (String (byteOf (Z.lor 0x80 (Z.land r 0x3F))) EmptyString)
  else if isSurrogate r || (0x10FFFF <? r) then replacementBytes
  else if r <? 0x10000 then
    String (byteOf (Z.lor 0xE0 (Z.shiftr r 12)))
      (String (byteOf (Z.lor 0x80 (Z.land (Z.shiftr r 6) 0x3F)))
         (String (byteOf (Z.lor 0x80 (Z.land r 0x3F))) EmptyString))
  else
    String (byteOf (Z.lor 0xF0 (Z.shiftr r 18)))
      (String (byteOf (Z.lor 0x80 (Z.land (Z.shiftr r 12) 0x3F)))
         (String (byteOf (Z.lor 0x80 (Z.land (Z.shiftr r 6) 0x3F)))
            (String (byteOf (Z.lor 0x80 (Z.land r 0x3F))) EmptyString))).

Definition unescape (e : ascii) : option ascii :=
  let x := byteval e in
  if (x =? 0x22) || (x =? 0x5C) || (x =? 0x2F) || (x =? 0x27) then Some e
  else if x =? 0x62 then Some (byteOf 0x08)
  else if x =? 0x66 then Some (byteOf 0x0C)
  else if x =? 0x6E then Some (byteOf 0x0A)
  else if x =? 0x72 then Some (byteOf 0x0D)
  else if x =? 0x74 then Some (byteOf 0x09)
  else None.

Definition prepend (p : string) (o : option string) : option string :=
  option_map (fun s => p ++ s) o.

(** [unquote]: the string a literal stands for.  Escapes are undone, and
    bytes that are not UTF-8 become U+FFFD. *)
Fixpoint unquote (s : string) : option string :=
  match s with
  | EmptyString => Some EmptyString
  | String c r =>
      let x := byteval c in
      if x =? 0x5C then
        match r with
        | String e r1 =>
            if byteval e =? 0x75 then
              match r1 with
              | String h1 (String h2 (String h3 (String h4 r2))) =>
                  match hex4 h1 h2 h3 h4 with
                  | None => None
                  | Some rr =>
                      if isSurrogate rr then
                        match r2 with
                        | String b0 (String u0 (String g1 (String g2
                            (String g3 (String g4 r3))))) =>
                            match
                              (if (byteval b0 =? 0x5C) && (byteval u0 =? 0x75)
                               then hex4 g1 g2 g3 g4 else None)
                            with
                            | Some rr1 =>
                                match decodeSurrogates rr rr1 with
                                | Some dec => prepend (encodeRune dec) (unquote r3)
                                | None => prepend replacementBytes (unquote r2)
                                end
                            | None => prepend replacementBytes (unquote r2)
                            end
                        | _ => prepend replacementBytes (unquote r2)
                        end
                      else prepend (encodeRune rr) (unquote r2)
                  end
              | _ => None
              end
            else
              match unescape e with
              | Some b => option_map (String b) (unquote r1)
              | None => None
              end
        | EmptyString => None
        end
      else if (x =? 0x22) || (x <? 0x20) then None
      else if x <? 0x80 then option_map (String c) (unquote r)
      else
        match runeSize s, r with
        | 2%nat, String c1 r' =>
            option_map (fun u => String c (String c1 u)) (unquote r')
        | 3%nat, String c1 (String c2 r') =>
            option_map (fun u => String c (String c1 (String c2 u))) (unquote r')
        | 4%nat, String c1 (String c2 (String c3 r')) =>
            option_map (fun u => String c (String c1 (String c2 (String c3 u))))
              (unquote r')
        | _, _ => prepend replacementBytes (unquote r)
        end
  end.

Fixpoint textString (t : text) : option string :=
  match t with
  | [] => Some EmptyString
  | Ch c :: r => option_map (String c) (textString r)
  | Digits _ _ :: _ => None
  end.

(** [strconv.ParseInt(lit, 10, 64)] on a literal of the number grammar. *)
Definition ParseInt (lit : text) : option Z :=
  match textString lit with
  | Some s => option_map Z.of_int (NilZero.int_of_string s)
  | None => None
  end.

(** [strconv.ParseUint]: as [ParseInt], no sign allowed. *)
Definition ParseUint (lit : text) : option Z :=
  match lit with
  | Ch c :: _ => if Ascii.eqb c "-" then None else ParseInt lit
  | _ => None
  end.

(** [strconv.ParseFloat(lit, bitSize)], on the literals the encoder
    writes for a float of that size: the digits read back as the float
    they were made from.  Other literals are not followed. *)
Definition ParseFloat (bitSize : Z) (lit : text) : option Z :=
  match lit with
  | [Digits bitSize' bits] => if bitSize' =? bitSize then Some bits else None
  | [Ch c] => if Ascii.eqb c "0" then Some 0 else None
  | [Ch c; Ch d] =>
      if Ascii.eqb c "-" && Ascii.eqb d "0" then Some (Z.shiftl 1 (bitSize - 1))
      else None
  | _ => None
  end.

Definition fitsInt (bitSize n : Z) : bool :=
  (- 2 ^ (bitSize - 1) <=? n) && (n <? 2 ^ (bitSize - 1)).
Definition fitsUint (bitSize n : Z) : bool :=
  (0 <=? n) && (n <? 2 ^ bitSize).

(** *** Storing into a value *)

Definition lower (c : ascii) : ascii :=
  if between 65 (byteval c) 90 then byteOf (byteval c + 32) else c.

Fixpoint foldEq (a b : string) : bool :=
  match a, b with
  | EmptyString, EmptyString => true
  | String x a', String y b' => Ascii.eqb (lower x) (lower y) && foldEq a' b'
  | _, _ => false
  end.

(** The index of the first field whose name [same] accepts. *)
Fixpoint findBy (same : string -> bool) (fs : list (fieldtag * value))
  : option nat :=
  match fs with
  | [] => None
  | (t, _) :: r =>
      if same (name t) then Some O else option_map S (findBy same r)
  end.

(** A key selects the field of that name, or else a field whose name
    differs from it by letter case only. *)
Definition findField (key : string) (fs : list (fieldtag * value))
  : option nat :=
  match findBy (String.eqb key) fs with
  | Some i => Some i
  | None => findBy (foldEq key) fs
  end.

Fixpoint setField (i : nat) (x : value) (fs : list (fieldtag * value))
  : list (fieldtag * value) :=
  match fs, i with
  | [], _ => []
  | (t, _) :: r, O => (t, x) :: r
  | f :: r, S k => f :: setField k x r
  end.

Definition fieldValue (i : nat) (fs : list (fieldtag * value)) : value :=
  match nth_error fs i with
  | Some (_, x) => x
  | None => VNil
  end.

Definition quoted (raw : string) : string :=
  String dquote (raw ++ String dquote EmptyString).

(** [decode j cur]: the value [cur] after the parsed text [j] is stored
    into it.  The decoder stops here at its first error. *)
Fixpoint decode (j : json) (cur : value) {struct j} : result value :=
  match cur with
  | VTime t =>
      (* time.Time implements json.Unmarshaler: it is given the bytes *)
      match j with
      | JNull => Ok cur
      | JString raw => bind (UnmarshalJSON (quoted raw) t) (fun t' => Ok (VTime t'))
      | _ => Err (UnmarshalerError "Time.UnmarshalJSON: input is not a JSON string")
      end
  | _ =>
      match j with
      | JNull =>
          match cur with
          | VSlice e _ => Ok (VSlice e [])
          | VInterface _ => Ok VNil
          | _ => Ok cur
          end
      | JBool b =>
          match cur with
          | VBool _ => Ok (VBool b)
          | VInterface _ | VNil => Ok (VInterface (VBool b))
          | _ => Err (UnmarshalTypeError "bool")
          end
      | JNumber lit =>
          match cur with
          | VInt bitSize _ =>
              match ParseInt lit with
              | Some n =>
                  if fitsInt bitSize n then Ok (VInt bitSize n)
                  else Err (UnmarshalTypeError "number")
              | None => Err (UnmarshalTypeError "number")
              end
          | VUint bitSize _ =>
              match ParseUint lit with
              | Some n =>
                  if fitsUint bitSize n then Ok (VUint bitSize n)
                  else Err (UnmarshalTypeError "number")
              | None => Err (UnmarshalTypeError "number")
              end
          | VFloat bitSize _ =>
              match ParseFloat bitSize lit with
              | Some bits => Ok (VFloat bitSize bits)
              | None => Err OutsideModel
              end
          | VInterface _ | VNil =>
              match ParseFloat 64 lit with
              | Some bits => Ok (VInterface (VFloat 64 bits))
              | None => Err OutsideModel
              end
          | _ => Err (UnmarshalTypeError "number")
          end
      | JString raw =>
          match unquote raw with
          | None => Err SyntaxError
          | Some s =>
              match cur with
              | VString _ => Ok (VString s)
              | VInterface _ | VNil => Ok (VInterface (VString s))
              | _ => Err (UnmarshalTypeError "string")
              end
          end
      | JArray elems =>
          match cur with
          | VSlice e _ =>
              bind
                ((fix decodeElems (l : list json) : result (list value) :=
                    match l with
                    | [] => Ok []
                    | x :: r =>
                        bind (decode x (zeroOf e)) (fun v =>
                        bind (decodeElems r) (fun vs => Ok (v :: vs)))
                    end) elems)
                (fun vs => Ok (VSlice e vs))
          | VInterface _ | VNil =>
              bind
                ((fix decodeElems (l : list json) : result (list value) :=
                    match l with
                    | [] => Ok []
                    | x :: r =>
                        bind (decode x VNil) (fun v =>
                        bind (decodeElems r) (fun vs => Ok (v :: vs)))
                    end) elems)
                (fun vs => Ok (VInterface (VSlice TInterface vs)))
          | _ => Err (UnmarshalTypeError "array")
          end
      | JObject members =>
          match cur with
          | VStruct fields =>
              (fix decodeMembers (ms : list (string * json))
                   (fs : list (fieldtag * value)) : result value :=
                 match ms with
                 | [] => Ok (VStruct fs)
                 | (k, x) :: r =>
                     match unquote k with
                     | None => Err SyntaxError
                     | Some key =>
                         match findField key fs with
                         | None => decodeMembers r fs
                         | Some i =>
                             bind (decode x (fieldValue i fs)) (fun v =>
                               decodeMembers r (setField i v fs))
                         end
                     end
                 end) members fields
          | VInterface _ | VNil => Err OutsideModel  (* a map *)
          | _ => Err (UnmarshalTypeError "object")
          end
      end
  end.

(** [json.Unmarshal(data, &v)], [v] holding [cur] beforehand. *)
Definition Unmarshal (data : text) (cur : value) : result value :=
  bind (parse data) (fun j => decode j cur).

(** ** Values that a text can give back *)

(** [utf8.ValidString]. *)
Fixpoint validUTF8 (s : string) : bool :=
  match s with
  | EmptyString => true
  | String b r =>
      if byteval b <? 0x80 then validUTF8 r
      else
        match runeSize s, r with
        | 2%nat, String _ r' => validUTF8 r'
        | 3%nat, String _ (String _ r') => validUTF8 r'
        | 4%nat, String _ (String _ (String _ r')) => validUTF8 r'
        | _, _ => false
        end
  end.

(** A time that reads back from its own text. *)
Definition timeReadsBack (t : Time) : Prop :=
  match MarshalJSON t with
  | inl s => UnmarshalJSON s zeroTime = Ok t
  | inr _ => False
  end.

(** What the encoder keeps of a value.  Numbers fit their type, floats
    are finite, strings and field names are UTF-8, a time reads back,
    the elements of a slice have its element type, the names of a struct
    differ, and a field that [omitempty] leaves out holds the zero value
    of its type.  What an interface holds is decoded into the generic
    types, so only a nil interface comes back. *)
Fixpoint canonical (v : value) : Prop :=
  match v with
  | VBool _ => True
  | VInt bitSize n => fitsInt bitSize n = true
  | VUint bitSize n => fitsUint bitSize n = true
  | VFloat bitSize bits =>
      (bitSize = 32 \/ bitSize = 64) /\ 0 <= bits < 2 ^ bitSize /\
      IsNaN bitSize bits = false /\ IsInf bitSize bits = false
  | VString s => validUTF8 s = true
  | VSlice elem elems =>
      (fix all (l : list value) : Prop :=
         match l with
         | [] => True
         | x :: r => typeOf x = elem /\ canonical x /\ all r
         end) elems
  | VStruct fields =>
      NoDup (map (fun f => name (fst f)) fields) /\
      (fix all (l : list (fieldtag * value)) : Prop :=
         match l with
         | [] => True
         | (t, x) :: r =>
             validUTF8 (name t) = true /\
             (if omitempty t && isEmptyValue x then x = zeroOf (typeOf x)
              else canonical x) /\
             all r
         end) fields
  | VTime t => timeReadsBack t
  | VInterface _ => False
  | VNil => True
  end.

(** ** The encoder, in two steps *)

(** The encoder's output is the text of a parsed value: [ast v] is that
    value, [print] its compact text. *)
Definition printMember (p : json -> text) (m : string * json) : text :=
  (bytes (quoted (fst m)) ++ Ch ":" :: p (snd m))%list.

Fixpoint print (j : json) : text :=
  match j with
  | JNull => bytes "null"
  | JBool b => bytes (if b then "true" else "false")
  | JNumber lit => lit
  | JString raw => bytes (quoted raw)
  | JArray elems => arrayText (map print elems)
  | JObject members =>
      (Ch "{" :: commaSep (map (printMember print) members) ++ [Ch "}"])%list
  end.

Fixpoint ast (v : value) : result json :=
  match v with
  | VBool b => Ok (JBool b)
  | VInt _ n => Ok (JNumber (bytes (itoa n)))
  | VUint _ n => Ok (JNumber (bytes (itoa n)))
  | VFloat bitSize bits => bind (encodeFloat bitSize bits) (fun lit => Ok (JNumber lit))
  | VString s => Ok (JString (escape s))
  | VSlice _ elems =>
      bind
        ((fix astElems (l : list value) : result (list json) :=
            match l with
            | [] => Ok []
            | x :: r =>
                bind (ast x) (fun e =>
                bind (astElems r) (fun es => Ok (e :: es)))
            end) elems)
        (fun es => Ok (JArray es))
  | VStruct fields =>
      bind
        ((fix astFields (l : list (fieldtag * value))
            : result (list (string * json)) :=
            match l with
            | [] => Ok []
            | (t, x) :: r =>
                if omitempty t && isEmptyValue x then astFields r
                else
                  bind (ast x) (fun e =>
                  bind (astFields r) (fun ms => Ok ((escape (name t), e) :: ms)))
            end) fields)
        (fun ms => Ok (JObject ms))
  | VTime t =>
      match appendStrictRFC3339 t with
      | inl raw => Ok (JString raw)
      | inr msg => Err (MarshalerError "time.Time" ("Time.MarshalJSON: " ++ msg))
      end
  | VInterface x => ast x
  | VNil => Ok JNull
  end.

Fixpoint astElems (l : list value) : result (list json) :=
  match l with
  | [] => Ok []
  | x :: r =>
      bind (ast x) (fun e =>
      bind (astElems r) (fun es => Ok (e :: es)))
  end.

Fixpoint astFields (l : list (fieldtag * value))
  : result (list (string * json)) :=
  match l with
  | [] => Ok []
  | (t, x) :: r =>
      if omitempty t && isEmptyValue x then astFields r
      else
        bind (ast x) (fun e =>
        bind (astFields r) (fun ms => Ok ((escape (name t), e) :: ms)))
  end.

(** The loops of [decode], named. *)
Fixpoint decodeElems (e : rtype) (l : list json) : result (list value) :=
  match l with
  | [] => Ok []
  | x :: r =>
      bind (decode x (zeroOf e)) (fun v =>
      bind (decodeElems e r) (fun vs => Ok (v :: vs)))
  end.

Fixpoint decodeMembers (ms : list (string * json))
    (fs : list (fieldtag * value)) : result value :=
  match ms with
  | [] => Ok (VStruct fs)
  | (k, x) :: r =>
      match unquote k with
      | None => Err SyntaxError
      | Some key =>
          match findField key fs with
          | None => decodeMembers r fs
          | Some i =>
              bind (decode x (fieldValue i fs)) (fun v =>
                decodeMembers r (setField i v fs))
          end
      end
  end.

(** Reading a list of values back into records. *)
Fixpoint reifyList {A : Type} (f : value -> option A) (l : list value)
  : option (list A) :=
  match l with
  | [] => Some []
  | x :: r =>
      match f x, reifyList f r with
      | Some a, Some l' => Some (a :: l')
      | _, _ => None
      end
  end.

Definition reifySlice {A : Type} (f : value -> option A) (v : value)
  : option (list A) :=
  match v with
  | VSlice _ elems => reifyList f elems
  | _ => None
  end.

Definition reifyInt (v : value) : option Z :=
  match v with
  | VInt _ n => Some n
  | _ => None
  end.

End Json.

Import Go Json.

Notation "x <- m ;; k" := (seq m (fun x => k))
  (at level 61, m at next level, right associativity).

(* ===================================================================== *)
(** * Types of the package declared in other files                        *)
(* ===================================================================== *)

(** [health-old.go] uses four types that the package declares elsewhere.
    They are taken as given, each with its zero value, the way the encoder
    sees it and the way it is read back from a decoded value: [SysInfo],
    [MinioHealthInfo] and [InfoMessage] as field types, and [NodeCommon] as
    an embedded struct, whose fields the encoder writes in place, before
    the fields declared after it, and under names none of those fields
    bears. *)
Class Declared : Type := {
  SysInfo : Type;
  MinioHealthInfo : Type;
  InfoMessage : Type;
  NodeCommon : Type;
  zeroSysInfo : SysInfo;
  zeroMinioHealthInfo : MinioHealthInfo;
  zeroInfoMessage : InfoMessage;
  zeroNodeCommon : NodeCommon;
  reflectSysInfo : SysInfo -> value;
  reflectMinioHealthInfo : MinioHealthInfo -> value;
  reflectInfoMessage : InfoMessage -> value;
  fieldsNodeCommon : NodeCommon -> list (fieldtag * value);
  reifySysInfo : value -> option SysInfo;
  reifyMinioHealthInfo : value -> option MinioHealthInfo;
  reifyInfoMessage : value -> option InfoMessage;
  reifyNodeCommon : list (fieldtag * value) -> option NodeCommon
}.

(* ===================================================================== *)
(** * The records of health-old.go                                        *)
(* ===================================================================== *)

(** Numbers are [Z] ([int], [int32], [int64], [uint64]); a [float64] or
    [float32] is its bit pattern; a slice is the list of its elements. *)

Module Latency.
Record t : Type := mk {
  Avg : Z;
  Max : Z;
  Min : Z;
  Percentile50 : Z;
  Percentile90 : Z;
  Percentile99 : Z
}.

Definition reflect (l : t) : value :=
  VStruct
    [ (tag "avg" false, VFloat 64 (Avg l));
      (tag "max" false, VFloat 64 (Max l));
      (tag "min" false, VFloat 64 (Min l));
      (tag "percentile_50" false, VFloat 64 (Percentile50 l));
      (tag "percentile_90" false, VFloat 64 (Percentile90 l));
      (tag "percentile_99" false, VFloat 64 (Percentile99 l)) ].

(** The zero value, and the type as the encoder sees it. *)
Definition zero : t := mk 0 0 0 0 0 0.
Definition typ : rtype := typeOf (reflect zero).

Definition reify (v : value) : option t :=
  match v with
  | VStruct [ (_, VFloat _ a); (_, VFloat _ b); (_, VFloat _ c); (_, VFloat _ d); (_, VFloat _ e); (_, VFloat _ f) ] =>
      Some (mk a b c d e f)
  | _ => None
  end.
End Latency.

Module Throughput.
Record t : Type := mk {
  Avg : Z;
  Max : Z;
  Min : Z;
  Percentile50 : Z;
  Percentile90 : Z;
  Percentile99 : Z
}.

Definition reflect (x : t) : value :=
  VStruct
    [ (tag "avg" false, VUint 64 (Avg x));
      (tag "max" false, VUint 64 (Max x));
      (tag "min" false, VUint 64 (Min x));
      (tag "percentile_50" false, VUint 64 (Percentile50 x));
      (tag "percentile_90" false, VUint 64 (Percentile90 x));
      (tag "percentile_99" false, VUint 64 (Percentile99 x)) ].

(** The zero value, and the type as the encoder sees it. *)
Definition zero : t := mk 0 0 0 0 0 0.
Definition typ : rtype := typeOf (reflect zero).

Definition reify (v : value) : option t :=
  match v with
  | VStruct [ (_, VUint _ a); (_, VUint _ b); (_, VUint _ c); (_, VUint _ d); (_, VUint _ e); (_, VUint _ f) ] =>
      Some (mk a b c d e f)
  | _ => None
  end.
End Throughput.

Module DrivePerfInfo.
Record t : Type := mk {
  Error : string;
  Path : string;
  Latency : Latency.t;
  Throughput : Throughput.t
}.

Definition reflect (d : t) : value :=
  VStruct
    [ (tag "error" true, VString (Error d));
      (tag "path" false, VString (Path d));
      (tag "latency" true, Latency.reflect (Latency d));
      (tag "throughput" true, Throughput.reflect (Throughput d)) ].

(** The zero value, and the type as the encoder sees it. *)
Definition zero : t := mk EmptyString EmptyString Latency.zero Throughput.zero.
Definition typ : rtype := typeOf (reflect zero).

Definition reify (v : value) : option t :=
  match v with
  | VStruct [ (_, VString e); (_, VString p); (_, l); (_, th) ] =>
      match Latency.reify l, Throughput.reify th with
      | Some l', Some th' => Some (mk e p l' th')
      | _, _ => None
      end
  | _ => None
  end.
End DrivePerfInfo.

Module DrivePerfInfos.
Section WithDeclared.
Context {D : Declared}.

Record t : Type := mk {
  Common : NodeCommon;                       (* embedded NodeCommon *)
  SerialPerf : list DrivePerfInfo.t;
  ParallelPerf : list DrivePerfInfo.t
}.

Definition reflect (d : t) : value :=
  VStruct
    (fieldsNodeCommon (Common d) ++
     [ (tag "serial_perf" true, VSlice DrivePerfInfo.typ (map DrivePerfInfo.reflect (SerialPerf d)));
       (tag "parallel_perf" true, VSlice DrivePerfInfo.typ (map DrivePerfInfo.reflect (ParallelPerf d))) ]).

(** The zero value, and the type as the encoder sees it. *)
Definition zero : t := mk zeroNodeCommon [] [].
Definition typ : rtype := typeOf (reflect zero).

(** The fields of the embedded [NodeCommon] come first; the two
    declared here are the last two. *)
Definition reify (v : value) : option t :=
  match v with
  | VStruct fs =>
      let n := (List.length fs - 2)%nat in
      match reifyNodeCommon (firstn n fs), skipn n fs with
      | Some c, [ (_, sp); (_, pp) ] =>
          match reifySlice DrivePerfInfo.reify sp,
                reifySlice DrivePerfInfo.reify pp with
          | Some sp', Some pp' => Some (mk c sp' pp')
          | _, _ => None
          end
      | _, _ => None
      end
  | _ => None
  end.
End WithDeclared.
End DrivePerfInfos.

Module PeerNetPerfInfo.
Section WithDeclared.
Context {D : Declared}.

Record t : Type := mk {
  Common : NodeCommon;                       (* embedded NodeCommon *)
  Latency : Latency.t;
  Throughput : Throughput.t
}.

Definition reflect (p : t) : value :=
  VStruct
    (fieldsNodeCommon (Common p) ++
     [ (tag "latency" true, Latency.reflect (Latency p));
       (tag "throughput" true, Throughput.reflect (Throughput p)) ]).

(** The zero value, and the type as the encoder sees it. *)
Definition zero : t := mk zeroNodeCommon Latency.zero Throughput.zero.
Definition typ : rtype := typeOf (reflect zero).

Definition reify (v : value) : option t :=
  match v with
  | VStruct fs =>
      let n := (List.length fs - 2)%nat in
      match reifyNodeCommon (firstn n fs), skipn n fs with
      | Some c, [ (_, l); (_, th) ] =>
          match Latency.reify l, Throughput.reify th with
          | Some l', Some th' => Some (mk c l' th')
          | _, _ => None
          end
      | _, _ => None
      end
  | _ => None
  end.
End WithDeclared.
End PeerNetPerfInfo.

Module NetPerfInfo.
Section WithDeclared.
Context {D : Declared}.

Record t : Type := mk {
  Common : NodeCommon;                       (* embedded NodeCommon *)
  RemotePeers : list PeerNetPerfInfo.t
}.

Definition reflect (n : t) : value :=
  VStruct
    (fieldsNodeCommon (Common n) ++
     [ (tag "remote_peers" true,
        VSlice PeerNetPerfInfo.typ (map PeerNetPerfInfo.reflect (RemotePeers n))) ]).

(** The zero value, and the type as the encoder sees it. *)
Definition zero : t := mk zeroNodeCommon [].
Definition typ : rtype := typeOf (reflect zero).

Definition reify (v : value) : option t :=
  match v with
  | VStruct fs =>
      let n := (List.length fs - 1)%nat in
      match reifyNodeCommon (firstn n fs), skipn n fs with
      | Some c, [ (_, rp) ] =>
          match reifySlice PeerNetPerfInfo.reify rp with
          | Some rp' => Some (mk c rp')
          | None => None
          end
      | _, _ => None
      end
  | _ => None
  end.
End WithDeclared.
End NetPerfInfo.

Module PerfInfo.
Section WithDeclared.
Context {D : Declared}.

Record t : Type := mk {
  Drives : list DrivePerfInfos.t;
  Net : list NetPerfInfo.t;
  NetParallel : NetPerfInfo.t
}.

Definition reflect (p : t) : value :=
  VStruct
    [ (tag "drives" true, VSlice DrivePerfInfos.typ (map DrivePerfInfos.reflect (Drives p)));
      (tag "net" true, VSlice NetPerfInfo.typ (map NetPerfInfo.reflect (Net p)));
      (tag "net_parallel" true, NetPerfInfo.reflect (NetParallel p)) ].

(** The zero value, and the type as the encoder sees it. *)
Definition zero : t := mk [] [] NetPerfInfo.zero.
Definition typ : rtype := typeOf (reflect zero).

Definition reify (v : value) : option t :=
  match v with
  | VStruct [ (_, d); (_, n); (_, np) ] =>
      match reifySlice DrivePerfInfos.reify d,
            reifySlice NetPerfInfo.reify n,
            NetPerfInfo.reify np with
      | Some d', Some n', Some np' => Some (mk d' n' np')
      | _, _, _ => None
      end
  | _ => None
  end.
End WithDeclared.
End PerfInfo.

Module SysProcess.
Record t : Type := mk {
  Pid : Z;
  Background : bool;
  CPUPercent : Z;                              (* float64 *)
  Children : list Z;
  CmdLine : string;
  ConnectionCount : Z;
  CreateTime : Z;
  Cwd : string;
  Exe : string;
  Gids : list Z;
  IsRunning : bool;
  MemPercent : Z;                              (* float32 *)
  Name : string;
  Nice : Z;
  NumFds : Z;
  NumThreads : Z;
  Parent : Z;
  Ppid : Z;
  Status : string;
  Tgid : Z;
  Uids : list Z;
  Username : string
}.

Definition reflect (sp : t) : value :=
  VStruct
    [ (tag "pid" false, VInt 32 (Pid sp));
      (tag "background" true, VBool (Background sp));
      (tag "cpupercent" true, VFloat 64 (CPUPercent sp));
      (tag "children" true, VSlice (TInt 32) (map (VInt 32) (Children sp)));
      (tag "cmd" true, VString (CmdLine sp));
      (tag "connection_count" true, VInt 64 (ConnectionCount sp));
      (tag "createtime" true, VInt 64 (CreateTime sp));
      (tag "cwd" true, VString (Cwd sp));
      (tag "exe" true, VString (Exe sp));
      (tag "gids" true, VSlice (TInt 32) (map (VInt 32) (Gids sp)));
      (tag "isrunning" true, VBool (IsRunning sp));
      (tag "mempercent" true, VFloat 32 (MemPercent sp));
      (tag "name" true, VString (Name sp));
      (tag "nice" true, VInt 32 (Nice sp));
      (tag "numfds" true, VInt 32 (NumFds sp));
      (tag "numthreads" true, VInt 32 (NumThreads sp));
      (tag "parent" true, VInt 32 (Parent sp));
      (tag "ppid" true, VInt 32 (Ppid sp));
      (tag "status" true, VString (Status sp));
      (tag "tgid" true, VInt 32 (Tgid sp));
      (tag "uids" true, VSlice (TInt 32) (map (VInt 32) (Uids sp)));
      (tag "username" true, VString (Username sp)) ].

(** The zero value, and the type as the encoder sees it. *)
Definition zero : t :=
  mk 0 false 0 [] EmptyString 0 0 EmptyString EmptyString [] false 0
  EmptyString 0 0 0 0 0 EmptyString 0 [] EmptyString.
Definition typ : rtype := typeOf (reflect zero).

Definition reify (v : value) : option t :=
  match v with
  | VStruct
      [ (_, VInt _ pid); (_, VBool bg); (_, VFloat _ cpu); (_, ch);
        (_, VString cmd); (_, VInt _ cc); (_, VInt _ ct); (_, VString cwd);
        (_, VString exe); (_, gs); (_, VBool run); (_, VFloat _ mem);
        (_, VString nm); (_, VInt _ nice); (_, VInt _ nfds);
        (_, VInt _ nthr); (_, VInt _ par); (_, VInt _ ppid);
        (_, VString st); (_, VInt _ tgid); (_, us); (_, VString user) ] =>
      match reifySlice reifyInt ch, reifySlice reifyInt gs,
            reifySlice reifyInt us with
      | Some ch', Some gs', Some us' =>
          Some (mk pid bg cpu ch' cmd cc ct cwd exe gs' run mem nm nice
                  nfds nthr par ppid st tgid us' user)
      | _, _, _ => None
      end
  | _ => None
  end.

(** GetOwner - returns owner of the process *)
Definition GetOwner : method t string :=
  sp <- receiver ;;
  ret (Username sp).
End SysProcess.

Module ServerProcInfo.
Record t : Type := mk {
  Addr : string;
  Processes : list SysProcess.t;
  Error : string
}.

Definition reflect (x : t) : value :=
  VStruct
    [ (tag "addr" false, VString (Addr x));
      (tag "processes" true, VSlice SysProcess.typ (map SysProcess.reflect (Processes x)));
      (tag "error" true, VString (Error x)) ].

(** The zero value, and the type as the encoder sees it. *)
Definition zero : t := mk EmptyString [] EmptyString.
Definition typ : rtype := typeOf (reflect zero).

Definition reify (v : value) : option t :=
  match v with
  | VStruct [ (_, VString a); (_, ps); (_, VString e) ] =>
      match reifySlice SysProcess.reify ps with
      | Some ps' => Some (mk a ps' e)
      | None => None
      end
  | _ => None
  end.
End ServerProcInfo.

Module ServerMemInfo.
Record t : Type := mk {
  Addr : string;
  Error : string
}.

Definition reflect (x : t) : value :=
  VStruct
    [ (tag "addr" false, VString (Addr x));
      (tag "error" true, VString (Error x)) ].

(** The zero value, and the type as the encoder sees it. *)
Definition zero : t := mk EmptyString EmptyString.
Definition typ : rtype := typeOf (reflect zero).

Definition reify (v : value) : option t :=
  match v with
  | VStruct [ (_, VString a); (_, VString e) ] => Some (mk a e)
  | _ => None
  end.
End ServerMemInfo.

Module ServerOsInfo.
Record t : Type := mk {
  Addr : string;
  Error : string
}.

Definition reflect (x : t) : value :=
  VStruct
    [ (tag "addr" false, VString (Addr x));
      (tag "error" true, VString (Error x)) ].

(** The zero value, and the type as the encoder sees it. *)
Definition zero : t := mk EmptyString EmptyString.
Definition typ : rtype := typeOf (reflect zero).

Definition reify (v : value) : option t :=
  match v with
  | VStruct [ (_, VString a); (_, VString e) ] => Some (mk a e)
  | _ => None
  end.
End ServerOsInfo.

Module ServerCPUInfo.
Record t : Type := mk {
  Addr : string;
  Error : string
}.

Definition reflect (x : t) : value :=
  VStruct
    [ (tag "addr" false, VString (Addr x));
      (tag "error" true, VString (Error x)) ].

(** The zero value, and the type as the encoder sees it. *)
Definition zero : t := mk EmptyString EmptyString.
Definition typ : rtype := typeOf (reflect zero).

Definition reify (v : value) : option t :=
  match v with
  | VStruct [ (_, VString a); (_, VString e) ] => Some (mk a e)
  | _ => None
  end.
End ServerCPUInfo.

Module ServerDiskHwInfo.
Record t : Type := mk {
  Addr : string;
  Error : string
}.

Definition reflect (x : t) : value :=
  VStruct
    [ (tag "addr" false, VString (Addr x));
      (tag "error" true, VString (Error x)) ].

(** The zero value, and the type as the encoder sees it. *)
Definition zero : t := mk EmptyString EmptyString.
Definition typ : rtype := typeOf (reflect zero).

Definition reify (v : value) : option t :=
  match v with
  | VStruct [ (_, VString a); (_, VString e) ] => Some (mk a e)
  | _ => None
  end.
End ServerDiskHwInfo.

Module SysHealthInfo.
Record t : Type := mk {
  CPUInfo : list ServerCPUInfo.t;
  DiskHwInfo : list ServerDiskHwInfo.t;
  OsInfo : list ServerOsInfo.t;
  MemInfo : list ServerMemInfo.t;
  ProcInfo : list ServerProcInfo.t;
  Error : string
}.

Definition reflect (x : t) : value :=
  VStruct
    [ (tag "cpus" true, VSlice ServerCPUInfo.typ (map ServerCPUInfo.reflect (CPUInfo x)));
      (tag "drives" true, VSlice ServerDiskHwInfo.typ (map ServerDiskHwInfo.reflect (DiskHwInfo x)));
      (tag "osinfos" true, VSlice ServerOsInfo.typ (map ServerOsInfo.reflect (OsInfo x)));
      (tag "meminfos" true, VSlice ServerMemInfo.typ (map ServerMemInfo.reflect (MemInfo x)));
      (tag "procinfos" true, VSlice ServerProcInfo.typ (map ServerProcInfo.reflect (ProcInfo x)));
      (tag "error" true, VString (Error x)) ].

(** The zero value, and the type as the encoder sees it. *)
Definition zero : t := mk [] [] [] [] [] EmptyString.
Definition typ : rtype := typeOf (reflect zero).

Definition reify (v : value) : option t :=
  match v with
  | VStruct [ (_, c); (_, d); (_, o); (_, m); (_, p); (_, VString e) ] =>
      match reifySlice ServerCPUInfo.reify c,
            reifySlice ServerDiskHwInfo.reify d,
            reifySlice ServerOsInfo.reify o,
            reifySlice ServerMemInfo.reify m,
            reifySlice ServerProcInfo.reify p with
      | Some c', Some d', Some o', Some m', Some p' => Some (mk c' d' o' m' p' e)
      | _, _, _, _, _ => None
      end
  | _ => None
  end.
End SysHealthInfo.

Module MinioHealthInfoV0.
Section WithDeclared.
Context {D : Declared}.

(** [Config] is an [interface{}]: nil, or some value. *)
Record t : Type := mk {
  Info : InfoMessage;
  Config : option value;
  Error : string
}.

Definition reflect (x : t) : value :=
  VStruct
    [ (tag "info" true, reflectInfoMessage (Info x));
      (tag "config" true,
       match Config x with
       | Some v => VInterface v
       | None => VNil
       end);
      (tag "error" true, VString (Error x)) ].

(** The zero value, and the type as the encoder sees it. *)
Definition zero : t := mk zeroInfoMessage None EmptyString.
Definition typ : rtype := typeOf (reflect zero).
End WithDeclared.
End MinioHealthInfoV0.

Module HealthInfoV0.
Record t : Type := mk {
  TimeStamp : Time;
  Error : string;
  Sys : SysHealthInfo.t
}.

Definition reflect (info : t) : value :=
  VStruct
    [ (tag "timestamp" true, VTime (TimeStamp info));
      (tag "error" true, VString (Error info));
      (tag "sys" true, SysHealthInfo.reflect (Sys info)) ].

(** The zero value, and the type as the encoder sees it. *)
Definition zero : t := mk zeroTime EmptyString SysHealthInfo.zero.
Definition typ : rtype := typeOf (reflect zero).

Definition reify (v : value) : option t :=
  match v with
  | VStruct [ (_, VTime ts); (_, VString e); (_, sys) ] =>
      match SysHealthInfo.reify sys with
      | Some sys' => Some (mk ts e sys')
      | None => None
      end
  | _ => None
  end.

(** [json.Unmarshal(data, &info)] on a fresh [info]. *)
Definition Unmarshal (data : text) : result t :=
  bind (Json.Unmarshal data (reflect zero)) (fun v =>
    match reify v with
    | Some info => Ok info
    | None => Err OutsideModel
    end).

Definition String : method t text :=
  info <- receiver ;;
  match Marshal (reflect info) with
  | Err err => panic err (* This never happens. *)
  | Ok data => ret data
  end.

(** JSON returns this structure as JSON formatted string. *)
Definition JSON : method t text :=
  info <- receiver ;;
  match MarshalIndent (reflect info) " " "    " with
  | Err err => panic err (* This never happens. *)
  | Ok data => ret data
  end.
End HealthInfoV0.

Module HealthInfoV2.
Section WithDeclared.
Context {D : Declared}.

Record t : Type := mk {
  Version : string;
  Error : string;
  TimeStamp : Time;
  Sys : SysInfo;
  Perf : PerfInfo.t;
  Minio : MinioHealthInfo
}.

Definition reflect (info : t) : value :=
  VStruct
    [ (tag "version" false, VString (Version info));
      (tag "error" true, VString (Error info));
      (tag "timestamp" true, VTime (TimeStamp info));
      (tag "sys" true, reflectSysInfo (Sys info));
      (tag "perf" true, PerfInfo.reflect (Perf info));
      (tag "minio" true, reflectMinioHealthInfo (Minio info)) ].

(** The zero value, and the type as the encoder sees it. *)
Definition zero : t := mk EmptyString EmptyString zeroTime zeroSysInfo PerfInfo.zero zeroMinioHealthInfo.
Definition typ : rtype := typeOf (reflect zero).

Definition reify (v : value) : option t :=
  match v with
  | VStruct [ (_, VString ver); (_, VString e); (_, VTime ts); (_, sys);
              (_, perf); (_, minio) ] =>
      match reifySysInfo sys, PerfInfo.reify perf,
            reifyMinioHealthInfo minio with
      | Some sys', Some perf', Some minio' =>
          Some (mk ver e ts sys' perf' minio')
      | _, _, _ => None
      end
  | _ => None
  end.

(** [json.Unmarshal(data, &info)] on a fresh [info]. *)
Definition Unmarshal (data : text) : result t :=
  bind (Json.Unmarshal data (reflect zero)) (fun v =>
    match reify v with
    | Some info => Ok info
    | None => Err OutsideModel
    end).

Definition String : method t text :=
  info <- receiver ;;
  match Marshal (reflect info) with
  | Err err => panic err (* This never happens. *)
  | Ok data => ret data
  end.

(** JSON returns this structure as JSON formatted string. *)
Definition JSON : method t text :=
  info <- receiver ;;
  match MarshalIndent (reflect info) " " "    " with
  | Err err => panic err (* This never happens. *)
  | Ok data => ret data
  end.

(** GetError - returns error from the cluster health info v2 *)
Definition GetError : method t string :=
  info <- receiver ;;
  ret (Error info).

(** GetStatus - returns status of the cluster health info v2 *)
Definition GetStatus : method t string :=
  info <- receiver ;;
  if negb (Error info =? EmptyString)%string then ret "error"
  else ret "success".

(** GetTimestamp - returns timestamp from the cluster health info v2 *)
Definition GetTimestamp : method t Time :=
  info <- receiver ;;
  ret (TimeStamp info).
End WithDeclared.
End HealthInfoV2.

(** What the development asks of the types declared elsewhere when a
    report is read back: a value of the type is recovered from its
    encoder's view, and that view has one shape, the zero value's. *)
Class DeclaredLaws (D : Declared) : Prop := {
  reify_SysInfo : forall s, reifySysInfo (reflectSysInfo s) = Some s;
  type_SysInfo : forall s,
    typeOf (reflectSysInfo s) = typeOf (reflectSysInfo zeroSysInfo);
  zero_SysInfo :
    zeroOf (typeOf (reflectSysInfo zeroSysInfo)) = reflectSysInfo zeroSysInfo;
  reify_MinioHealthInfo : forall m,
    reifyMinioHealthInfo (reflectMinioHealthInfo m) = Some m;
  type_MinioHealthInfo : forall m,
    typeOf (reflectMinioHealthInfo m)
    = typeOf (reflectMinioHealthInfo zeroMinioHealthInfo);
  zero_MinioHealthInfo :
    zeroOf (typeOf (reflectMinioHealthInfo zeroMinioHealthInfo))
    = reflectMinioHealthInfo zeroMinioHealthInfo;
  reify_NodeCommon : forall c, reifyNodeCommon (fieldsNodeCommon c) = Some c;
  type_NodeCommon : forall c,
    typeOf (VStruct (fieldsNodeCommon c))
    = typeOf (VStruct (fieldsNodeCommon zeroNodeCommon));
  zero_NodeCommon :
    zeroOf (typeOf (VStruct (fieldsNodeCommon zeroNodeCommon)))
    = VStruct (fieldsNodeCommon zeroNodeCommon)
}.

(* ===================================================================== *)
(** * A sample of the types declared elsewhere                            *)
(* ===================================================================== *)

Module Sample.

(** Modelled from the spec: [NodeCommon], [SysInfo], [MinioHealthInfo]
    and [InfoMessage] are declared in files that are not part of this
    development.  The sample gives each the content the specification
    gives it: a per-node record is keyed by the node address and carries
    an optional error text; the system section of a report is the
    hardware and system information; the MinIO section carries its own
    optional error text.  It serves to run the definitions on concrete
    reports. *)
Record nodeCommon : Type := mkNode {
  Addr : string;
  Error : string
}.

Record minioInfo : Type := mkMinio {
  MinioError : string
}.

Definition declared : Declared := {|
  SysInfo := SysHealthInfo.t;
  MinioHealthInfo := minioInfo;
  InfoMessage := unit;
  NodeCommon := nodeCommon;
  zeroSysInfo := SysHealthInfo.zero;
  zeroMinioHealthInfo := mkMinio EmptyString;
  zeroInfoMessage := tt;
  zeroNodeCommon := mkNode EmptyString EmptyString;
  reflectSysInfo := SysHealthInfo.reflect;
  reflectMinioHealthInfo :=
    fun m => VStruct [ (tag "error" true, VString (MinioError m)) ];
  reflectInfoMessage := fun _ => VStruct [];
  fieldsNodeCommon :=
    fun c => [ (tag "addr" false, VString (Addr c));
               (tag "error" true, VString (Error c)) ];
  reifySysInfo := SysHealthInfo.reify;
  reifyMinioHealthInfo :=
    fun v =>
      match v with
      | VStruct [ (_, VString e) ] => Some (mkMinio e)
      | _ => None
      end;
  reifyInfoMessage :=
    fun v =>
      match v with
      | VStruct [] => Some tt
      | _ => None
      end;
  reifyNodeCommon :=
    fun fs =>
      match fs with
      | [ (_, VString a); (_, VString e) ] => Some (mkNode a e)
      | _ => None
      end
|}.

End Sample.

(* ===================================================================== *)
(** * Accessors                                                           *)
(* ===================================================================== *)

Module Reports.

(** Two reports of the sample that agree on the top-level error and on
    nothing else: version, time, and the error texts of their nodes. *)
Definition quiet : HealthInfoV2.t (D := Sample.declared) :=
  HealthInfoV2.mk (D := Sample.declared)
    "2" "disk read timeout" zeroTime SysHealthInfo.zero
    (PerfInfo.zero (D := Sample.declared)) (Sample.mkMinio EmptyString).

Definition noisy : HealthInfoV2.t (D := Sample.declared) :=
  HealthInfoV2.mk (D := Sample.declared)
    "3" "disk read timeout"
    (mkTime 2022 5 17 8 30 0 0 None UTC)
    (SysHealthInfo.mk
       [ServerCPUInfo.mk "node1:9000" "cpu: permission denied"] [] [] [] []
       "sys: partial")
    (PerfInfo.mk (D := Sample.declared)
       [DrivePerfInfos.mk (D := Sample.declared)
          (Sample.mkNode "node1:9000" "drive perf failed")
          [DrivePerfInfo.mk "i/o error" "/data1" Latency.zero Throughput.zero]
          []]
       []
       (NetPerfInfo.mk (D := Sample.declared)
          (Sample.mkNode "node2:9000" "unreachable") []))
    (Sample.mkMinio "minio: not ready").

(** A version 0 report one of whose processes has a CPU share that is
    not a number. *)
Definition NaN64 : Z := 0x7FF8000000000000.

Definition nanProcess : SysProcess.t :=
  SysProcess.mk 1 false NaN64 [] "minio server /data" 0 0 EmptyString
    EmptyString [] true 0 "minio" 0 0 0 0 0 EmptyString 0 [] "minio-user".

Definition nanReport : HealthInfoV0.t :=
  HealthInfoV0.mk zeroTime EmptyString
    (SysHealthInfo.mk [] [] [] []
       [ServerProcInfo.mk "node1:9000" [nanProcess] EmptyString]
       EmptyString).

End Reports.

(* ===================================================================== *)
(** * Notions the proofs are stated with                                  *)
(* ===================================================================== *)

Section Notions.
Local Open Scope list_scope.

Definition allSpace (t : text) : Prop := Forall (fun i => isSpace i = true) t.

(** The scanner is never inside a string while an indent is pending. *)
Definition inSync (s : scanner) (needIndent : bool) : Prop :=
  inString s = true -> needIndent = false.

(** A byte that may stand for itself between the quotes. *)
Definition plain (c : ascii) : bool :=
  (0x20 <=? byteval c) && negb (byteval c =? 0x22) && negb (byteval c =? 0x5C).

(** The literals the scanner accepts: plain bytes and the escapes. *)
Inductive rawOK : string -> Prop :=
| raw_nil : rawOK EmptyString
| raw_plain c r : plain c = true -> rawOK r -> rawOK (String c r)
| raw_escape c e r :
    byteval c = 0x5C -> isSimpleEscape e = true -> rawOK r ->
    rawOK (String c (String e r))
| raw_u c e h1 h2 h3 h4 r :
    byteval c = 0x5C -> byteval e = 0x75 ->
    isHex h1 = true -> isHex h2 = true -> isHex h3 = true -> isHex h4 = true ->
    rawOK r ->
    rawOK (String c (String e (String h1 (String h2 (String h3 (String h4 r)))))).

Definition inStr : scanner := scan true false.

Definition high (c : ascii) : Prop := 0x80 <= byteval c.

(** Where a number can end: at the end of the text or before a byte that
    no number contains. *)
Definition delimited (rest : text) : Prop :=
  match rest with
  | [] => True
  | i :: _ => isNumberCh i = false
  end.

Definition digitChar (c : ascii) : Prop := 48 <= byteval c <= 57.

Fixpoint allPlain (s : string) : bool :=
  match s with
  | EmptyString => true
  | String c r => plain c && allPlain r
  end.

Definition numOK (lit : text) : Prop :=
  (exists bitSize bits, lit = [Digits bitSize bits])
  \/ (Forall (fun i => isNumberCh i = true) lit /\ validNumber lit = true).

Fixpoint wfj (j : json) : Prop :=
  match j with
  | JNull => True
  | JBool _ => True
  | JNumber lit => numOK lit
  | JString raw => rawOK raw
  | JArray elems =>
      (fix all (l : list json) : Prop :=
         match l with
         | [] => True
         | x :: r => wfj x /\ all r
         end) elems
  | JObject members =>
      (fix all (l : list (string * json)) : Prop :=
         match l with
         | [] => True
         | (k, x) :: r => rawOK k /\ wfj x /\ all r
         end) members
  end.

(** A text that [Compact] leaves as it is, whatever follows. *)
Definition tidy (t : text) : Prop :=
  forall rest, compactFrom outside (t ++ rest) = t ++ compactFrom outside rest.

(** A byte that is neither white space nor a quote. *)
Definition solid (i : item) : Prop := isSpace i = false /\ isChar dquote i = false.

Definition readsBack (j : json) : Prop :=
  forall fuel rest,
    (2 * List.length (print j ++ rest) < fuel)%nat -> delimited rest ->
    parseValue fuel (print j ++ rest) = Ok (j, rest).

(** What [canonical] asks of one field. *)
Definition fieldOK (f : fieldtag * value) : Prop :=
  validUTF8 (name (fst f)) = true
  /\ (if omitempty (fst f) && isEmptyValue (snd f)
      then snd f = zeroOf (typeOf (snd f))
      else canonical (snd f)).

Definition zeroField (f : fieldtag * value) : fieldtag * value :=
  (fst f, zeroOf (typeOf (snd f))).

(** What is asked of each value below the one at hand. *)
Definition comesBack (v : value) : Prop :=
  canonical v -> forall j, ast v = Ok j -> decode j (zeroOf (typeOf v)) = Ok v.

Definition busyProcess : SysProcess.t :=
  SysProcess.mk 4711 true 0x3FF8000000000000 [4712; 4713] "minio server /data<1>" 12
    1652776200 "/srv/minio" "/usr/local/bin/minio" [1001] true 0x40490FDB
    "minio" 0 64 18 1 1 "S" 4711 [1001] "minio-user".

Definition wholeReport : HealthInfoV0.t :=
  HealthInfoV0.mk (mkTime 2022 5 17 8 30 0 250000000 None UTC) "partial"
    (SysHealthInfo.mk
       [ServerCPUInfo.mk "node1:9000" EmptyString]
       [ServerDiskHwInfo.mk "node1:9000" "smart: no data"] [] []
       [ServerProcInfo.mk "node1:9000" [busyProcess; SysProcess.zero] EmptyString]
       EmptyString).

(** A field is written unless it is tagged [omitempty] and empty. *)
Definition written (f : fieldtag * value) : bool :=
  negb (omitempty (fst f) && isEmptyValue (snd f)).

(** A float that has digits. *)
Definition finite (bitSize bits : Z) : bool :=
  negb (IsInf bitSize bits || IsNaN bitSize bits).

(** A time that [Time.MarshalJSON] writes: the year takes four digits and
    the zone hour two. *)
Definition timeWritable (t : Time) : bool :=
  (0 <=? year t) && (year t <=? 9999)
  && ((zoneOffset t =? 0)
      || negb (24 <=? Z.quot (Z.abs (Z.quot (zoneOffset t) 60)) 60)).

(** Where an error of the encoder can come from: a float without digits,
    a time that is not writable. *)
Fixpoint encodes (v : value) : bool :=
  match v with
  | VFloat bitSize bits => finite bitSize bits
  | VSlice _ elems => forallb encodes elems
  | VStruct fields =>
      forallb (fun f => (omitempty (fst f) && isEmptyValue (snd f)) || encodes (snd f))
        fields
  | VTime t => timeWritable t
  | VInterface x => encodes x
  | _ => true
  end.

(** A version 0 report that Marshal accepts: its timestamp is writable and
    the CPU and memory shares of its processes are finite. *)
Definition processWritable (sp : SysProcess.t) : bool :=
  finite 64 (SysProcess.CPUPercent sp) && finite 32 (SysProcess.MemPercent sp).

Definition reportWritable (info : HealthInfoV0.t) : bool :=
  timeWritable (HealthInfoV0.TimeStamp info)
  && forallb (fun node => forallb processWritable (ServerProcInfo.Processes node))
       (SysHealthInfo.ProcInfo (HealthInfoV0.Sys info)).

(** What the text of a time is made of: date, clock and the offset of its
    zone.  The monotonic clock reading and the name of the zone are not
    among them. *)
Definition sameReading (t u : Time) : Prop :=
  year t = year u /\ month t = month u /\ day t = day u
  /\ hour t = hour u /\ minute t = minute u /\ second t = second u
  /\ nanosecond t = nanosecond u /\ zoneOffset t = zoneOffset u.

(** Two reports that differ in their timestamps only. *)
Definition sameButTime {D : Declared} (a b : HealthInfoV2.t) : Prop :=
  HealthInfoV2.Version a = HealthInfoV2.Version b
  /\ HealthInfoV2.Error a = HealthInfoV2.Error b
  /\ HealthInfoV2.Sys a = HealthInfoV2.Sys b
  /\ HealthInfoV2.Perf a = HealthInfoV2.Perf b
  /\ HealthInfoV2.Minio a = HealthInfoV2.Minio b.

Definition cetReport : HealthInfoV2.t (D := Sample.declared) :=
  HealthInfoV2.mk (D := Sample.declared)
    "3" EmptyString
    (mkTime 2022 5 17 10 30 0 0 (Some 81234567) (Zone "CEST" 7200))
    SysHealthInfo.zero (PerfInfo.zero (D := Sample.declared))
    (Sample.mkMinio EmptyString).

Definition fixedZoneReport : HealthInfoV2.t (D := Sample.declared) :=
  HealthInfoV2.mk (D := Sample.declared)
    "3" EmptyString
    (mkTime 2022 5 17 10 30 0 0 None (Zone EmptyString 7200))
    SysHealthInfo.zero (PerfInfo.zero (D := Sample.declared))
    (Sample.mkMinio EmptyString).

Definition farFuture : HealthInfoV2.t (D := Sample.declared) :=
  HealthInfoV2.mk (D := Sample.declared)
    "3" "clock skew"
    (mkTime 10000 1 1 0 0 0 0 None UTC)
    SysHealthInfo.zero (PerfInfo.zero (D := Sample.declared))
    (Sample.mkMinio EmptyString).

(** Whether a struct writes a member of a given name. *)
Definition writes (n : string) (fs : list (fieldtag * value)) : bool :=
  existsb (fun f => (name (fst f) =? n)%string && written f) fs.

(** A date and clock that exist, in UTC, without a monotonic reading. *)
Definition validClock (t : Time) : Prop :=
  0 <= year t <= 9999 /\ 1 <= month t <= 12
  /\ 1 <= day t <= daysIn (month t) (year t)
  /\ 0 <= hour t <= 23 /\ 0 <= minute t <= 59 /\ 0 <= second t <= 59
  /\ 0 <= nanosecond t <= 999999999
  /\ monotonic t = None /\ loc t = UTC.

(** A byte that begins no UTF-8 sequence: a continuation byte, C0, C1,
    or F5 and above. *)
Definition startsNoRune (b : ascii) : bool :=
  between 0x80 (byteval b) 0xC1 || (0xF5 <=? byteval b).

(** A copy of a report with another top-level error. *)
Definition withError {D : Declared} (info : HealthInfoV2.t) (e : string)
  : HealthInfoV2.t :=
  HealthInfoV2.mk (HealthInfoV2.Version info) e (HealthInfoV2.TimeStamp info)
    (HealthInfoV2.Sys info) (HealthInfoV2.Perf info) (HealthInfoV2.Minio info).

Definition latencyFinite (l : Latency.t) : bool :=
  finite 64 (Latency.Avg l) && finite 64 (Latency.Max l)
  && finite 64 (Latency.Min l) && finite 64 (Latency.Percentile50 l)
  && finite 64 (Latency.Percentile90 l) && finite 64 (Latency.Percentile99 l).

Definition nanDrive : DrivePerfInfo.t :=
  DrivePerfInfo.mk EmptyString "/data1"
    (Latency.mk 0 Reports.NaN64 0 0 0 0) Throughput.zero.

Definition nanPerfReport : HealthInfoV2.t (D := Sample.declared) :=
  HealthInfoV2.mk (D := Sample.declared)
    "3" EmptyString zeroTime SysHealthInfo.zero
    (PerfInfo.mk (D := Sample.declared)
       [DrivePerfInfos.mk (D := Sample.declared)
          (Sample.mkNode "node1:9000" EmptyString) [] [nanDrive]]
       []
       (NetPerfInfo.zero (D := Sample.declared)))
    (Sample.mkMinio EmptyString).

End Notions.

(** A method body leaves its receiver alone when, whichever way its tests
    go, it ends in [ret] or [panic] on the receiver it started with. *)
Ltac frame :=
  unfold after, HealthInfoV2.String, HealthInfoV2.JSON, HealthInfoV2.GetError,
    HealthInfoV2.GetStatus, HealthInfoV2.GetTimestamp, SysProcess.GetOwner,
    HealthInfoV0.String, HealthInfoV0.JSON, seq, receiver, ret, panic;
  cbv beta iota;
  repeat match goal with
         | |- context [match ?x with _ => _ end] => destruct x
         end;
  reflexivity.

Section Accessors.
Context {D : Declared}.

(** C1. GetStatus returns "error" exactly when the top-level Error is a
    non-empty string, and "success" exactly when it is empty. *)
Theorem GetStatus_error_iff (info : HealthInfoV2.t) :
  (call HealthInfoV2.GetStatus info = Returns "error"
     <-> HealthInfoV2.Error info <> EmptyString)
  /\ (call HealthInfoV2.GetStatus info = Returns "success"
     <-> HealthInfoV2.Error info = EmptyString).
Proof.
  unfold call, HealthInfoV2.GetStatus, seq, receiver, ret; simpl.
  destruct (String.eqb_spec (HealthInfoV2.Error info) EmptyString) as [E | E];
    simpl; split; split; intro H; try congruence; try discriminate.
Qed.

(** C5. The status of a report is a function of its top-level Error
    alone: two reports with the same Error have the same status,
    whatever their other fields hold. *)
Theorem GetStatus_only_reads_Error (a b : HealthInfoV2.t) :
  HealthInfoV2.Error a = HealthInfoV2.Error b ->
  call HealthInfoV2.GetStatus a = call HealthInfoV2.GetStatus b.
Proof.
  intro E.
  unfold call, HealthInfoV2.GetStatus, seq, receiver, ret.
  cbv beta iota. rewrite E.
  now destruct (negb _).
Qed.

(** C7. GetError returns the top-level Error string of the report. *)
Theorem GetError_is_Error (info : HealthInfoV2.t) :
  call HealthInfoV2.GetError info = Returns (HealthInfoV2.Error info).
Proof. reflexivity. Qed.

(** C8. No method assigns to its receiver: after String, JSON, GetError,
    GetStatus, GetTimestamp or GetOwner, also when String or JSON panic,
    the record the method ran on is the record it was called on. *)
Theorem methods_leave_receiver (v0 : HealthInfoV0.t) (v2 : HealthInfoV2.t)
    (sp : SysProcess.t) :
  after HealthInfoV2.String v2 = v2
  /\ after HealthInfoV2.JSON v2 = v2
  /\ after HealthInfoV2.GetError v2 = v2
  /\ after HealthInfoV2.GetStatus v2 = v2
  /\ after HealthInfoV2.GetTimestamp v2 = v2
  /\ after SysProcess.GetOwner sp = sp
  /\ after HealthInfoV0.String v0 = v0
  /\ after HealthInfoV0.JSON v0 = v0.
Proof.
  repeat split; frame.
Qed.

End Accessors.

(** C5, on two reports that share their error and differ everywhere else. *)
Lemma GetStatus_only_reads_Error_witness :
  HealthInfoV2.Error Reports.quiet = HealthInfoV2.Error Reports.noisy
  /\ Reports.quiet <> Reports.noisy
  /\ call HealthInfoV2.GetStatus Reports.quiet
     = call HealthInfoV2.GetStatus Reports.noisy.
Proof.
  split; [reflexivity | split].
  - discriminate.
  - apply (GetStatus_only_reads_Error Reports.quiet Reports.noisy). reflexivity.
Defined.

(** C9. GetOwner returns the Username of the process. *)
Theorem GetOwner_is_Username (sp : SysProcess.t) :
  call SysProcess.GetOwner sp = Returns (SysProcess.Username sp).
Proof. reflexivity. Qed.

(** C4. On a report that holds a float that is not a number, Marshal
    reports an error and both String and JSON panic. *)
Theorem String_JSON_panic_on_NaN :
  call HealthInfoV0.String Reports.nanReport
    = Panics (UnsupportedValueError "NaN")
  /\ call HealthInfoV0.JSON Reports.nanReport
    = Panics (UnsupportedValueError "NaN").
Proof. split; vm_compute; reflexivity. Qed.

(* ===================================================================== *)
(** * Indent adds white space only                                        *)
(* ===================================================================== *)

Local Open Scope list_scope.

Lemma bytes_app (a b : string) : bytes (a ++ b)%string = bytes a ++ bytes b.
Proof. induction a as [| c a IH]; simpl; [reflexivity | now rewrite IH]. Qed.

Lemma isChar_eq (c : ascii) (i : item) : isChar c i = true -> i = Ch c.
Proof.
  destruct i as [d |]; unfold isChar; [| discriminate].
  intro H. apply Ascii.eqb_eq in H. now subst.
Qed.

(** White space is no quote: outside a string it leaves the scanner where
    it is. *)
Lemma step_space (s : scanner) (i : item) :
  inString s = false -> isSpace i = true -> step s i = s.
Proof.
  intros Hs Hi. unfold step. rewrite Hs.
  destruct i as [c |]; [| reflexivity].
  unfold isSpace in Hi.
  assert (E : isChar dquote (Ch c) = false).
  { unfold isChar. apply Ascii.eqb_neq. intros <-.
    repeat (apply orb_prop in Hi; destruct Hi as [Hi | Hi]);
      vm_compute in Hi; discriminate. }
  now rewrite E.
Qed.

Ltac chars_differ :=
  let H := fresh in intro H; vm_compute in H; discriminate.

Lemma compactFrom_space (s : scanner) (w rest : text) :
  inString s = false -> allSpace w ->
  compactFrom s (w ++ rest) = compactFrom s rest.
Proof.
  intros Hs Hw. induction Hw as [| i w Hi _ IH]; simpl; [reflexivity |].
  now rewrite Hs, Hi.
Qed.

Lemma allSpace_repeat (n : nat) (t : text) : allSpace t -> allSpace (repeatText n t).
Proof.
  intro H. induction n as [| n IH]; simpl; [constructor |].
  now apply Forall_app.
Qed.

Lemma allSpace_newline (prefix indent : string) (depth : nat) :
  allSpace (bytes prefix) -> allSpace (bytes indent) ->
  allSpace (appendNewline prefix indent depth).
Proof.
  intros Hp Hi. unfold appendNewline. constructor; [reflexivity |].
  apply Forall_app. split; [assumption | now apply allSpace_repeat].
Qed.

(** Outside a string, a byte that opens or closes an object or an array,
    a comma or a colon is no quote either. *)
Lemma step_punct (s : scanner) (c : ascii) (i : item) :
  inString s = false -> isChar c i = true -> c <> dquote -> step s i = s.
Proof.
  intros Hs Hi Hc. apply isChar_eq in Hi. subst i.
  unfold step. rewrite Hs. unfold isChar.
  destruct (Ascii.eqb_spec dquote c) as [E | _]; [now subst | reflexivity].
Qed.

Lemma step_outside_string (s : scanner) (i : item) :
  inString s = false -> inString (step s i) = true -> isChar dquote i = true.
Proof.
  intros Hs. unfold step. rewrite Hs.
  destruct (isChar dquote i); [reflexivity | now rewrite Hs].
Qed.

Lemma compactFrom_keep (s : scanner) (c : item) (r : text) :
  negb (inString s) && isSpace c = false ->
  compactFrom s (c :: r) = c :: compactFrom (step s c) r.
Proof. intro H. simpl. now rewrite H. Qed.

Lemma compact_appendIndent (prefix indent : string) :
  allSpace (bytes prefix) -> allSpace (bytes indent) ->
  forall (src : text) (s : scanner) (needIndent : bool) (depth : nat),
    inSync s needIndent ->
    compactFrom s (appendIndent prefix indent s needIndent depth src)
    = compactFrom s src.
Proof.
  intros Hp Hi.
  assert (NL : forall d, allSpace (appendNewline prefix indent d))
    by (intro d; now apply allSpace_newline).
  induction src as [| c rest IH]; intros s need depth Sync; simpl; [reflexivity |].
  destruct (inString s) eqn:Hs; simpl.
  - (* inside a string: no indent is pending, the byte is copied *)
    rewrite (Sync Hs). simpl. rewrite Hs. simpl. f_equal.
    apply IH. intros _. reflexivity.
  - destruct (isSpace c) eqn:Hc; simpl.
    + now apply IH.
    + set (closing := isChar "}" c || isChar "]" c).
      set (bump := need && negb closing).
      set (depth1 := if bump then S depth else depth).
      assert (Lead : forall out,
                 compactFrom s ((if bump then appendNewline prefix indent depth1
                                 else []) ++ out) = compactFrom s out).
      { intro out. destruct bump; [| reflexivity].
        now apply compactFrom_space. }
      rewrite Lead.
      assert (Go1 : forall nd d out,
                 inSync (step s c) nd ->
                 out = appendIndent prefix indent (step s c) nd d rest ->
                 compactFrom s (c :: out) = c :: compactFrom (step s c) rest).
      { intros nd d out Sy ->.
        rewrite compactFrom_keep by (rewrite Hs, Hc; reflexivity). f_equal.
        now apply IH. }
      destruct (isChar "{" c || isChar "[" c) eqn:Hopen.
      * eapply Go1; [| reflexivity].
        intro Hin. apply step_outside_string in Hin; [| assumption].
        apply isChar_eq in Hin. subst c. discriminate.
      * destruct (isChar "," c) eqn:Hcomma.
        { rewrite compactFrom_keep by (rewrite Hs, Hc; reflexivity). f_equal.
          assert (E : step s c = s)
            by (apply step_punct with (c := ","%char); [assumption .. | chars_differ]).
          rewrite E.
          change (Ch lf :: (bytes prefix ++ repeatText depth1 (bytes indent)) ++ ?x)
            with (appendNewline prefix indent depth1 ++ x).
          rewrite compactFrom_space by auto.
          apply IH. intro Hin. congruence. }
        destruct (isChar ":" c) eqn:Hcolon.
        { rewrite compactFrom_keep by (rewrite Hs, Hc; reflexivity). f_equal.
          assert (E : step s c = s)
            by (apply step_punct with (c := ":"%char); [assumption .. | chars_differ]).
          rewrite E.
          change (Ch " " :: ?x) with ([Ch " "] ++ x).
          rewrite compactFrom_space; [| assumption | repeat constructor].
          apply IH. intro Hin. congruence. }
        destruct closing eqn:Hclose.
        { assert (E : step s c = s).
          { unfold closing in Hclose. apply orb_prop in Hclose.
            destruct Hclose as [H | H];
              [apply step_punct with (c := "}"%char)
              | apply step_punct with (c := "]"%char)];
              try assumption; chars_differ. }
          rewrite andb_true_r.
          destruct need.
          - eapply Go1; [| reflexivity]. rewrite E. intro; congruence.
          - change (Ch lf :: (bytes prefix ++ repeatText ?d (bytes indent)) ++ ?x)
              with (appendNewline prefix indent d ++ x).
            rewrite compactFrom_space by auto.
            eapply Go1; [| reflexivity]. rewrite E. intro; congruence. }
        { eapply Go1; [| reflexivity].
          rewrite andb_false_r. intros _. reflexivity. }
Qed.

(** [Indent] with a prefix and an indent made of blanks changes nothing
    that [Compact] keeps. *)
Lemma Compact_Indent (src : text) (prefix indent : string) :
  allSpace (bytes prefix) -> allSpace (bytes indent) ->
  Compact (Indent src prefix indent) = Compact src.
Proof.
  intros Hp Hi. unfold Compact, Indent.
  apply compact_appendIndent; try assumption.
  intro H. discriminate.
Qed.

(* ===================================================================== *)
(** * String literals                                                     *)
(* ===================================================================== *)

Lemma byteOf_byteval (c : ascii) : byteOf (byteval c) = c.
Proof.
  unfold byteOf, byteval. rewrite N2Z.id. apply ascii_N_embedding.
Qed.

Lemma byteval_inj (c d : ascii) : byteval c = byteval d -> c = d.
Proof.
  intro H. rewrite <- (byteOf_byteval c), <- (byteOf_byteval d). now rewrite H.
Qed.

Lemma byteval_range (c : ascii) : 0 <= byteval c < 256.
Proof.
  unfold byteval. pose proof (N_ascii_bounded c). lia.
Qed.

Lemma byteval_byteOf (x : Z) : 0 <= x < 256 -> byteval (byteOf x) = x.
Proof.
  intro H. unfold byteval, byteOf.
  rewrite N_ascii_embedding by lia. lia.
Qed.

Ltac bools :=
  repeat match goal with
         | H : _ && _ = true |- _ => apply andb_prop in H; destruct H
         | H : _ || _ = false |- _ => apply orb_false_elim in H; destruct H
         | H : negb _ = true |- _ => apply negb_true_iff in H
         | H : negb _ = false |- _ => apply negb_false_iff in H
         | H : (_ <=? _) = true |- _ => apply Z.leb_le in H
         | H : (_ <=? _) = false |- _ => apply Z.leb_gt in H
         | H : (_ <? _) = true |- _ => apply Z.ltb_lt in H
         | H : (_ <? _) = false |- _ => apply Z.ltb_ge in H
         | H : (_ =? _) = true |- _ => apply Z.eqb_eq in H
         | H : (_ =? _) = false |- _ => apply Z.eqb_neq in H
         end.

(** Decide a boolean test on numbers from the bounds at hand. *)
Ltac decide_test :=
  match goal with
  | |- context [?a =? ?b] =>
      first [ replace (a =? b) with true by (symmetry; apply Z.eqb_eq; lia)
            | replace (a =? b) with false by (symmetry; apply Z.eqb_neq; lia) ]
  | |- context [?a <=? ?b] =>
      first [ replace (a <=? b) with true by (symmetry; apply Z.leb_le; lia)
            | replace (a <=? b) with false by (symmetry; apply Z.leb_gt; lia) ]
  | |- context [?a <? ?b] =>
      first [ replace (a <? b) with true by (symmetry; apply Z.ltb_lt; lia)
            | replace (a <? b) with false by (symmetry; apply Z.ltb_ge; lia) ]
  end.

Lemma isHex_plain (h : ascii) : isHex h = true -> plain h = true.
Proof.
  unfold isHex, hexVal, plain, between. intro H.
  destruct ((48 <=? byteval h) && (byteval h <=? 57)) eqn:A;
    [| destruct ((97 <=? byteval h) && (byteval h <=? 102)) eqn:B;
       [| destruct ((65 <=? byteval h) && (byteval h <=? 70)) eqn:C;
          [| discriminate]]];
    bools; repeat decide_test; reflexivity.
Qed.

Lemma scanString_raw (raw : string) :
  rawOK raw ->
  forall rest, scanString (bytes raw ++ Ch dquote :: rest) = Ok (raw, rest).
Proof.
  induction 1 as [| c r Hc _ IH | c e r Hc He _ IH
                  | c e h1 h2 h3 h4 r Hc He H1 H2 H3 H4 _ IH]; intro rest.
  - reflexivity.
  - cbn [bytes app scanString]. unfold plain in Hc. bools.
    repeat decide_test. cbv iota. rewrite IH. reflexivity.
  - cbn [bytes app scanString]. rewrite Hc, He. cbn [Z.eqb Pos.eqb].
    rewrite IH. reflexivity.
  - cbn [bytes app scanString]. rewrite Hc. cbn [Z.eqb Pos.eqb].
    assert (E : isSimpleEscape e = false)
      by (unfold isSimpleEscape; rewrite He; reflexivity).
    rewrite E, He, H1, H2, H3, H4. cbn [Z.eqb Pos.eqb andb].
    rewrite IH. reflexivity.
Qed.

Lemma step_plain (c : ascii) : plain c = true -> step inStr (Ch c) = inStr.
Proof.
  unfold plain. intro H. bools.
  unfold step, inStr, isChar. cbn [inString escaped].
  destruct (Ascii.eqb_spec "\"%char c) as [E | _];
    [subst c; vm_compute in H0; congruence |].
  destruct (Ascii.eqb_spec dquote c) as [E | _];
    [subst c; vm_compute in H1; congruence | reflexivity].
Qed.

Lemma step_backslash (c : ascii) :
  byteval c = 0x5C -> step inStr (Ch c) = scan true true.
Proof.
  intro H. assert (E : c = "\"%char) by (apply byteval_inj; rewrite H; reflexivity).
  subst c. reflexivity.
Qed.

Lemma step_escaped (i : item) : step (scan true true) i = inStr.
Proof. reflexivity. Qed.

Lemma compactFrom_inside (s : scanner) (c : item) (r : text) :
  inString s = true -> compactFrom s (c :: r) = c :: compactFrom (step s c) r.
Proof. intro H. simpl. now rewrite H. Qed.

(** Between the quotes every byte is kept, and the closing quote ends the
    string. *)
Lemma compactFrom_raw (raw : string) :
  rawOK raw ->
  forall rest,
    compactFrom inStr (bytes raw ++ Ch dquote :: rest)
    = bytes raw ++ Ch dquote :: compactFrom outside rest.
Proof.
  induction 1 as [| c r Hc _ IH | c e r Hc He _ IH
                  | c e h1 h2 h3 h4 r Hc He H1 H2 H3 H4 _ IH]; intro rest.
  - reflexivity.
  - cbn [bytes app]. rewrite compactFrom_inside by reflexivity.
    rewrite step_plain by assumption. now rewrite IH.
  - cbn [bytes app]. rewrite compactFrom_inside by reflexivity.
    rewrite step_backslash by assumption.
    rewrite compactFrom_inside by reflexivity. rewrite step_escaped.
    now rewrite IH.
  - cbn [bytes app]. rewrite compactFrom_inside by reflexivity.
    rewrite step_backslash by assumption.
    rewrite compactFrom_inside by reflexivity. rewrite step_escaped.
    repeat (rewrite compactFrom_inside by reflexivity;
            rewrite step_plain by (now apply isHex_plain)).
    now rewrite IH.
Qed.

Lemma rawOK_app (a b : string) : rawOK a -> rawOK b -> rawOK (a ++ b)%string.
Proof.
  induction 1; intro Hb; cbn [append]; try assumption;
    [apply raw_plain | apply raw_escape | apply raw_u]; auto.
Qed.

Lemma rawOK_allPlain (s : string) :
  (forall c, In (Ch c) (bytes s) -> plain c = true) -> rawOK s.
Proof.
  induction s as [| c s IH]; intro H; [constructor |].
  apply raw_plain.
  - apply H. now left.
  - apply IH. intros d Hd. apply H. now right.
Qed.

(** ** What [escape] writes *)

Lemma hex_digit (k : Z) :
  0 <= k < 16 -> isHex (hex k) = true /\ hexVal (hex k) = Some k.
Proof.
  intro H.
  assert (E : k = 0 \/ k = 1 \/ k = 2 \/ k = 3 \/ k = 4 \/ k = 5 \/ k = 6 \/ k = 7
              \/ k = 8 \/ k = 9 \/ k = 10 \/ k = 11 \/ k = 12 \/ k = 13
              \/ k = 14 \/ k = 15) by lia.
  repeat (destruct E as [-> | E]; [split; reflexivity |]).
  subst k. split; reflexivity.
Qed.

Lemma nibbles (x : Z) :
  0 <= x < 256 ->
  0 <= Z.shiftr x 4 < 16 /\ 0 <= Z.land x 0xF < 16
  /\ Z.shiftr x 4 * 16 + Z.land x 0xF = x.
Proof.
  intro H. rewrite Z.shiftr_div_pow2 by lia.
  change 0xF with (Z.ones 4). rewrite Z.land_ones by lia.
  change (2 ^ 4) with 16.
  pose proof (Z.div_mod x 16). pose proof (Z.mod_pos_bound x 16).
  assert (0 <= x / 16 < 16) by (split; [apply Z.div_pos | apply Z.div_lt_upper_bound]; lia).
  lia.
Qed.

Lemma rawOK_u4 (h1 h2 h3 h4 : ascii) (r : string) :
  isHex h1 = true -> isHex h2 = true -> isHex h3 = true -> isHex h4 = true ->
  rawOK r ->
  rawOK (String "\" (String "u" (String h1 (String h2 (String h3 (String h4 r)))))).
Proof. intros. now apply raw_u. Qed.

Lemma escapeByte_rawOK (b : ascii) (r : string) :
  rawOK r -> rawOK (escapeByte b ++ r)%string.
Proof.
  intro Hr. unfold escapeByte.
  destruct (htmlSafe b) eqn:Safe.
  - cbn [append]. apply raw_plain; [| assumption].
    unfold htmlSafe in Safe. unfold plain. bools.
    repeat decide_test. reflexivity.
  - destruct ((byteval b =? 0x5C) || (byteval b =? 0x22)) eqn:Q.
    + cbn [append]. apply raw_escape; [reflexivity | | assumption].
      unfold isSimpleEscape. apply orb_prop in Q.
      destruct Q as [Q | Q]; apply Z.eqb_eq in Q; rewrite Q; reflexivity.
    + repeat match goal with
             | |- context [if ?c then _ else _] =>
                 destruct c; [cbn [append]; apply raw_escape;
                              [reflexivity | reflexivity | assumption] |]
             end.
      destruct (nibbles (byteval b) (byteval_range b)) as (Hi & Lo & _).
      apply rawOK_u4; try reflexivity; try assumption; now apply hex_digit.
Qed.

Lemma high_plain (c : ascii) : high c -> plain c = true.
Proof.
  unfold high, plain. intro H. repeat decide_test. reflexivity.
Qed.

(** The bytes of a well-formed sequence are all above the ASCII range. *)
Lemma runeSize_high (b0 : ascii) (r : string) :
  match runeSize (String b0 r), r with
  | 2%nat, String b1 _ => high b1
  | 3%nat, String b1 (String b2 _) => high b1 /\ high b2
  | 4%nat, String b1 (String b2 (String b3 _)) => high b1 /\ high b2 /\ high b3
  | _, _ => True
  end.
Proof.
  unfold runeSize, high, isCont, between.
  destruct r as [| b1 [| b2 [| b3 r]]];
    repeat match goal with
           | |- context [if ?c then _ else _] => destruct c eqn:?
           end;
    cbv iota; auto; bools;
    repeat match goal with
           | H : context [if ?c then _ else _] |- _ => destruct c eqn:?
           end;
    bools; repeat split; lia.
Qed.

Lemma rawOK_replacement (r : string) : rawOK r -> rawOK (replacement ++ r)%string.
Proof. intro H. apply rawOK_u4; auto. Qed.

Lemma escape_rawOK_upto (n : nat) :
  forall s, (String.length s <= n)%nat -> rawOK (escape s).
Proof.
  induction n as [| n IH]; intros s Len.
  - destruct s; [constructor | simpl in Len; lia].
  - destruct s as [| b r]; [constructor |].
    simpl in Len. cbn [escape].
    destruct (byteval b <? 0x80) eqn:A.
    + apply escapeByte_rawOK. apply IH. lia.
    + assert (Hb : high b) by (unfold high; bools; lia).
      pose proof (runeSize_high b r) as Hh.
      destruct (runeSize (String b r)) as [| [| [| [| [| k]]]]];
        try (apply rawOK_replacement; apply IH; lia).
      * destruct r as [| b1 r'];
          [apply rawOK_replacement; apply IH; simpl; lia |].
        simpl in Len.
        repeat (apply raw_plain; [now apply high_plain |]).
        apply IH. lia.
      * destruct r as [| b1 [| b2 r']];
          try (apply rawOK_replacement; apply IH; simpl in *; lia).
        simpl in Len. destruct Hh as (H1 & H2).
        destruct (isLineSep b b1 b2).
        -- apply rawOK_u4; try reflexivity.
           ++ apply hex_digit.
              change 0xF with (Z.ones 4). rewrite Z.land_ones by lia.
              apply Z.mod_pos_bound. lia.
           ++ apply IH. lia.
        -- repeat (apply raw_plain; [now apply high_plain |]).
           apply IH. lia.
      * destruct r as [| b1 [| b2 [| b3 r']]];
          try (apply rawOK_replacement; apply IH; simpl in *; lia).
        simpl in Len. destruct Hh as (H1 & H2 & H3).
        repeat (apply raw_plain; [now apply high_plain |]).
        apply IH. lia.
Qed.

Lemma escape_rawOK (s : string) : rawOK (escape s).
Proof. apply (escape_rawOK_upto (String.length s)). lia. Qed.

(** ** Strings come back from what [escape] writes *)

Lemma unquote_ascii (b : ascii) (r : string) :
  plain b = true -> byteval b < 0x80 ->
  unquote (String b r) = option_map (String b) (unquote r).
Proof.
  unfold plain. intros P A. bools. cbn [unquote]. cbv zeta.
  repeat decide_test. reflexivity.
Qed.

Lemma unquote_simple (e : ascii) (r : string) :
  byteval e <> 0x75 ->
  unquote (String "\" (String e r))
  = match unescape e with
    | Some b => option_map (String b) (unquote r)
    | None => None
    end.
Proof.
  intro H. cbn [unquote]. cbv zeta.
  change (byteval "\" =? 92) with true. cbv iota.
  now decide_test.
Qed.

Lemma unquote_u4 (h1 h2 h3 h4 : ascii) (rr : Z) (r : string) :
  hex4 h1 h2 h3 h4 = Some rr -> isSurrogate rr = false ->
  unquote (String "\" (String "u" (String h1 (String h2 (String h3 (String h4 r))))))
  = prepend (encodeRune rr) (unquote r).
Proof.
  intros H S. cbn [unquote]. cbv zeta.
  change (byteval "\" =? 92) with true.
  change (byteval "u" =? 117) with true. cbv iota.
  rewrite H, S. reflexivity.
Qed.

Lemma unquote_escapeByte (b : ascii) (r : string) :
  byteval b < 0x80 ->
  unquote (escapeByte b ++ r) = option_map (String b) (unquote r).
Proof.
  intro A. pose proof (byteval_range b) as R. unfold escapeByte.
  destruct (htmlSafe b) eqn:Safe.
  - cbn [append]. apply unquote_ascii; [| assumption].
    unfold htmlSafe in Safe. unfold plain. bools. repeat decide_test. reflexivity.
  - destruct ((byteval b =? 0x5C) || (byteval b =? 0x22)) eqn:Q.
    + cbn [append].
      apply orb_prop in Q. destruct Q as [Q | Q]; apply Z.eqb_eq in Q;
        (rewrite unquote_simple by lia);
        unfold unescape; cbv zeta; rewrite Q; reflexivity.
    + assert (Known : forall x e,
                 byteval b = x -> unescape e = Some (byteOf x) -> byteval e <> 0x75 ->
                 unquote (String "\" (String e EmptyString) ++ r)
                 = option_map (String b) (unquote r)).
      { intros x e Hx He Hu. cbn [append]. rewrite unquote_simple by assumption.
        rewrite He. now rewrite <- Hx, byteOf_byteval. }
      destruct (byteval b =? 8) eqn:E1;
        [apply Known with (x := 8); [now apply Z.eqb_eq | reflexivity | discriminate] |].
      destruct (byteval b =? 12) eqn:E2;
        [apply Known with (x := 12); [now apply Z.eqb_eq | reflexivity | discriminate] |].
      destruct (byteval b =? 10) eqn:E3;
        [apply Known with (x := 10); [now apply Z.eqb_eq | reflexivity | discriminate] |].
      destruct (byteval b =? 13) eqn:E4;
        [apply Known with (x := 13); [now apply Z.eqb_eq | reflexivity | discriminate] |].
      destruct (byteval b =? 9) eqn:E5;
        [apply Known with (x := 9); [now apply Z.eqb_eq | reflexivity | discriminate] |].
      destruct (nibbles (byteval b) R) as (Hi & Lo & Sum).
      destruct (hex_digit _ Hi) as (_ & V1).
      destruct (hex_digit _ Lo) as (_ & V2).
      cbn [append].
      rewrite unquote_u4 with (rr := byteval b).
      * unfold encodeRune. decide_test. cbv iota.
        rewrite byteOf_byteval. unfold prepend.
        destruct (unquote r); reflexivity.
      * unfold hex4. rewrite V1, V2.
        change (hexVal "0") with (Some 0). cbv iota beta. f_equal. lia.
      * unfold isSurrogate, between. decide_test. reflexivity.
Qed.

Lemma unquote_high (b : ascii) (r : string) :
  high b ->
  unquote (String b r)
  = match runeSize (String b r), r with
    | 2%nat, String c1 r' =>
        option_map (fun u => String b (String c1 u)) (unquote r')
    | 3%nat, String c1 (String c2 r') =>
        option_map (fun u => String b (String c1 (String c2 u))) (unquote r')
    | 4%nat, String c1 (String c2 (String c3 r')) =>
        option_map (fun u => String b (String c1 (String c2 (String c3 u))))
          (unquote r')
    | _, _ => prepend replacementBytes (unquote r)
    end.
Proof.
  unfold high. intro H. cbn [unquote]. cbv zeta.
  repeat decide_test. reflexivity.
Qed.

(** The size of a sequence is read from its own bytes. *)
Lemma runeSize_ext (b0 : ascii) (r r' : string) (n : nat) :
  runeSize (String b0 r) = n ->
  match n, r with
  | 2%nat, String b1 _ => runeSize (String b0 (String b1 r')) = 2%nat
  | 3%nat, String b1 (String b2 _) =>
      runeSize (String b0 (String b1 (String b2 r'))) = 3%nat
  | 4%nat, String b1 (String b2 (String b3 _)) =>
      runeSize (String b0 (String b1 (String b2 (String b3 r')))) = 4%nat
  | _, _ => True
  end.
Proof.
  intros <-. unfold runeSize.
  destruct r as [| b1 [| b2 [| b3 r]]]; destruct r' as [| c1 [| c2 [| c3 r']]];
    repeat match goal with
           | |- context [if ?c then _ else _] => destruct c eqn:?
           end;
    cbv iota; auto; congruence.
Qed.

Lemma isLineSep_bytes (b0 b1 b2 : ascii) :
  isLineSep b0 b1 b2 = true ->
  b0 = byteOf 0xE2 /\ b1 = byteOf 0x80
  /\ (b2 = byteOf 0xA8 \/ b2 = byteOf 0xA9).
Proof.
  unfold isLineSep. intro H. bools.
  repeat split.
  - apply byteval_inj. rewrite H. reflexivity.
  - apply byteval_inj. rewrite H1. reflexivity.
  - apply orb_prop in H0. destruct H0 as [E | E]; apply Z.eqb_eq in E;
      [left | right]; apply byteval_inj; rewrite E; reflexivity.
Qed.

Lemma unquote_escape_upto (n : nat) :
  forall s, (String.length s <= n)%nat -> validUTF8 s = true ->
            unquote (escape s) = Some s.
Proof.
  induction n as [| n IH]; intros s Len Valid.
  - destruct s; [reflexivity | simpl in Len; lia].
  - destruct s as [| b r]; [reflexivity |].
    simpl in Len. cbn [escape validUTF8] in *.
    destruct (byteval b <? 0x80) eqn:A.
    + rewrite unquote_escapeByte by (bools; lia).
      rewrite IH by (assumption || lia). reflexivity.
    + assert (Hb : high b) by (unfold high; bools; lia).
      pose proof (runeSize_high b r) as Hh.
      destruct (runeSize (String b r)) as [| [| [| [| [| k]]]]] eqn:Size;
        try discriminate.
      * destruct r as [| b1 r']; [discriminate |]. simpl in Len.
        pose proof (runeSize_ext b _ (escape r') _ Size) as Ext. cbv iota in Ext.
        rewrite unquote_high, Ext by assumption.
        rewrite IH by (assumption || lia). reflexivity.
      * destruct r as [| b1 [| b2 r']]; try discriminate. simpl in Len.
        destruct (isLineSep b b1 b2) eqn:Sep.
        -- destruct (isLineSep_bytes _ _ _ Sep) as (-> & -> & [-> | ->]);
             cbn [append];
             [rewrite unquote_u4 with (rr := 0x2028) by reflexivity
             | rewrite unquote_u4 with (rr := 0x2029) by reflexivity];
             rewrite IH by (assumption || lia); reflexivity.
        -- pose proof (runeSize_ext b _ (escape r') _ Size) as Ext. cbv iota in Ext.
           rewrite unquote_high, Ext by assumption.
           rewrite IH by (assumption || lia). reflexivity.
      * destruct r as [| b1 [| b2 [| b3 r']]]; try discriminate. simpl in Len.
        pose proof (runeSize_ext b _ (escape r') _ Size) as Ext. cbv iota in Ext.
        rewrite unquote_high, Ext by assumption.
        rewrite IH by (assumption || lia). reflexivity.
Qed.

(** A string of valid UTF-8 is what its escaped form stands for. *)
Lemma unquote_escape (s : string) :
  validUTF8 s = true -> unquote (escape s) = Some s.
Proof. apply (unquote_escape_upto (String.length s)). lia. Qed.

(* ===================================================================== *)
(** * Number literals                                                     *)
(* ===================================================================== *)

Lemma spanNumber_app (lit rest : text) :
  Forall (fun i => isNumberCh i = true) lit -> delimited rest ->
  spanNumber (lit ++ rest) = (lit, rest).
Proof.
  intros Hl Hr. induction Hl as [| i l Hi _ IH]; simpl.
  - destruct rest as [| i r]; [reflexivity |]. simpl in *. now rewrite Hr.
  - now rewrite Hi, IH.
Qed.

Lemma eqb_byteval (c d : ascii) : byteval c <> byteval d -> Ascii.eqb d c = false.
Proof. intro H. apply Ascii.eqb_neq. intros ->. now apply H. Qed.

Lemma digitChar_isDigitCh (c : ascii) : digitChar c -> isDigitCh c = true.
Proof.
  unfold digitChar, isDigitCh, between. intro H. repeat decide_test. reflexivity.
Qed.

Lemma digitChar_isNumberCh (c : ascii) : digitChar c -> isNumberCh (Ch c) = true.
Proof.
  intro H. unfold isNumberCh. now rewrite digitChar_isDigitCh.
Qed.

(** The digits of a decimal number, as the standard library spells them. *)
Lemma uint_digits (d : Decimal.uint) :
  Forall (fun i => exists c, i = Ch c /\ digitChar c)
         (bytes (NilEmpty.string_of_uint d)).
Proof.
  induction d; simpl; constructor; try assumption;
    eexists; (split; [reflexivity | unfold digitChar; vm_compute; split; discriminate]).
Qed.

Lemma validIntTail_digits (t : text) :
  Forall (fun i => exists c, i = Ch c /\ digitChar c) t -> validIntTail t = true.
Proof.
  induction 1 as [| i t (c & -> & Hc) _ IH]; [reflexivity |].
  simpl. now rewrite (digitChar_isDigitCh c Hc).
Qed.

Lemma numberCh_digits (t : text) :
  Forall (fun i => exists c, i = Ch c /\ digitChar c) t ->
  Forall (fun i => isNumberCh i = true) t.
Proof.
  induction 1 as [| i t (c & -> & Hc) _ IH]; constructor; [| assumption].
  now apply digitChar_isNumberCh.
Qed.

Lemma nzhead_no_D0 (u v : Decimal.uint) : Decimal.nzhead u <> Decimal.D0 v.
Proof. induction u; simpl; try discriminate; assumption. Qed.

(** A positive number is written without a leading zero. *)
Lemma to_uint_no_D0 (p : positive) (u : Decimal.uint) :
  Pos.to_uint p <> Decimal.D0 u.
Proof.
  intro E.
  assert (N : Decimal.unorm (Pos.to_uint p) = Pos.to_uint p).
  { rewrite <- DecimalPos.Unsigned.to_of.
    rewrite DecimalPos.Unsigned.of_to. reflexivity. }
  rewrite E in N. rewrite DecimalFacts.unorm_D0 in N.
  unfold Decimal.unorm in N.
  destruct (Decimal.nzhead u) as [| v | | | | | | | | |] eqn:Z; try discriminate.
  - injection N as <-. apply (DecimalPos.Unsigned.to_uint_nonzero p). exact E.
  - now apply (nzhead_no_D0 u v).
Qed.

Lemma validUnsigned_pos (p : positive) :
  validUnsigned (bytes (NilEmpty.string_of_uint (Pos.to_uint p))) = true.
Proof.
  pose proof (to_uint_no_D0 p) as NZ.
  pose proof (DecimalPos.Unsigned.to_uint_nonnil p) as NN.
  pose proof (uint_digits (Pos.to_uint p)) as Ds.
  destruct (Pos.to_uint p) as [| u | u | u | u | u | u | u | u | u | u];
    try (now elim NN); try (now elim (NZ u));
    simpl in *; inversion Ds as [| ? ? _ Tl]; subst;
    now apply validIntTail_digits.
Qed.

Lemma itoa_eq (n : Z) :
  itoa n =
  match n with
  | 0 => "0"
  | Z.pos p => NilEmpty.string_of_uint (Pos.to_uint p)
  | Z.neg p => String "-" (NilEmpty.string_of_uint (Pos.to_uint p))
  end.
Proof.
  unfold itoa, NilZero.string_of_int, NilZero.string_of_uint.
  destruct n as [| p | p]; simpl; [reflexivity | |];
    pose proof (DecimalPos.Unsigned.to_uint_nonnil p) as NN;
    destruct (Pos.to_uint p); try reflexivity; now elim NN.
Qed.

Lemma itoa_numberCh (n : Z) : Forall (fun i => isNumberCh i = true) (bytes (itoa n)).
Proof.
  rewrite itoa_eq. destruct n.
  - repeat constructor.
  - apply numberCh_digits, uint_digits.
  - simpl. constructor; [reflexivity |]. apply numberCh_digits, uint_digits.
Qed.

Lemma itoa_valid (n : Z) : validNumber (bytes (itoa n)) = true.
Proof.
  rewrite itoa_eq. destruct n as [| p | p].
  - reflexivity.
  - pose proof (validUnsigned_pos p) as V.
    pose proof (uint_digits (Pos.to_uint p)) as Ds.
    destruct (bytes (NilEmpty.string_of_uint (Pos.to_uint p))) as [| i t];
      [discriminate |].
    inversion Ds as [| ? ? (c & -> & Hc) _]; subst.
    unfold validNumber.
    rewrite eqb_byteval; [assumption |].
    unfold digitChar in Hc. change (byteval "-") with 45. lia.
  - cbn [bytes validNumber]. change (Ascii.eqb "-" "-") with true. cbv iota.
    apply validUnsigned_pos.
Qed.

Lemma textString_bytes (s : string) : textString (bytes s) = Some s.
Proof. induction s as [| c s IH]; simpl; [reflexivity | now rewrite IH]. Qed.

Lemma ParseInt_itoa (n : Z) : ParseInt (bytes (itoa n)) = Some n.
Proof.
  unfold ParseInt, itoa. rewrite textString_bytes.
  rewrite NilZero.isi.
  - simpl. f_equal. apply DecimalZ.of_to.
  - destruct n; simpl; try discriminate.
    intro E. injection E as E. now apply (DecimalPos.Unsigned.to_uint_nonnil p).
  - destruct n; simpl; try discriminate.
    intro E. injection E as E. now apply (DecimalPos.Unsigned.to_uint_nonnil p).
Qed.

Lemma ParseUint_itoa (n : Z) : 0 <= n -> ParseUint (bytes (itoa n)) = Some n.
Proof.
  intro H. unfold ParseUint.
  pose proof (ParseInt_itoa n) as P.
  rewrite itoa_eq in *. destruct n as [| p | p]; [reflexivity | | lia].
  pose proof (uint_digits (Pos.to_uint p)) as Ds.
  destruct (bytes (NilEmpty.string_of_uint (Pos.to_uint p))) as [| i t] eqn:E.
  - discriminate.
  - inversion Ds as [| ? ? (c & -> & Hc) _]; subst.
    rewrite eqb_byteval; [assumption |].
    unfold digitChar in Hc. change (byteval "-") with 45. lia.
Qed.

(* ===================================================================== *)
(** * The encoder writes the text of a parsed value                       *)
(* ===================================================================== *)

(** Induction on values and on parsed texts, through their lists. *)
Lemma value_nested_ind (P : value -> Prop) :
  (forall b, P (VBool b)) ->
  (forall bitSize n, P (VInt bitSize n)) ->
  (forall bitSize n, P (VUint bitSize n)) ->
  (forall bitSize bits, P (VFloat bitSize bits)) ->
  (forall s, P (VString s)) ->
  (forall elem elems, Forall P elems -> P (VSlice elem elems)) ->
  (forall fields, Forall (fun f => P (snd f)) fields -> P (VStruct fields)) ->
  (forall t, P (VTime t)) ->
  (forall v, P v -> P (VInterface v)) ->
  P VNil ->
  forall v, P v.
Proof.
  intros Hb Hi Hu Hf Hs Hsl Hst Ht Hif Hn.
  fix IH 1. intros [b | bs n | bs n | bs bits | s | e l | fs | t | v |].
  - apply Hb.
  - apply Hi.
  - apply Hu.
  - apply Hf.
  - apply Hs.
  - apply Hsl. induction l as [| x l IHl]; constructor; [apply IH | exact IHl].
  - apply Hst. induction fs as [| f fs IHl]; constructor; [apply IH | exact IHl].
  - apply Ht.
  - apply Hif, IH.
  - apply Hn.
Qed.

Lemma json_nested_ind (P : json -> Prop) :
  P JNull ->
  (forall b, P (JBool b)) ->
  (forall lit, P (JNumber lit)) ->
  (forall raw, P (JString raw)) ->
  (forall elems, Forall P elems -> P (JArray elems)) ->
  (forall members, Forall (fun m => P (snd m)) members -> P (JObject members)) ->
  forall j, P j.
Proof.
  intros Hn Hb Hnum Hs Ha Ho.
  fix IH 1. intros [| b | lit | raw | l | ms].
  - apply Hn.
  - apply Hb.
  - apply Hnum.
  - apply Hs.
  - apply Ha. induction l as [| x l IHl]; constructor; [apply IH | exact IHl].
  - apply Ho. induction ms as [| m ms IHl]; constructor; [apply IH | exact IHl].
Qed.

Lemma encode_VSlice (e : rtype) (l : list value) :
  encode (VSlice e l) = bind (encodeElems l) (fun es => Ok (arrayText es)).
Proof. reflexivity. Qed.

Lemma encode_VStruct (fs : list (fieldtag * value)) :
  encode (VStruct fs) = bind (encodeFields fs) (fun ms => Ok (objectText ms)).
Proof. reflexivity. Qed.

Lemma ast_VSlice (e : rtype) (l : list value) :
  ast (VSlice e l) = bind (astElems l) (fun es => Ok (JArray es)).
Proof. reflexivity. Qed.

Lemma ast_VStruct (fs : list (fieldtag * value)) :
  ast (VStruct fs) = bind (astFields fs) (fun ms => Ok (JObject ms)).
Proof. reflexivity. Qed.

Lemma decode_JArray (elems : list json) (e : rtype) (l : list value) :
  decode (JArray elems) (VSlice e l)
  = bind (decodeElems e elems) (fun vs => Ok (VSlice e vs)).
Proof.
  cbn [decode]. f_equal. induction elems as [| x r IH]; [reflexivity |].
  cbn [decodeElems]. now rewrite IH.
Qed.

Lemma decode_JObject (members : list (string * json)) (fs : list (fieldtag * value)) :
  decode (JObject members) (VStruct fs) = decodeMembers members fs.
Proof. reflexivity. Qed.

Lemma memberText_print (k : string) (j : json) :
  memberText (k, print j) = printMember print (escape k, j).
Proof. reflexivity. Qed.

(** [encode] is [ast] followed by [print]. *)
Lemma encode_print (v : value) :
  encode v = bind (ast v) (fun j => Ok (print j)).
Proof.
  induction v as [b | bs n | bs n | bs bits | s | e l IH | fs IH | t | v IH |]
    using value_nested_ind.
  - reflexivity.
  - reflexivity.
  - reflexivity.
  - cbn [encode ast]. now destruct (encodeFloat bs bits).
  - reflexivity.
  - rewrite encode_VSlice, ast_VSlice.
    assert (E : encodeElems l = bind (astElems l) (fun js => Ok (map print js))).
    { induction IH as [| x l Hx _ IHl]; [reflexivity |].
      cbn [encodeElems astElems]. rewrite Hx, IHl.
      destruct (ast x); [| reflexivity]. cbn [bind].
      destruct (astElems l); reflexivity. }
    rewrite E. now destruct (astElems l).
  - rewrite encode_VStruct, ast_VStruct.
    assert (E : match astFields fs with
                | Ok ms => exists ms', encodeFields fs = Ok ms'
                                       /\ map memberText ms' = map (printMember print) ms
                | Err e => encodeFields fs = Err e
                end).
    { induction IH as [| [t x] fs Hx _ IHl]; [now exists [] |].
      cbn [encodeFields astFields]. cbn [snd] in Hx.
      destruct (omitempty t && isEmptyValue x); [exact IHl |].
      rewrite Hx. destruct (ast x) as [j | err]; [| reflexivity]. cbn [bind].
      destruct (astFields fs) as [ms | err].
      - destruct IHl as (ms' & -> & Eq). cbn [bind].
        eexists. split; [reflexivity |].
        cbn [map]. rewrite Eq. now rewrite memberText_print.
      - now rewrite IHl. }
    destruct (astFields fs) as [ms | err].
    + destruct E as (ms' & -> & Eq). cbn [bind print]. unfold objectText.
      now rewrite Eq.
    + now rewrite E.
  - cbn [encode ast]. unfold encodeTime, MarshalJSON.
    destruct (appendStrictRFC3339 t); reflexivity.
  - exact IH.
  - reflexivity.
Qed.

(* ===================================================================== *)
(** * The text of a time                                                  *)
(* ===================================================================== *)

Lemma allPlain_app (a b : string) :
  allPlain (a ++ b)%string = allPlain a && allPlain b.
Proof.
  induction a as [| c a IH]; simpl; [reflexivity |].
  now rewrite IH, andb_assoc.
Qed.

Lemma allPlain_rawOK (s : string) : allPlain s = true -> rawOK s.
Proof.
  induction s as [| c s IH]; simpl; intro H; [constructor |].
  apply andb_prop in H. destruct H. apply raw_plain; auto.
Qed.

Lemma digit_digitChar (d : Z) : 0 <= d <= 9 -> digitChar (digit d).
Proof.
  intro H.
  assert (E : d = 0 \/ d = 1 \/ d = 2 \/ d = 3 \/ d = 4 \/ d = 5 \/ d = 6
              \/ d = 7 \/ d = 8 \/ d = 9) by lia.
  unfold digitChar.
  repeat (destruct E as [-> | E]; [vm_compute; split; discriminate |]).
  subst. vm_compute; split; discriminate.
Qed.

Lemma digitChar_plain (c : ascii) : digitChar c -> plain c = true.
Proof.
  unfold digitChar, plain. intro H. repeat decide_test. reflexivity.
Qed.

Lemma allPlain_digits (w : nat) (x : Z) : allPlain (digits w x) = true.
Proof.
  revert x. induction w as [| w IH]; intro x; cbn [digits]; [reflexivity |].
  rewrite allPlain_app, IH. cbn [allPlain andb]. rewrite andb_true_r.
  apply digitChar_plain, digit_digitChar.
  pose proof (Z.mod_pos_bound x 10). lia.
Qed.

Lemma allPlain_uint (d : Decimal.uint) : allPlain (NilEmpty.string_of_uint d) = true.
Proof. induction d; simpl; try reflexivity; now rewrite IHd. Qed.

Lemma allPlain_itoa (n : Z) : allPlain (itoa n) = true.
Proof.
  rewrite itoa_eq. destruct n; simpl; try reflexivity; apply allPlain_uint.
Qed.

Lemma allPlain_appendInt (x : Z) (w : nat) : allPlain (appendInt x w) = true.
Proof.
  unfold appendInt. rewrite allPlain_app.
  destruct (x <? 0); destruct (Z.abs x <? 10 ^ Z.of_nat w); simpl;
    (apply allPlain_digits || apply allPlain_itoa).
Qed.

Lemma allPlain_trimZeros (s : string) : allPlain s = true -> allPlain (trimZeros s) = true.
Proof.
  induction s as [| c s IH]; simpl; intro H; [reflexivity |].
  apply andb_prop in H. destruct H as [Hc Hs].
  destruct (trimZeros s) eqn:E.
  - destruct (Ascii.eqb c "0"); simpl; [reflexivity | now rewrite Hc].
  - simpl. rewrite Hc. simpl. apply (IH Hs).
Qed.

Lemma allPlain_appendNano (ns : Z) : allPlain (appendNano ns) = true.
Proof.
  unfold appendNano. destruct (ns =? 0); [reflexivity |].
  simpl. apply allPlain_trimZeros, allPlain_appendInt.
Qed.

Lemma allPlain_time (t : Time) : allPlain (appendFormatRFC3339 t) = true.
Proof.
  unfold appendFormatRFC3339.
  repeat rewrite allPlain_app.
  repeat rewrite allPlain_appendInt. rewrite allPlain_appendNano.
  cbn [andb allPlain].
  destruct (zoneOffset t =? 0); [reflexivity |].
  repeat rewrite allPlain_app. repeat rewrite allPlain_appendInt.
  destruct (Z.quot (zoneOffset t) 60 <? 0); reflexivity.
Qed.

Lemma time_rawOK (t : Time) (raw : string) :
  appendStrictRFC3339 t = inl raw -> rawOK raw.
Proof.
  unfold appendStrictRFC3339. intro H.
  repeat match type of H with
         | (if ?c then _ else _) = _ => destruct c; try discriminate
         end.
  injection H as <-. apply allPlain_rawOK, allPlain_time.
Qed.

(* ===================================================================== *)
(** * Well-formed parsed texts                                            *)
(* ===================================================================== *)

Lemma wfj_JArray (l : list json) : wfj (JArray l) <-> Forall wfj l.
Proof.
  cbn [wfj]. induction l as [| x l IH]; [split; constructor |].
  split.
  - intros (Hx & Hl). constructor; [assumption | now apply IH].
  - intro H. inversion H; subst. split; [assumption | now apply IH].
Qed.

Lemma wfj_JObject (ms : list (string * json)) :
  wfj (JObject ms) <-> Forall (fun m => rawOK (fst m) /\ wfj (snd m)) ms.
Proof.
  cbn [wfj]. induction ms as [| [k x] ms IH]; [split; constructor |].
  split.
  - intros (Hk & Hx & Hl). constructor; [now split | now apply IH].
  - intro H. inversion H as [| ? ? (Hk & Hx) Hl]; subst.
    repeat split; try assumption. now apply IH.
Qed.

Lemma encodeFloat_numOK (bitSize bits : Z) (lit : text) :
  encodeFloat bitSize bits = Ok lit -> numOK lit.
Proof.
  unfold encodeFloat.
  destruct (IsInf bitSize bits || IsNaN bitSize bits); [discriminate |].
  destruct (floatIsZero bitSize bits).
  - intros [= <-]. right. destruct (signbit bitSize bits); split;
      repeat constructor.
  - intros [= <-]. left. eauto.
Qed.

(** What the encoder writes is well formed. *)
Lemma ast_wfj (v : value) : forall j, ast v = Ok j -> wfj j.
Proof.
  induction v as [b | bs n | bs n | bs bits | s | e l IH | fs IH | t | v IH |]
    using value_nested_ind; intros j H.
  - injection H as <-. exact I.
  - injection H as <-. right. split; [apply itoa_numberCh | apply itoa_valid].
  - injection H as <-. right. split; [apply itoa_numberCh | apply itoa_valid].
  - cbn [ast] in H. destruct (encodeFloat bs bits) eqn:E; [| discriminate].
    injection H as <-. now apply encodeFloat_numOK in E.
  - injection H as <-. apply escape_rawOK.
  - rewrite ast_VSlice in H.
    destruct (astElems l) as [js |] eqn:E; [| discriminate].
    injection H as <-. apply wfj_JArray.
    revert js E. induction IH as [| x l Hx _ IHl]; intros js E.
    + injection E as <-. constructor.
    + cbn [astElems] in E.
      destruct (ast x) as [jx |] eqn:Ex; [| discriminate]. cbn [bind] in E.
      destruct (astElems l) as [js' |]; [| discriminate].
      injection E as <-. constructor; [now apply Hx | now apply IHl].
  - rewrite ast_VStruct in H.
    destruct (astFields fs) as [ms |] eqn:E; [| discriminate].
    injection H as <-. apply wfj_JObject.
    revert ms E. induction IH as [| [t x] fs Hx _ IHl]; intros ms E.
    + injection E as <-. constructor.
    + cbn [astFields] in E. cbn [snd] in Hx.
      destruct (omitempty t && isEmptyValue x); [now apply IHl |].
      destruct (ast x) as [jx |] eqn:Ex; [| discriminate]. cbn [bind] in E.
      destruct (astFields fs) as [ms' |]; [| discriminate].
      injection E as <-. constructor; [| now apply IHl].
      split; [apply escape_rawOK | now apply Hx].
  - cbn [ast] in H. destruct (appendStrictRFC3339 t) eqn:E; [| discriminate].
    injection H as <-. now apply time_rawOK in E.
  - now apply IH.
  - injection H as <-. exact I.
Qed.

(* ===================================================================== *)
(** * The encoder's text is compact                                       *)
(* ===================================================================== *)

Lemma tidy_nil : tidy [].
Proof. intro rest. reflexivity. Qed.

Lemma tidy_app (a b : text) : tidy a -> tidy b -> tidy (a ++ b).
Proof.
  intros Ha Hb rest. rewrite <- app_assoc, Ha, Hb. now rewrite app_assoc.
Qed.

Lemma tidy_solid (i : item) : solid i -> tidy [i].
Proof.
  intros (Hs & Hq) rest. cbn [app].
  rewrite compactFrom_keep by (now rewrite Hs).
  unfold step, outside. cbn [inString]. now rewrite Hq.
Qed.

Lemma tidy_cons (i : item) (t : text) : solid i -> tidy t -> tidy (i :: t).
Proof. intros Hi Ht. apply (tidy_app [i] t); [now apply tidy_solid | assumption]. Qed.

Lemma solid_char (c : ascii) :
  byteval c <> 32 -> byteval c <> 9 -> byteval c <> 13 -> byteval c <> 10 ->
  byteval c <> 34 -> solid (Ch c).
Proof.
  intros. unfold solid, isSpace, isChar.
  repeat rewrite eqb_byteval; auto.
Qed.

Ltac solid_literal := apply solid_char; vm_compute; discriminate.

Lemma isNumberCh_cases (c : ascii) :
  isNumberCh (Ch c) = true ->
  digitChar c \/ byteval c = 45 \/ byteval c = 43 \/ byteval c = 46
  \/ byteval c = 101 \/ byteval c = 69.
Proof.
  unfold isNumberCh, isDigitCh, between, digitChar. intro H.
  repeat (apply orb_prop in H; destruct H as [H | H]);
    try (apply Ascii.eqb_eq in H; subst c; vm_compute; intuition congruence).
  bools. left. lia.
Qed.

Lemma solid_number (i : item) : isNumberCh i = true -> solid i.
Proof.
  destruct i as [c | bs b]; [| discriminate].
  intro H. apply isNumberCh_cases in H. unfold digitChar in H.
  apply solid_char; lia.
Qed.

Lemma tidy_solids (t : text) : Forall solid t -> tidy t.
Proof.
  induction 1 as [| i t Hi _ IH]; [apply tidy_nil | now apply tidy_cons].
Qed.

Lemma tidy_number (lit : text) : numOK lit -> tidy lit.
Proof.
  intros [(bs & b & ->) | (Hn & _)].
  - apply tidy_solid. split; reflexivity.
  - apply tidy_solids. eapply Forall_impl; [| exact Hn].
    intros i Hi. now apply solid_number.
Qed.

Lemma bytes_quoted (raw : string) :
  bytes (quoted raw) = Ch dquote :: bytes raw ++ [Ch dquote].
Proof. unfold quoted. cbn [bytes]. now rewrite bytes_app. Qed.

Lemma tidy_quoted (raw : string) : rawOK raw -> tidy (bytes (quoted raw)).
Proof.
  intros H rest. rewrite bytes_quoted. cbn [app]. rewrite <- app_assoc. cbn [app].
  rewrite compactFrom_keep by reflexivity.
  change (step outside (Ch dquote)) with inStr.
  rewrite compactFrom_raw by assumption.
  cbn [app]. rewrite <- app_assoc. reflexivity.
Qed.

Lemma commaSep_cons2 (p q : text) (r : list text) :
  commaSep (p :: q :: r) = p ++ Ch "," :: commaSep (q :: r).
Proof. reflexivity. Qed.

Lemma tidy_commaSep (parts : list text) : Forall tidy parts -> tidy (commaSep parts).
Proof.
  induction 1 as [| p parts Hp Hparts IH]; [apply tidy_nil |].
  destruct parts as [| q r]; [exact Hp |].
  rewrite commaSep_cons2. apply tidy_app; [assumption |].
  apply tidy_cons; [solid_literal | assumption].
Qed.

Lemma tidy_word (s : string) :
  Forall solid (bytes s) -> tidy (bytes s).
Proof. apply tidy_solids. Qed.

(** The text of a well-formed value holds no white space outside its
    strings. *)
Lemma tidy_print (j : json) : wfj j -> tidy (print j).
Proof.
  induction j as [| b | lit | raw | l IH | ms IH] using json_nested_ind; intro W.
  - apply tidy_solids. repeat constructor; solid_literal.
  - apply tidy_solids. destruct b; repeat constructor; solid_literal.
  - now apply tidy_number.
  - now apply tidy_quoted.
  - apply wfj_JArray in W. cbn [print]. unfold arrayText.
    apply tidy_cons; [solid_literal |].
    apply tidy_app; [| apply tidy_solid; solid_literal].
    apply tidy_commaSep. rewrite Forall_map.
    rewrite Forall_forall in *. auto.
  - apply wfj_JObject in W. cbn [print].
    apply tidy_cons; [solid_literal |].
    apply tidy_app; [| apply tidy_solid; solid_literal].
    apply tidy_commaSep. rewrite Forall_map.
    rewrite Forall_forall in *. intros m Hm.
    destruct (W m Hm) as (Hk & Hv). unfold printMember.
    apply tidy_app; [now apply tidy_quoted |].
    apply tidy_cons; [solid_literal | now apply IH].
Qed.

Lemma tidy_Compact (t : text) : tidy t -> Compact t = t.
Proof.
  intro H. unfold Compact. rewrite <- (app_nil_r t) at 1.
  rewrite H. simpl. apply app_nil_r.
Qed.

(** What [Marshal] returns is compact already. *)
Lemma Compact_Marshal (v : value) (data : text) :
  Marshal v = Ok data -> Compact data = data.
Proof.
  unfold Marshal. rewrite encode_print.
  destruct (ast v) as [j |] eqn:E; [| discriminate].
  intros [= <-]. apply tidy_Compact, tidy_print. now apply (ast_wfj v).
Qed.

(* ===================================================================== *)
(** * The parser reads back what [print] writes                           *)
(* ===================================================================== *)

Lemma numberCh_dispatch (c : ascii) :
  isNumberCh (Ch c) = true ->
  Ascii.eqb c "{" = false /\ Ascii.eqb c "[" = false
  /\ (byteval c =? 0x22) = false /\ Ascii.eqb c "t" = false
  /\ Ascii.eqb c "f" = false /\ Ascii.eqb c "n" = false.
Proof.
  intro H. apply isNumberCh_cases in H. unfold digitChar in H.
  repeat split; try (apply Z.eqb_neq; lia);
    rewrite Ascii.eqb_sym; apply eqb_byteval;
    match goal with |- _ <> byteval ?k => change (byteval k) with
      ltac:(let v := eval vm_compute in (byteval k) in exact v) end; lia.
Qed.

Lemma validNumber_head (lit : text) :
  validNumber lit = true -> exists c l, lit = Ch c :: l.
Proof.
  destruct lit as [| [c | ? ?] l]; try discriminate. eauto.
Qed.

Lemma parseValue_number (lit rest : text) (f : nat) :
  numOK lit -> delimited rest ->
  parseValue (S f) (lit ++ rest) = Ok (JNumber lit, rest).
Proof.
  intros [(bs & b & ->) | (Hn & Hv)] Hr; [reflexivity |].
  destruct (validNumber_head lit Hv) as (c & l & ->).
  pose proof (spanNumber_app _ _ Hn Hr) as Sp.
  inversion Hn as [| ? ? Hc _]; subst.
  destruct (numberCh_dispatch c Hc) as (D1 & D2 & D3 & D4 & D5 & D6).
  cbn [parseValue app]. rewrite D1, D2, D3, D4, D5, D6.
  change (Ch c :: l ++ rest) with ((Ch c :: l) ++ rest).
  rewrite Sp, Hv. reflexivity.
Qed.

Lemma parseValue_string (raw : string) (rest : text) (f : nat) :
  rawOK raw ->
  parseValue (S f) (bytes (quoted raw) ++ rest) = Ok (JString raw, rest).
Proof.
  intro H. rewrite bytes_quoted. cbn [app]. rewrite <- app_assoc. cbn [app].
  cbn [parseValue].
  change (Ascii.eqb dquote "{") with false.
  change (Ascii.eqb dquote "[") with false.
  change (byteval dquote =? 34) with true. cbv iota.
  now rewrite scanString_raw.
Qed.

(** The first byte of a value is none that closes an array or an object. *)
Lemma print_head (j : json) :
  wfj j -> exists i t, print j = i :: t /\ isChar "]" i = false.
Proof.
  destruct j as [| b | lit | raw | l | ms]; intro W.
  - eexists _, _. split; reflexivity.
  - destruct b; eexists _, _; split; reflexivity.
  - destruct W as [(bs & b & ->) | (Hn & Hv)].
    + eexists _, _. split; reflexivity.
    + destruct (validNumber_head lit Hv) as (c & l & ->).
      inversion Hn as [| ? ? Hc _]; subst.
      eexists _, _. split; [reflexivity |].
      apply isNumberCh_cases in Hc. unfold digitChar in Hc.
      unfold isChar. apply eqb_byteval. change (byteval "]") with 93. lia.
  - eexists _, _. split; [apply bytes_quoted | reflexivity].
  - eexists _, _. split; reflexivity.
  - eexists _, _. split; reflexivity.
Qed.

Lemma parseElems_print (l : list json) :
  Forall readsBack l -> Forall wfj l -> l <> [] ->
  forall fuel rest,
    (2 * List.length (commaSep (map print l) ++ Ch "]" :: rest) + 1 < fuel)%nat ->
    parseElems fuel (commaSep (map print l) ++ Ch "]" :: rest) = Ok (l, rest).
Proof.
  induction 1 as [| x l Hx Hl IH]; intros W NE fuel rest Fuel; [congruence |].
  inversion W as [| ? ? Wx Wl]; subst.
  destruct fuel as [| f]; [lia |].
  destruct (print_head x Wx) as (i & t & Ei & _).
  destruct l as [| y l'].
  - cbn [map commaSep] in *. cbn [parseElems].
    rewrite Hx; [reflexivity | rewrite length_app in *; lia | reflexivity].
  - cbn [map] in *. rewrite commaSep_cons2 in *.
    rewrite <- app_assoc in *. cbn [app] in *. cbn [parseElems].
    rewrite Hx; [| rewrite !length_app in *; lia | reflexivity].
    cbn [bind snd fst].
    change (Ascii.eqb "," ",") with true. cbv iota.
    rewrite IH; [reflexivity | assumption | discriminate |].
    rewrite Ei in Fuel. rewrite !length_app in *. cbn [List.length] in *.
    rewrite !length_app in *. cbn [List.length] in *. lia.
Qed.

Lemma parseMembers_print (ms : list (string * json)) :
  Forall (fun m => readsBack (snd m)) ms ->
  Forall (fun m => rawOK (fst m) /\ wfj (snd m)) ms -> ms <> [] ->
  forall fuel rest,
    (2 * List.length (commaSep (map (printMember print) ms) ++ Ch "}" :: rest) + 1
     < fuel)%nat ->
    parseMembers fuel (commaSep (map (printMember print) ms) ++ Ch "}" :: rest)
    = Ok (ms, rest).
Proof.
  induction 1 as [| [k x] ms Hx Hl IH]; intros W NE fuel rest Fuel; [congruence |].
  inversion W as [| ? ? (Wk & Wx) Wl]; subst. cbn [fst snd] in *.
  destruct fuel as [| f]; [lia |].
  assert (Key : forall tail,
             parseMembers (S f) (printMember print (k, x) ++ tail)
             = bind (parseValue f (print x ++ tail)) (fun p =>
                 match snd p with
                 | Ch c :: r =>
                     if Ascii.eqb c "," then
                       bind (parseMembers f r) (fun m =>
                         Ok ((k, fst p) :: fst m, snd m))
                     else if Ascii.eqb c "}" then Ok ([(k, fst p)], r)
                     else Err SyntaxError
                 | _ => Err SyntaxError
                 end)).
  { intro tail. unfold printMember. cbn [fst snd].
    rewrite bytes_quoted. cbn [app]. rewrite <- !app_assoc. cbn [app].
    cbn [parseMembers].
    change (byteval dquote =? 34) with true. cbv iota.
    rewrite scanString_raw by assumption. cbn [bind snd fst].
    change (Ascii.eqb ":" ":") with true. cbv iota. reflexivity. }
  assert (Len : forall tail,
             (List.length (print x ++ tail) + 3
              <= List.length (printMember print (k, x) ++ tail))%nat).
  { intro tail. unfold printMember. cbn [fst snd]. rewrite bytes_quoted.
    rewrite !length_app. cbn [List.length]. rewrite !length_app.
    cbn [List.length]. lia. }
  destruct ms as [| m ms'].
  - cbn [map commaSep] in *. rewrite Key.
    rewrite Hx; [reflexivity | | reflexivity].
    specialize (Len (Ch "}" :: rest)). lia.
  - cbn [map] in *. rewrite commaSep_cons2 in *.
    rewrite <- app_assoc in *. cbn [app] in *. rewrite Key.
    rewrite Hx; [| | reflexivity].
    + cbn [bind snd fst].
      change (Ascii.eqb "," ",") with true. cbv iota.
      rewrite IH; [reflexivity | assumption | discriminate |].
      match type of Fuel with
      | context [printMember print (k, x) ++ ?tl] => specialize (Len tl)
      end.
      rewrite length_app in Len. cbn [List.length] in Len. lia.
    + match type of Fuel with
      | context [printMember print (k, x) ++ ?tl] => specialize (Len tl)
      end. lia.
Qed.

(** A well-formed value is parsed back from its text. *)
Lemma parseValue_print (j : json) : wfj j -> readsBack j.
Proof.
  induction j as [| b | lit | raw | l IH | ms IH] using json_nested_ind;
    intros W fuel rest Fuel Hr;
    (destruct fuel as [| f]; [lia |]).
  - reflexivity.
  - destruct b; reflexivity.
  - now apply parseValue_number.
  - now apply parseValue_string.
  - apply wfj_JArray in W.
    destruct l as [| x l']; [reflexivity |].
    assert (RB : Forall readsBack (x :: l')).
    { rewrite Forall_forall in *. auto. }
    cbn [print] in *. unfold arrayText in *. cbn [app] in *.
    rewrite <- app_assoc in *. cbn [app] in *.
    inversion W as [| ? ? Wx _]; subst.
    destruct (print_head x Wx) as (i & t & Ei & Hi).
    assert (Go : parseValue (S f)
                   (Ch "[" :: commaSep (map print (x :: l')) ++ Ch "]" :: rest)
                 = bind (parseElems f (commaSep (map print (x :: l')) ++ Ch "]" :: rest))
                     (fun p => Ok (JArray (fst p), snd p))).
    { cbn [parseValue].
      change (Ascii.eqb "[" "{") with false.
      change (Ascii.eqb "[" "[") with true. cbv iota.
      assert (Hd : exists t', commaSep (map print (x :: l')) ++ Ch "]" :: rest = i :: t').
      { cbn [map]. destruct (map print l'); cbn [commaSep];
          rewrite Ei; cbn [app]; eauto. }
      destruct Hd as (t' & ->).
      destruct i as [d | bs b]; [| reflexivity].
      unfold isChar in Hi. rewrite Ascii.eqb_sym in Hi. now rewrite Hi. }
    rewrite Go. rewrite parseElems_print; [reflexivity | assumption .. | discriminate |].
    cbn [List.length] in Fuel. lia.
  - apply wfj_JObject in W.
    destruct ms as [| [k x] ms']; [reflexivity |].
    assert (RB : Forall (fun m => readsBack (snd m)) ((k, x) :: ms')).
    { rewrite Forall_forall in *. intros m Hm. apply IH; [assumption |].
      now apply W. }
    cbn [print] in *. cbn [app] in *.
    rewrite <- app_assoc in *. cbn [app] in *.
    assert (Go : parseValue (S f)
                   (Ch "{" :: commaSep (map (printMember print) ((k, x) :: ms'))
                      ++ Ch "}" :: rest)
                 = bind (parseMembers f
                           (commaSep (map (printMember print) ((k, x) :: ms'))
                              ++ Ch "}" :: rest))
                     (fun p => Ok (JObject (fst p), snd p))).
    { cbn [parseValue].
      change (Ascii.eqb "{" "{") with true. cbv iota.
      assert (Hd : exists t', commaSep (map (printMember print) ((k, x) :: ms'))
                                ++ Ch "}" :: rest = Ch dquote :: t').
      { cbn [map]. destruct (map (printMember print) ms'); cbn [commaSep];
          unfold printMember; cbn [fst snd]; rewrite bytes_quoted; cbn [app]; eauto. }
      destruct Hd as (t' & ->).
      change (Ascii.eqb dquote "}") with false. reflexivity. }
    rewrite Go. rewrite parseMembers_print; [reflexivity | assumption .. | discriminate |].
    cbn [List.length] in Fuel. lia.
Qed.

(** [parse] undoes [print] on a well-formed value. *)
Lemma parse_print (j : json) : wfj j -> parse (print j) = Ok j.
Proof.
  intro W. unfold parse. cbv zeta.
  rewrite (tidy_Compact _ (tidy_print j W)).
  pose proof (parseValue_print j W (2 * List.length (print j) + 2)%nat []) as P.
  rewrite app_nil_r in P. rewrite P; [reflexivity | lia | exact I].
Qed.

(* ===================================================================== *)
(** * Values come back from their parsed text                             *)
(* ===================================================================== *)

Lemma canonical_VSlice (e : rtype) (l : list value) :
  canonical (VSlice e l) <-> Forall (fun x => typeOf x = e /\ canonical x) l.
Proof.
  cbn [canonical]. induction l as [| x l IH]; [split; constructor |].
  split.
  - intros (Ht & Hx & Hl). constructor; [now split | now apply IH].
  - intro H. inversion H as [| ? ? (Ht & Hx) Hl]; subst.
    repeat split; try assumption. now apply IH.
Qed.

Lemma canonical_VStruct (fs : list (fieldtag * value)) :
  canonical (VStruct fs)
  <-> NoDup (map (fun f => name (fst f)) fs) /\ Forall fieldOK fs.
Proof.
  cbn [canonical]. apply and_iff_compat_l.
  induction fs as [| [t x] fs IH]; [split; constructor |].
  split.
  - intros (Hn & Hx & Hl). constructor; [now split | now apply IH].
  - intro H. inversion H as [| ? ? (Hn & Hx) Hl]; subst.
    repeat split; try assumption. now apply IH.
Qed.

(** A zero is written as [0] or [-0]; both read back as the float they
    were. *)
Lemma float_zero_bits (bitSize bits : Z) :
  bitSize = 32 \/ bitSize = 64 -> 0 <= bits < 2 ^ bitSize ->
  floatIsZero bitSize bits = true ->
  bits = if signbit bitSize bits then Z.shiftl 1 (bitSize - 1) else 0.
Proof.
  intros Hs Hr Hz. unfold floatIsZero, exponent, mantissa, signbit in *.
  apply andb_prop in Hz. destruct Hz as [He Hm].
  apply Z.eqb_eq in He. apply Z.eqb_eq in Hm.
  assert (Cases : bits = 0 \/ bits = 2 ^ (bitSize - 1)).
  { destruct Hs as [-> | ->]; unfold mantBits, expMask in *; cbn [Z.eqb Pos.eqb] in *.
    - change (Z.shiftl 1 23 - 1) with (Z.ones 23) in Hm.
      change 255 with (Z.ones 8) in He.
      rewrite Z.land_ones in Hm, He by lia.
      rewrite Z.shiftr_div_pow2 in He by lia.
      change (2 ^ 23) with 8388608 in *. change (2 ^ 8) with 256 in *.
      change (2 ^ 32) with 4294967296 in *. change (2 ^ (32 - 1)) with 2147483648.
      pose proof (Z.div_mod bits 8388608).
      pose proof (Z.div_mod (bits / 8388608) 256).
      assert (0 <= bits / 8388608 < 512)
        by (split; [apply Z.div_pos | apply Z.div_lt_upper_bound]; lia).
      assert (0 <= bits / 8388608 / 256 < 2)
        by (split; [apply Z.div_pos | apply Z.div_lt_upper_bound]; lia).
      lia.
    - change (Z.shiftl 1 52 - 1) with (Z.ones 52) in Hm.
      change 2047 with (Z.ones 11) in He.
      rewrite Z.land_ones in Hm, He by lia.
      rewrite Z.shiftr_div_pow2 in He by lia.
      change (2 ^ 52) with 4503599627370496 in *. change (2 ^ 11) with 2048 in *.
      change (2 ^ 64) with 18446744073709551616 in *.
      change (2 ^ (64 - 1)) with 9223372036854775808.
      pose proof (Z.div_mod bits 4503599627370496).
      pose proof (Z.div_mod (bits / 4503599627370496) 2048).
      assert (0 <= bits / 4503599627370496 < 4096)
        by (split; [apply Z.div_pos | apply Z.div_lt_upper_bound]; lia).
      assert (0 <= bits / 4503599627370496 / 2048 < 2)
        by (split; [apply Z.div_pos | apply Z.div_lt_upper_bound]; lia).
      lia. }
  destruct Cases as [-> | ->].
  - rewrite Z.testbit_0_l. reflexivity.
  - rewrite Z.pow2_bits_true by lia. rewrite Z.shiftl_1_l. reflexivity.
Qed.

Lemma decode_float (bitSize bits : Z) (lit : text) :
  canonical (VFloat bitSize bits) ->
  encodeFloat bitSize bits = Ok lit ->
  ParseFloat bitSize lit = Some bits.
Proof.
  intros (Hs & Hr & Hn & Hi). unfold encodeFloat. rewrite Hn, Hi. cbn [orb].
  destruct (floatIsZero bitSize bits) eqn:Z0.
  - pose proof (float_zero_bits bitSize bits Hs Hr Z0) as E.
    destruct (signbit bitSize bits); intros [= <-]; cbn; congruence.
  - intros [= <-]. cbn [ParseFloat]. now rewrite Z.eqb_refl.
Qed.

Lemma findBy_exact (key : string) (pre : list (fieldtag * value))
    (t : fieldtag) (x : value) (rest : list (fieldtag * value)) :
  name t = key -> ~ In key (map (fun f => name (fst f)) pre) ->
  findBy (String.eqb key) (pre ++ (t, x) :: rest) = Some (List.length pre).
Proof.
  intros <- Hn. induction pre as [| [t' x'] pre IH]; cbn [app findBy List.length].
  - now rewrite String.eqb_refl.
  - destruct (String.eqb_spec (name t) (name t')) as [E | _].
    + exfalso. apply Hn. left. cbn. congruence.
    + rewrite IH; [reflexivity |]. intro H. apply Hn. now right.
Qed.

Lemma fieldValue_app (pre : list (fieldtag * value)) (t : fieldtag) (x : value)
    (rest : list (fieldtag * value)) :
  fieldValue (List.length pre) (pre ++ (t, x) :: rest) = x.
Proof.
  unfold fieldValue. rewrite nth_error_app2 by lia.
  now rewrite Nat.sub_diag.
Qed.

Lemma setField_app (pre : list (fieldtag * value)) (t : fieldtag) (x y : value)
    (rest : list (fieldtag * value)) :
  setField (List.length pre) y (pre ++ (t, x) :: rest) = pre ++ (t, y) :: rest.
Proof.
  induction pre as [| [t' x'] pre IH]; cbn [app setField List.length];
    [reflexivity | now rewrite IH].
Qed.

Lemma zeroOf_typeOf_VStruct (fs : list (fieldtag * value)) :
  zeroOf (typeOf (VStruct fs)) = VStruct (map zeroField fs).
Proof.
  cbn [typeOf zeroOf]. f_equal. rewrite map_map. reflexivity.
Qed.

Lemma decodeMembers_fields (suf : list (fieldtag * value)) :
  Forall (fun f => comesBack (snd f)) suf -> Forall fieldOK suf ->
  forall pre ms,
    NoDup (map (fun f => name (fst f)) (pre ++ suf)) ->
    astFields suf = Ok ms ->
    decodeMembers ms (pre ++ map zeroField suf) = Ok (VStruct (pre ++ suf)).
Proof.
  induction 1 as [| [t x] suf Hx _ IH]; intros OK pre ms ND A.
  - injection A as <-. reflexivity.
  - inversion OK as [| ? ? (Hname & Hf) OK']; subst. cbn [fst snd] in *.
    assert (ND' : NoDup (map (fun f => name (fst f)) ((pre ++ [(t, x)]) ++ suf)))
      by (now rewrite <- app_assoc).
    cbn [astFields] in A. cbn [map]. unfold zeroField at 1. cbn [fst snd].
    destruct (omitempty t && isEmptyValue x).
    + rewrite <- Hf.
      change (pre ++ (t, x) :: map zeroField suf)
        with (pre ++ [(t, x)] ++ map zeroField suf).
      rewrite app_assoc. rewrite (IH OK' _ _ ND' A).
      now rewrite <- app_assoc.
    + destruct (ast x) as [jx |] eqn:Ax; [| discriminate]. cbn [bind] in A.
      destruct (astFields suf) as [ms' |] eqn:As; [| discriminate].
      injection A as <-. cbn [decodeMembers].
      rewrite unquote_escape by assumption.
      assert (NI : ~ In (name t) (map (fun f => name (fst f)) pre)).
      { rewrite map_app in ND. apply NoDup_remove_2 in ND.
        intro H. apply ND. apply in_or_app. now left. }
      unfold findField. rewrite findBy_exact by (reflexivity || assumption).
      rewrite fieldValue_app. rewrite (Hx Hf jx Ax). cbn [bind].
      rewrite setField_app.
      change (pre ++ (t, x) :: map zeroField suf)
        with (pre ++ [(t, x)] ++ map zeroField suf).
      rewrite app_assoc. rewrite (IH OK' _ _ ND' eq_refl).
      now rewrite <- app_assoc.
Qed.

(** A canonical value is what the decoder makes of its parsed text, when
    it stores that text into the zero value of the value's type. *)
Lemma decode_ast (v : value) : comesBack v.
Proof.
  induction v as [b | bs n | bs n | bs bits | s | e l IH | fs IH | t | v IH |]
    using value_nested_ind; intros C j A.
  - injection A as <-. reflexivity.
  - injection A as <-. cbn [typeOf zeroOf decode].
    rewrite ParseInt_itoa. cbn [canonical] in C. now rewrite C.
  - injection A as <-. cbn [typeOf zeroOf decode]. cbn [canonical] in C.
    rewrite ParseUint_itoa; [now rewrite C |].
    unfold fitsUint in C. apply andb_prop in C. destruct C as [C _].
    now apply Z.leb_le.
  - cbn [ast] in A. destruct (encodeFloat bs bits) as [lit |] eqn:E; [| discriminate].
    injection A as <-. cbn [typeOf zeroOf decode].
    now rewrite (decode_float _ _ _ C E).
  - injection A as <-. cbn [typeOf zeroOf decode].
    cbn [canonical] in C. now rewrite unquote_escape.
  - rewrite ast_VSlice in A.
    destruct (astElems l) as [js |] eqn:E; [| discriminate].
    injection A as <-. cbn [typeOf zeroOf]. rewrite decode_JArray.
    apply canonical_VSlice in C.
    assert (D : decodeElems e js = Ok l).
    { revert js E. induction IH as [| x l Hx _ IHl]; intros js E.
      - injection E as <-. reflexivity.
      - inversion C as [| ? ? (Ht & Cx) Cl]; subst.
        cbn [astElems] in E.
        destruct (ast x) as [jx |] eqn:Ax; [| discriminate]. cbn [bind] in E.
        destruct (astElems l) as [js' |]; [| discriminate].
        injection E as <-. cbn [decodeElems].
        rewrite (Hx Cx jx Ax). cbn [bind].
        now rewrite (IHl Cl js' eq_refl). }
    now rewrite D.
  - rewrite ast_VStruct in A.
    destruct (astFields fs) as [ms |] eqn:E; [| discriminate].
    injection A as <-. rewrite zeroOf_typeOf_VStruct, decode_JObject.
    apply canonical_VStruct in C. destruct C as (ND & OK).
    apply (decodeMembers_fields fs IH OK [] ms ND E).
  - cbn [ast] in A. cbn [canonical] in C. unfold timeReadsBack, MarshalJSON in C.
    destruct (appendStrictRFC3339 t) as [raw |]; [| contradiction].
    injection A as <-. cbn [typeOf zeroOf decode].
    unfold quoted. now rewrite C.
  - contradiction.
  - injection A as <-. reflexivity.
Qed.

(** A canonical value is encoded without error. *)
Lemma canonical_ast (v : value) : canonical v -> exists j, ast v = Ok j.
Proof.
  induction v as [b | bs n | bs n | bs bits | s | e l IH | fs IH | t | v IH |]
    using value_nested_ind; intro C; try (eexists; reflexivity).
  - destruct C as (_ & _ & Hn & Hi). cbn [ast]. unfold encodeFloat.
    rewrite Hn, Hi. cbn [orb]. destruct (floatIsZero bs bits); eexists; reflexivity.
  - rewrite ast_VSlice. apply canonical_VSlice in C.
    assert (E : exists js, astElems l = Ok js).
    { induction IH as [| x l Hx _ IHl]; [now exists [] |].
      inversion C as [| ? ? (_ & Cx) Cl]; subst.
      destruct (Hx Cx) as (jx & Ex). destruct (IHl Cl) as (js & Es).
      cbn [astElems]. rewrite Ex, Es. eexists; reflexivity. }
    destruct E as (js & ->). eexists; reflexivity.
  - rewrite ast_VStruct. apply canonical_VStruct in C. destruct C as (_ & OK).
    assert (E : exists ms, astFields fs = Ok ms).
    { induction IH as [| [t x] fs Hx _ IHl]; [now exists [] |].
      inversion OK as [| ? ? (_ & Hf) OK']; subst. cbn [fst snd] in *.
      destruct (IHl OK') as (ms & Es). cbn [astFields].
      destruct (omitempty t && isEmptyValue x); [now exists ms |].
      destruct (Hx Hf) as (jx & Ex). rewrite Ex, Es. eexists; reflexivity. }
    destruct E as (ms & ->). eexists; reflexivity.
  - cbn [canonical] in C. unfold timeReadsBack, MarshalJSON in C. cbn [ast].
    destruct (appendStrictRFC3339 t); [eexists; reflexivity | contradiction].
  - contradiction.
Qed.

(** [Unmarshal] after [Marshal]: a canonical value is encoded, and the
    text gives it back when it is stored into the zero value of its
    type. *)
Lemma Unmarshal_Marshal (v : value) :
  canonical v ->
  exists data, Marshal v = Ok data
               /\ Unmarshal data (zeroOf (typeOf v)) = Ok v.
Proof.
  intro C. destruct (canonical_ast v C) as (j & A).
  exists (print j). unfold Marshal, Unmarshal. rewrite encode_print, A.
  split; [reflexivity |].
  rewrite parse_print by (now apply (ast_wfj v)). cbn [bind].
  now apply decode_ast.
Qed.

(* ===================================================================== *)
(** * Records come back from their values                                 *)
(* ===================================================================== *)

Lemma reifyList_map {A : Type} (f : value -> option A) (g : A -> value) (l : list A) :
  (forall x, f (g x) = Some x) -> reifyList f (map g l) = Some l.
Proof.
  intro H. induction l as [| x l IH]; cbn [map reifyList]; [reflexivity |].
  now rewrite H, IH.
Qed.

Lemma reifySlice_map {A : Type} (f : value -> option A) (g : A -> value)
    (e : rtype) (l : list A) :
  (forall x, f (g x) = Some x) -> reifySlice f (VSlice e (map g l)) = Some l.
Proof. intro H. cbn [reifySlice]. now apply reifyList_map. Qed.

Lemma reifyInt_VInt (bitSize : Z) (n : Z) : reifyInt (VInt bitSize n) = Some n.
Proof. reflexivity. Qed.

Lemma Latency_reify (x : Latency.t) : Latency.reify (Latency.reflect x) = Some x.
Proof. now destruct x. Qed.

Lemma Throughput_reify (x : Throughput.t) :
  Throughput.reify (Throughput.reflect x) = Some x.
Proof. now destruct x. Qed.

Lemma DrivePerfInfo_reify (x : DrivePerfInfo.t) :
  DrivePerfInfo.reify (DrivePerfInfo.reflect x) = Some x.
Proof.
  destruct x as [e p l t]. unfold DrivePerfInfo.reflect, DrivePerfInfo.reify.
  cbn [DrivePerfInfo.Error DrivePerfInfo.Path DrivePerfInfo.Latency
       DrivePerfInfo.Throughput].
  now rewrite Latency_reify, Throughput_reify.
Qed.

Lemma SysProcess_reify (x : SysProcess.t) :
  SysProcess.reify (SysProcess.reflect x) = Some x.
Proof.
  destruct x. unfold SysProcess.reflect, SysProcess.reify.
  cbv beta iota delta [SysProcess.Pid SysProcess.Background SysProcess.CPUPercent
    SysProcess.Children SysProcess.CmdLine SysProcess.ConnectionCount
    SysProcess.CreateTime SysProcess.Cwd SysProcess.Exe SysProcess.Gids
    SysProcess.IsRunning SysProcess.MemPercent SysProcess.Name SysProcess.Nice
    SysProcess.NumFds SysProcess.NumThreads SysProcess.Parent SysProcess.Ppid
    SysProcess.Status SysProcess.Tgid SysProcess.Uids SysProcess.Username].
  rewrite !(reifySlice_map reifyInt (VInt 32)) by apply reifyInt_VInt.
  reflexivity.
Qed.

Lemma ServerProcInfo_reify (x : ServerProcInfo.t) :
  ServerProcInfo.reify (ServerProcInfo.reflect x) = Some x.
Proof.
  destruct x. unfold ServerProcInfo.reflect, ServerProcInfo.reify.
  cbn [ServerProcInfo.Addr ServerProcInfo.Processes ServerProcInfo.Error].
  now rewrite (reifySlice_map _ _ _ _ SysProcess_reify).
Qed.

Lemma ServerMemInfo_reify (x : ServerMemInfo.t) :
  ServerMemInfo.reify (ServerMemInfo.reflect x) = Some x.
Proof. now destruct x. Qed.

Lemma ServerOsInfo_reify (x : ServerOsInfo.t) :
  ServerOsInfo.reify (ServerOsInfo.reflect x) = Some x.
Proof. now destruct x. Qed.

Lemma ServerCPUInfo_reify (x : ServerCPUInfo.t) :
  ServerCPUInfo.reify (ServerCPUInfo.reflect x) = Some x.
Proof. now destruct x. Qed.

Lemma ServerDiskHwInfo_reify (x : ServerDiskHwInfo.t) :
  ServerDiskHwInfo.reify (ServerDiskHwInfo.reflect x) = Some x.
Proof. now destruct x. Qed.

Lemma SysHealthInfo_reify (x : SysHealthInfo.t) :
  SysHealthInfo.reify (SysHealthInfo.reflect x) = Some x.
Proof.
  destruct x. unfold SysHealthInfo.reflect, SysHealthInfo.reify.
  cbn [SysHealthInfo.CPUInfo SysHealthInfo.DiskHwInfo SysHealthInfo.OsInfo
       SysHealthInfo.MemInfo SysHealthInfo.ProcInfo SysHealthInfo.Error].
  rewrite (reifySlice_map _ _ _ _ ServerCPUInfo_reify).
  rewrite (reifySlice_map _ _ _ _ ServerDiskHwInfo_reify).
  rewrite (reifySlice_map _ _ _ _ ServerOsInfo_reify).
  rewrite (reifySlice_map _ _ _ _ ServerMemInfo_reify).
  now rewrite (reifySlice_map _ _ _ _ ServerProcInfo_reify).
Qed.

Lemma HealthInfoV0_reify (x : HealthInfoV0.t) :
  HealthInfoV0.reify (HealthInfoV0.reflect x) = Some x.
Proof.
  destruct x. unfold HealthInfoV0.reflect, HealthInfoV0.reify.
  cbn [HealthInfoV0.TimeStamp HealthInfoV0.Error HealthInfoV0.Sys].
  now rewrite SysHealthInfo_reify.
Qed.

(** Every version 0 report has the type of the zero report. *)
Lemma HealthInfoV0_zero (x : HealthInfoV0.t) :
  zeroOf (typeOf (HealthInfoV0.reflect x)) = HealthInfoV0.reflect HealthInfoV0.zero.
Proof. reflexivity. Qed.


Lemma NoDup_names (l : list string) : nodup string_dec l = l -> NoDup l.
Proof. intros <-. apply NoDup_nodup. Qed.

(** Settle [canonical] on a given value by running its tests. *)
Ltac canonical_by_running :=
  repeat match goal with
         | |- canonical _ => cbn [canonical]
         | |- _ /\ _ => split
         | |- NoDup _ => apply NoDup_names; vm_compute; reflexivity
         | |- True => exact I
         | |- timeReadsBack _ => unfold timeReadsBack; vm_compute; reflexivity
         | |- _ \/ _ => first [left; reflexivity | right; reflexivity]
         | |- _ = _ => vm_compute; reflexivity
         | |- _ <= _ => vm_compute; discriminate
         | |- _ < _ => vm_compute; reflexivity
         | |- _ => progress cbn
         end.

(* ===================================================================== *)
(** * String and JSON                                                     *)
(* ===================================================================== *)

Lemma blanks_prefix : allSpace (bytes " ").
Proof. repeat constructor. Qed.

Lemma blanks_indent : allSpace (bytes "    ").
Proof. repeat constructor. Qed.

Lemma MarshalIndent_Marshal (v : value) (prefix indent : string) :
  MarshalIndent v prefix indent
  = bind (Marshal v) (fun b => Ok (Indent b prefix indent)).
Proof. reflexivity. Qed.

(** [parse] and [Unmarshal] read the compact form: they do not tell a text
    from its indented form. *)
Lemma parse_Indent (data : text) :
  parse (Indent data " " "    ") = parse data.
Proof.
  unfold parse. cbv zeta.
  now rewrite (Compact_Indent data " " "    " blanks_prefix blanks_indent).
Qed.

Section StringJSON.
Context {D : Declared}.

(** X1. JSON is String with line feeds and blanks added outside the string
    literals: the two panic together, with the same error, and when they
    return, JSON's text is String's text indented, String's text is
    JSON's text compacted, and String's text is compact already. *)
Theorem JSON_is_String_indented (v0 : HealthInfoV0.t) (v2 : HealthInfoV2.t) :
  match call HealthInfoV0.String v0, call HealthInfoV0.JSON v0 with
  | Returns s, Returns j =>
      j = Indent s " " "    " /\ Compact j = s /\ Compact s = s
  | Panics e, Panics e' => e = e'
  | _, _ => False
  end
  /\
  match call HealthInfoV2.String v2, call HealthInfoV2.JSON v2 with
  | Returns s, Returns j =>
      j = Indent s " " "    " /\ Compact j = s /\ Compact s = s
  | Panics e, Panics e' => e = e'
  | _, _ => False
  end.
Proof.
  assert (G : forall v,
             match Marshal v, MarshalIndent v " " "    " with
             | Ok s, Ok j => j = Indent s " " "    " /\ Compact j = s /\ Compact s = s
             | Err e, Err e' => e = e'
             | _, _ => False
             end).
  { intro v. rewrite MarshalIndent_Marshal.
    destruct (Marshal v) as [s | e] eqn:M; cbn [bind]; [| reflexivity].
    pose proof (Compact_Marshal v s M) as C.
    repeat split; [| exact C].
    now rewrite (Compact_Indent s " " "    " blanks_prefix blanks_indent). }
  split.
  - specialize (G (HealthInfoV0.reflect v0)).
    unfold call, HealthInfoV0.String, HealthInfoV0.JSON, seq, receiver, ret, panic.
    cbv beta iota.
    destruct (Marshal (HealthInfoV0.reflect v0));
      destruct (MarshalIndent (HealthInfoV0.reflect v0) " " "    "); exact G.
  - specialize (G (HealthInfoV2.reflect v2)).
    unfold call, HealthInfoV2.String, HealthInfoV2.JSON, seq, receiver, ret, panic.
    cbv beta iota.
    destruct (Marshal (HealthInfoV2.reflect v2));
      destruct (MarshalIndent (HealthInfoV2.reflect v2) " " "    "); exact G.
Qed.


End StringJSON.

(* ===================================================================== *)
(** * Which fields are written                                            *)
(* ===================================================================== *)

Lemma encodeFields_names (fs : list (fieldtag * value)) :
  forall ms, encodeFields fs = Ok ms ->
             map fst ms = map (fun f => name (fst f)) (filter written fs).
Proof.
  induction fs as [| [t x] fs IH]; intros ms E.
  - injection E as <-. reflexivity.
  - cbn [encodeFields] in E. cbn [filter]. unfold written at 1. cbn [fst snd].
    destruct (omitempty t && isEmptyValue x); cbn [negb]; [now apply IH |].
    destruct (encode x); [| discriminate]. cbn [bind] in E.
    destruct (encodeFields fs) as [ms' |]; [| discriminate].
    injection E as <-. cbn [map fst]. f_equal. now apply IH.
Qed.

Lemma String_eqb_empty (s : string) :
  (String.length s =? 0)%nat = (s =? EmptyString)%string.
Proof. now destruct s. Qed.

Section Written.
Context {D : Declared}.


Lemma HealthInfoV2_Marshal_names (info : HealthInfoV2.t) (s : text) :
  Marshal (HealthInfoV2.reflect info) = Ok s ->
  exists ms,
    s = objectText ms
    /\ map fst ms
       = "version"
         :: (if (HealthInfoV2.Error info =? EmptyString)%string then []
             else ["error"])
         ++ "timestamp"
         :: (if isEmptyValue (reflectSysInfo (HealthInfoV2.Sys info)) then []
             else ["sys"])
         ++ "perf"
         :: (if isEmptyValue (reflectMinioHealthInfo (HealthInfoV2.Minio info))
             then [] else ["minio"]).
Proof.
  unfold Marshal, HealthInfoV2.reflect. rewrite encode_VStruct.
  destruct (encodeFields _) as [ms |] eqn:E; cbn [bind fst]; [| discriminate].
  intros [= <-]. exists ms. split; [reflexivity |].
  rewrite (encodeFields_names _ _ E). cbn [filter].
  unfold written, PerfInfo.reflect.
  cbn [fst snd omitempty isEmptyValue andb negb map name].
  rewrite String_eqb_empty.
  destruct (HealthInfoV2.Error info =? EmptyString)%string;
    destruct (isEmptyValue (reflectSysInfo (HealthInfoV2.Sys info)));
    destruct (isEmptyValue (reflectMinioHealthInfo (HealthInfoV2.Minio info)));
    reflexivity.
Qed.

Lemma HealthInfoV2_String_Marshal (info : HealthInfoV2.t) (s : text) :
  call HealthInfoV2.String info = Returns s ->
  Marshal (HealthInfoV2.reflect info) = Ok s.
Proof.
  unfold call, HealthInfoV2.String, seq, receiver, ret, panic. cbv beta iota.
  destruct (Marshal _); cbn [fst]; congruence.
Qed.



End Written.

(* ===================================================================== *)
(** * The version member                                                  *)
(* ===================================================================== *)

Lemma appendIndent_inside (prefix indent : string) (s : scanner) (d : nat)
    (c : item) (r : text) :
  inString s = true ->
  appendIndent prefix indent s false d (c :: r)
  = c :: appendIndent prefix indent (step s c) false d r.
Proof. intro H. cbn [appendIndent]. rewrite H. reflexivity. Qed.

(** [Indent] copies a string literal. *)
Lemma appendIndent_raw (prefix indent : string) (d : nat) (raw : string) :
  rawOK raw ->
  forall rest,
    appendIndent prefix indent inStr false d (bytes raw ++ Ch dquote :: rest)
    = bytes raw ++ Ch dquote :: appendIndent prefix indent outside false d rest.
Proof.
  induction 1 as [| c r Hc _ IH | c e r Hc He _ IH
                  | c e h1 h2 h3 h4 r Hc He H1 H2 H3 H4 _ IH]; intro rest.
  - cbn [bytes app]. now rewrite appendIndent_inside by reflexivity.
  - cbn [bytes app]. rewrite appendIndent_inside by reflexivity.
    rewrite step_plain by assumption. now rewrite IH.
  - cbn [bytes app]. rewrite appendIndent_inside by reflexivity.
    rewrite step_backslash by assumption.
    rewrite appendIndent_inside by reflexivity. rewrite step_escaped.
    now rewrite IH.
  - cbn [bytes app]. rewrite appendIndent_inside by reflexivity.
    rewrite step_backslash by assumption.
    rewrite appendIndent_inside by reflexivity. rewrite step_escaped.
    repeat (rewrite appendIndent_inside by reflexivity;
            rewrite step_plain by (now apply isHex_plain)).
    now rewrite IH.
Qed.

(** The text of an object whose first member is a string, indented. *)
Lemma Indent_first_member (k v : string) (rest : text) :
  rawOK k -> rawOK v ->
  Indent (Ch "{" :: bytes (quoted k) ++ Ch ":" :: bytes (quoted v) ++ rest)
         " " "    "
  = Ch "{" :: appendNewline " " "    " 1
      ++ bytes (quoted k) ++ Ch ":" :: Ch " " :: bytes (quoted v)
      ++ appendIndent " " "    " outside false 1 rest.
Proof.
  intros Hk Hv. unfold Indent. rewrite !bytes_quoted.
  cbn [app]. rewrite <- !app_assoc. cbn [app].
  cbn [appendIndent inString outside negb andb orb isSpace isChar].
  change (step (scan false false) (Ch "{")) with outside.
  change (step outside (Ch dquote)) with inStr.
  cbn [app]. rewrite (appendIndent_raw " " "    " 1 k Hk).
  cbn [appendIndent inString outside negb andb orb isSpace isChar].
  change (step outside (Ch ":")) with outside.
  change (step outside (Ch dquote)) with inStr.
  cbn [app]. rewrite (appendIndent_raw " " "    " 1 v Hv).
  reflexivity.
Qed.

Lemma encodeFields_first (t : fieldtag) (x : string)
    (r : list (fieldtag * value)) (ms : list (string * text)) :
  encodeFields ((t, VString x) :: r) = Ok ms -> omitempty t = false ->
  exists ms', ms = (name t, bytes (appendString x)) :: ms'.
Proof.
  intros E H. cbn [encodeFields] in E. rewrite H in E. cbn [andb] in E.
  change (encode (VString x)) with (Ok (bytes (appendString x))) in E.
  cbn [bind] in E. destruct (encodeFields r) as [ms' |]; [| discriminate].
  injection E as <-. eauto.
Qed.

Section Version.
Context {D : Declared}.

Lemma HealthInfoV2_Marshal_head (info : HealthInfoV2.t) (s : text) :
  Marshal (HealthInfoV2.reflect info) = Ok s ->
  exists rest,
    s = Ch "{" :: bytes (quoted "version") ++ Ch ":"
          :: bytes (quoted (escape (HealthInfoV2.Version info))) ++ rest.
Proof.
  unfold Marshal, HealthInfoV2.reflect. rewrite encode_VStruct.
  destruct (encodeFields _) as [ms |] eqn:E; [| discriminate].
  cbn [bind]. intros [= <-].
  destruct (encodeFields_first _ _ _ _ E eq_refl) as (ms' & ->).
  unfold objectText. cbn [map]. unfold memberText at 1. cbn [fst snd name].
  change (appendString "version") with (quoted "version").
  change (appendString (HealthInfoV2.Version info))
    with (quoted (escape (HealthInfoV2.Version info))).
  destruct (map memberText ms') as [| m l]; cbn [commaSep];
    rewrite <- ?app_assoc; cbn [app]; rewrite <- ?app_assoc; cbn [app]; eauto.
Qed.

(** X7. The version member is the first thing in String's and in JSON's text
    of a version 2 report, also when Version is empty: it is never left
    out. *)
Theorem version_member_first (info : HealthInfoV2.t) :
  match call HealthInfoV2.String info with
  | Returns s =>
      exists rest,
        s = Ch "{" :: bytes (quoted "version") ++ Ch ":"
              :: bytes (appendString (HealthInfoV2.Version info)) ++ rest
  | Panics e => Marshal (HealthInfoV2.reflect info) = Err e
  end
  /\
  match call HealthInfoV2.JSON info with
  | Returns j =>
      exists rest,
        j = Ch "{" :: appendNewline " " "    " 1
              ++ bytes (quoted "version") ++ Ch ":" :: Ch " "
              :: bytes (appendString (HealthInfoV2.Version info)) ++ rest
  | Panics e => Marshal (HealthInfoV2.reflect info) = Err e
  end.
Proof.
  pose proof (HealthInfoV2_Marshal_head info) as H.
  unfold call, HealthInfoV2.String, HealthInfoV2.JSON, seq, receiver, ret, panic.
  cbv beta iota. rewrite MarshalIndent_Marshal.
  destruct (Marshal (HealthInfoV2.reflect info)) as [s | e]; cbn [bind fst];
    [| split; reflexivity].
  destruct (H s eq_refl) as (rest & ->). split; [now exists rest |].
  eexists. change (appendString (HealthInfoV2.Version info))
    with (quoted (escape (HealthInfoV2.Version info))).
  apply Indent_first_member; [| apply escape_rawOK].
  apply allPlain_rawOK. reflexivity.
Qed.

End Version.

(* ===================================================================== *)
(** * When Marshal fails                                                  *)
(* ===================================================================== *)

Lemma timeWritable_spec (t : Time) :
  if timeWritable t
  then appendStrictRFC3339 t = inl (appendFormatRFC3339 t)
  else exists msg, appendStrictRFC3339 t = inr msg.
Proof.
  unfold timeWritable, appendStrictRFC3339.
  destruct ((0 <=? year t) && (year t <=? 9999)); cbn [negb andb]; [| eauto].
  destruct (zoneOffset t =? 0); cbn [negb andb orb]; [reflexivity |].
  destruct (24 <=? _); cbn [negb]; eauto.
Qed.

Lemma encode_encodes (v : value) :
  if encodes v then exists data, encode v = Ok data
  else exists e, encode v = Err e.
Proof.
  induction v as [b | bs n | bs n | bs bits | s | e l IH | fs IH | t | v IH |]
    using value_nested_ind; try (cbn; eauto; fail).
  - cbn [encodes encode]. unfold finite, encodeFloat.
    destruct (IsInf bs bits || IsNaN bs bits); cbn [negb]; [eauto |].
    destruct (floatIsZero bs bits); eauto.
  - rewrite encode_VSlice. cbn [encodes].
    assert (E : if forallb encodes l then exists es, encodeElems l = Ok es
                else exists e, encodeElems l = Err e).
    { induction IH as [| x l Hx _ IHl]; [cbn; eauto |].
      cbn [forallb encodeElems].
      destruct (encodes x); cbn [andb].
      - destruct Hx as (d & ->). cbn [bind].
        destruct (forallb encodes l).
        + destruct IHl as (es & ->). cbn; eauto.
        + destruct IHl as (e' & ->). cbn; eauto.
      - destruct Hx as (e' & ->). cbn; eauto. }
    destruct (forallb encodes l).
    + destruct E as (es & ->). cbn; eauto.
    + destruct E as (e' & ->). cbn; eauto.
  - rewrite encode_VStruct. cbn [encodes].
    set (ok := fun f : fieldtag * value =>
                 (omitempty (fst f) && isEmptyValue (snd f)) || encodes (snd f)).
    assert (E : if forallb ok fs then exists ms, encodeFields fs = Ok ms
                else exists e, encodeFields fs = Err e).
    { induction IH as [| [t x] fs Hx _ IHl]; [cbn; eauto |].
      cbn [forallb encodeFields]. unfold ok at 1. cbn [fst snd] in *.
      destruct (omitempty t && isEmptyValue x); cbn [orb andb]; [exact IHl |].
      destruct (encodes x); cbn [andb].
      - destruct Hx as (d & ->). cbn [bind].
        destruct (forallb ok fs).
        + destruct IHl as (ms & ->). cbn; eauto.
        + destruct IHl as (e' & ->). cbn; eauto.
      - destruct Hx as (e' & ->). cbn; eauto. }
    destruct (forallb ok fs).
    + destruct E as (ms & ->). cbn; eauto.
    + destruct E as (e' & ->). cbn; eauto.
  - cbn [encodes encode]. unfold encodeTime, MarshalJSON.
    pose proof (timeWritable_spec t) as W.
    destruct (timeWritable t).
    + rewrite W. eauto.
    + destruct W as (msg & ->). eauto.
Qed.

Lemma zero_finite (bitSize bits : Z) :
  floatIsZero bitSize bits = true -> finite bitSize bits = true.
Proof.
  unfold floatIsZero, finite, IsInf, IsNaN. intro H.
  apply andb_prop in H. destruct H as [He _]. apply Z.eqb_eq in He.
  rewrite He.
  assert (E : (0 =? expMask bitSize) = false)
    by (unfold expMask; destruct (bitSize =? 32); reflexivity).
  now rewrite E.
Qed.

Lemma omitted_or_finite (bitSize bits : Z) :
  floatIsZero bitSize bits || finite bitSize bits = finite bitSize bits.
Proof.
  destruct (floatIsZero bitSize bits) eqn:E; [| reflexivity].
  now rewrite zero_finite.
Qed.

Lemma slice_encodes {A : Type} (g : A -> value) (l : list A) :
  (List.length (map g l) =? 0)%nat || forallb encodes (map g l)
  = forallb (fun x => encodes (g x)) l.
Proof.
  assert (E : forallb encodes (map g l) = forallb (fun x => encodes (g x)) l).
  { induction l as [| x l IH]; cbn [map forallb]; [reflexivity | now rewrite IH]. }
  rewrite E. destruct l; reflexivity.
Qed.

Lemma forallb_always {A : Type} (f : A -> bool) (l : list A) :
  (forall x, f x = true) -> forallb f l = true.
Proof.
  intro H. induction l as [| x l IH]; cbn; [reflexivity | now rewrite H, IH].
Qed.

Lemma forallb_same {A : Type} (f g : A -> bool) (l : list A) :
  (forall x, f x = g x) -> forallb f l = forallb g l.
Proof.
  intro H. induction l as [| x l IH]; cbn [forallb]; [reflexivity | now rewrite H, IH].
Qed.

Lemma ServerCPUInfo_encodes (x : ServerCPUInfo.t) :
  encodes (ServerCPUInfo.reflect x) = true.
Proof. cbn. now rewrite orb_true_r. Qed.

Lemma ServerDiskHwInfo_encodes (x : ServerDiskHwInfo.t) :
  encodes (ServerDiskHwInfo.reflect x) = true.
Proof. cbn. now rewrite orb_true_r. Qed.

Lemma ServerOsInfo_encodes (x : ServerOsInfo.t) :
  encodes (ServerOsInfo.reflect x) = true.
Proof. cbn. now rewrite orb_true_r. Qed.

Lemma ServerMemInfo_encodes (x : ServerMemInfo.t) :
  encodes (ServerMemInfo.reflect x) = true.
Proof. cbn. now rewrite orb_true_r. Qed.

Lemma SysProcess_encodes (sp : SysProcess.t) :
  encodes (SysProcess.reflect sp) = processWritable sp.
Proof.
  unfold SysProcess.reflect, processWritable.
  cbn [encodes forallb fst snd omitempty andb isEmptyValue].
  rewrite !slice_encodes, !omitted_or_finite.
  rewrite !(forallb_always (fun x => encodes (VInt 32 x))) by reflexivity.
  rewrite !orb_true_r. cbn [andb]. now rewrite !andb_true_r.
Qed.

Lemma ServerProcInfo_encodes (node : ServerProcInfo.t) :
  encodes (ServerProcInfo.reflect node)
  = forallb processWritable (ServerProcInfo.Processes node).
Proof.
  unfold ServerProcInfo.reflect.
  cbn [encodes forallb fst snd omitempty andb isEmptyValue].
  rewrite slice_encodes, !orb_true_r. cbn [andb]. rewrite andb_true_r.
  apply forallb_same. intros sp. apply SysProcess_encodes.
Qed.

Lemma HealthInfoV0_encodes (info : HealthInfoV0.t) :
  encodes (HealthInfoV0.reflect info) = reportWritable info.
Proof.
  unfold HealthInfoV0.reflect, SysHealthInfo.reflect, reportWritable.
  cbn [encodes forallb fst snd omitempty andb isEmptyValue orb].
  rewrite !slice_encodes.
  rewrite (forallb_always (fun x => encodes (ServerCPUInfo.reflect x))) by apply ServerCPUInfo_encodes.
  rewrite (forallb_always (fun x => encodes (ServerDiskHwInfo.reflect x))) by apply ServerDiskHwInfo_encodes.
  rewrite (forallb_always (fun x => encodes (ServerOsInfo.reflect x))) by apply ServerOsInfo_encodes.
  rewrite (forallb_always (fun x => encodes (ServerMemInfo.reflect x))) by apply ServerMemInfo_encodes.
  rewrite !orb_true_r. cbn [andb]. rewrite !andb_true_r.
  f_equal. apply forallb_same. intros node. apply ServerProcInfo_encodes.
Qed.

(** X8. String and JSON of a version 0 report return exactly when its
    timestamp is writable and the CPU and memory shares of all its
    processes are finite; otherwise both panic. *)
Theorem HealthInfoV0_returns_iff (info : HealthInfoV0.t) :
  if reportWritable info
  then exists s, call HealthInfoV0.String info = Returns s
                 /\ call HealthInfoV0.JSON info = Returns (Indent s " " "    ")
  else exists e, call HealthInfoV0.String info = Panics e
                 /\ call HealthInfoV0.JSON info = Panics e.
Proof.
  pose proof (encode_encodes (HealthInfoV0.reflect info)) as E.
  rewrite HealthInfoV0_encodes in E.
  unfold call, HealthInfoV0.String, HealthInfoV0.JSON, seq, receiver, ret, panic.
  cbv beta iota. rewrite MarshalIndent_Marshal. unfold Marshal.
  destruct (reportWritable info).
  - destruct E as (s & ->). cbn. eauto.
  - destruct E as (e & ->). cbn. eauto.
Qed.

(* ===================================================================== *)
(** * The theorems on given reports                                       *)
(* ===================================================================== *)





(* ===================================================================== *)
(** * The timestamp                                                       *)
(* ===================================================================== *)

Lemma MarshalJSON_sameReading (t u : Time) :
  sameReading t u -> MarshalJSON t = MarshalJSON u.
Proof.
  intros (Y & Mo & Da & H & Mi & S & N & Z).
  unfold MarshalJSON, appendStrictRFC3339, appendFormatRFC3339.
  now rewrite Y, Mo, Da, H, Mi, S, N, Z.
Qed.

Section Timestamp.
Context {D : Declared}.

Lemma Marshal_sameReading (a b : HealthInfoV2.t) :
  sameButTime a b ->
  sameReading (HealthInfoV2.TimeStamp a) (HealthInfoV2.TimeStamp b) ->
  Marshal (HealthInfoV2.reflect a) = Marshal (HealthInfoV2.reflect b).
Proof.
  intros (V & E & S & P & M) T.
  unfold Marshal, HealthInfoV2.reflect. rewrite !encode_VStruct.
  rewrite V, E, S, P, M. f_equal.
  cbn [encodeFields omitempty andb isEmptyValue encode].
  unfold encodeTime. now rewrite (MarshalJSON_sameReading _ _ T).
Qed.

(** X9. String and JSON read of the timestamp its date, its clock and the
    offset of its zone, and nothing else: two version 2 reports that
    agree on these, and on every other field, get the same answer from
    String and from JSON, whatever the monotonic clock readings and the
    zone names of their timestamps. *)
Theorem String_reads_wall_clock (a b : HealthInfoV2.t) :
  sameButTime a b ->
  sameReading (HealthInfoV2.TimeStamp a) (HealthInfoV2.TimeStamp b) ->
  call HealthInfoV2.String a = call HealthInfoV2.String b
  /\ call HealthInfoV2.JSON a = call HealthInfoV2.JSON b.
Proof.
  intros S T. pose proof (Marshal_sameReading a b S T) as M.
  unfold call, HealthInfoV2.String, HealthInfoV2.JSON, seq, receiver, ret, panic.
  cbv beta iota. rewrite !MarshalIndent_Marshal, M.
  destruct (Marshal (HealthInfoV2.reflect b)); cbn [bind fst]; split; reflexivity.
Qed.

Lemma encodeFields_skip (t : fieldtag) (x : value)
    (r : list (fieldtag * value)) :
  omitempty t && isEmptyValue x = true ->
  encodeFields ((t, x) :: r) = encodeFields r.
Proof. intro H. cbn [encodeFields]. now rewrite H. Qed.

Lemma encodeFields_string (t : fieldtag) (x : string)
    (r : list (fieldtag * value)) :
  omitempty t && isEmptyValue (VString x) = false ->
  encodeFields ((t, VString x) :: r)
  = bind (encodeFields r) (fun ms => Ok ((name t, bytes (appendString x)) :: ms)).
Proof. intro H. cbn [encodeFields]. now rewrite H. Qed.

Lemma encodeFields_time (t : fieldtag) (x : Time)
    (r : list (fieldtag * value)) :
  encodeFields ((t, VTime x) :: r)
  = bind (encodeTime x) (fun e =>
    bind (encodeFields r) (fun ms => Ok ((name t, e) :: ms))).
Proof.
  cbn [encodeFields isEmptyValue]. now rewrite andb_false_r.
Qed.

(** What the fields of a version 2 report give up to the timestamp. *)
Lemma HealthInfoV2_fields_time (info : HealthInfoV2.t) :
  encodeFields (match HealthInfoV2.reflect info with
                | VStruct fs => fs
                | _ => []
                end)
  = match encodeTime (HealthInfoV2.TimeStamp info) with
    | Err e => Err e
    | Ok e =>
        bind (encodeFields
                [ (tag "sys" true, reflectSysInfo (HealthInfoV2.Sys info));
                  (tag "perf" true, PerfInfo.reflect (HealthInfoV2.Perf info));
                  (tag "minio" true,
                   reflectMinioHealthInfo (HealthInfoV2.Minio info)) ])
          (fun ms =>
             Ok (("version", bytes (appendString (HealthInfoV2.Version info)))
                 :: (if (HealthInfoV2.Error info =? EmptyString)%string then []
                     else [("error",
                            bytes (appendString (HealthInfoV2.Error info)))])
                 ++ ("timestamp", e) :: ms))
    end.
Proof.
  unfold HealthInfoV2.reflect.
  rewrite encodeFields_string by reflexivity.
  destruct (HealthInfoV2.Error info) as [| c e'] eqn:E.
  - rewrite encodeFields_skip by reflexivity. rewrite encodeFields_time.
    destruct (encodeTime _); cbn [bind]; [| reflexivity].
    destruct (encodeFields _); reflexivity.
  - rewrite encodeFields_string by reflexivity. rewrite encodeFields_time.
    destruct (encodeTime _); cbn [bind]; [| reflexivity].
    destruct (encodeFields _); reflexivity.
Qed.

(** X10. A timestamp whose year does not take four digits makes String and
    JSON of a version 2 report panic, with the error of the timestamp's
    own MarshalJSON, whatever the other fields hold; GetTimestamp returns
    that timestamp all the same. *)
Theorem year_out_of_range_panics (info : HealthInfoV2.t) :
  year (HealthInfoV2.TimeStamp info) < 0
  \/ 9999 < year (HealthInfoV2.TimeStamp info) ->
  let err := MarshalerError "time.Time"
               "Time.MarshalJSON: year outside of range [0,9999]" in
  call HealthInfoV2.String info = Panics err
  /\ call HealthInfoV2.JSON info = Panics err
  /\ call HealthInfoV2.GetTimestamp info = Returns (HealthInfoV2.TimeStamp info).
Proof.
  intros Y err.
  assert (M : Marshal (HealthInfoV2.reflect info) = Err err).
  { unfold Marshal, HealthInfoV2.reflect. rewrite encode_VStruct.
    pose proof (HealthInfoV2_fields_time info) as F.
    unfold HealthInfoV2.reflect in F. cbv beta iota in F. rewrite F.
    unfold encodeTime, MarshalJSON, appendStrictRFC3339.
    assert (R : (0 <=? year (HealthInfoV2.TimeStamp info))
                && (year (HealthInfoV2.TimeStamp info) <=? 9999) = false).
    { apply andb_false_iff. destruct Y; [left | right]; lia. }
    rewrite R. reflexivity. }
  unfold call, HealthInfoV2.String, HealthInfoV2.JSON, HealthInfoV2.GetTimestamp,
    seq, receiver, ret, panic.
  cbv beta iota. rewrite MarshalIndent_Marshal, M. repeat split.
Qed.

(** X11. The timestamp member of String's text of a version 2 report holds,
    between quotes, the RFC 3339 text of what GetTimestamp returns; it is
    there also for the zero time. *)
Theorem timestamp_member (info : HealthInfoV2.t) (s : text) :
  call HealthInfoV2.String info = Returns s ->
  exists ms ts,
    call HealthInfoV2.GetTimestamp info = Returns ts
    /\ s = objectText ms
    /\ In ("timestamp"%string, bytes (quoted (appendFormatRFC3339 ts))) ms.
Proof.
  intro H. apply HealthInfoV2_String_Marshal in H.
  unfold Marshal, HealthInfoV2.reflect in H. rewrite encode_VStruct in H.
  pose proof (HealthInfoV2_fields_time info) as F.
  unfold HealthInfoV2.reflect in F. cbv beta iota in F. rewrite F in H.
  unfold encodeTime, MarshalJSON in H.
  destruct (appendStrictRFC3339 (HealthInfoV2.TimeStamp info)) as [r | msg] eqn:A;
    [| discriminate].
  assert (R : r = appendFormatRFC3339 (HealthInfoV2.TimeStamp info)).
  { unfold appendStrictRFC3339 in A.
    destruct (negb _); [discriminate |].
    destruct (_ && _); [discriminate | congruence]. }
  destruct (encodeFields _) as [ms |]; [| discriminate]. cbn [bind] in H.
  injection H as <-. eexists. exists (HealthInfoV2.TimeStamp info).
  split; [reflexivity |]. split; [reflexivity |].
  right. apply in_or_app. right. left. now rewrite R.
Qed.

End Timestamp.

Lemma String_reads_wall_clock_witness :
  (sameButTime cetReport fixedZoneReport
   /\ sameReading (HealthInfoV2.TimeStamp cetReport)
        (HealthInfoV2.TimeStamp fixedZoneReport))
  /\ call HealthInfoV2.String cetReport = call HealthInfoV2.String fixedZoneReport
  /\ call HealthInfoV2.JSON cetReport = call HealthInfoV2.JSON fixedZoneReport.
Proof.
  assert (S : sameButTime cetReport fixedZoneReport) by (repeat split).
  assert (T : sameReading (HealthInfoV2.TimeStamp cetReport)
                (HealthInfoV2.TimeStamp fixedZoneReport)) by (repeat split).
  split; [split; assumption |].
  exact (String_reads_wall_clock cetReport fixedZoneReport S T).
Defined.

Lemma year_out_of_range_panics_witness :
  (year (HealthInfoV2.TimeStamp farFuture) < 0
   \/ 9999 < year (HealthInfoV2.TimeStamp farFuture))
  /\ call HealthInfoV2.String farFuture
     = Panics (MarshalerError "time.Time"
                 "Time.MarshalJSON: year outside of range [0,9999]").
Proof.
  assert (Y : year (HealthInfoV2.TimeStamp farFuture) < 0
              \/ 9999 < year (HealthInfoV2.TimeStamp farFuture))
    by (right; reflexivity).
  split; [exact Y |].
  exact (proj1 (year_out_of_range_panics farFuture Y)).
Defined.

Lemma timestamp_member_witness :
  exists s, call HealthInfoV2.String Reports.quiet = Returns s
            /\ exists ms ts,
                call HealthInfoV2.GetTimestamp Reports.quiet = Returns ts
                /\ s = objectText ms
                /\ In ("timestamp"%string,
                       bytes (quoted (appendFormatRFC3339 ts))) ms.
Proof.
  eexists. split; [vm_compute; reflexivity |].
  apply (timestamp_member Reports.quiet). vm_compute. reflexivity.
Defined.

(* ===================================================================== *)
(** * Reading the indented text back                                      *)
(* ===================================================================== *)

Lemma Unmarshal_Indent (data : text) (cur : value) :
  Unmarshal (Indent data " " "    ") cur = Unmarshal data cur.
Proof. unfold Unmarshal. now rewrite parse_Indent. Qed.



(* ===================================================================== *)
(** * Members of the nested records                                       *)
(* ===================================================================== *)

Lemma writes_In (n : string) (fs : list (fieldtag * value)) :
  In n (map (fun f => name (fst f)) (filter written fs)) <-> writes n fs = true.
Proof.
  unfold writes. rewrite existsb_exists, in_map_iff. split.
  - intros (f & <- & H). apply filter_In in H. destruct H as [H W].
    exists f. split; [exact H |]. now rewrite String.eqb_refl, W.
  - intros (f & H & W). apply andb_prop in W. destruct W as [N W].
    apply String.eqb_eq in N. exists f. split; [exact N |].
    apply filter_In. now split.
Qed.

Lemma Marshal_struct_names (fs : list (fieldtag * value)) (s : text) :
  Marshal (VStruct fs) = Ok s ->
  exists ms, s = objectText ms
             /\ map fst ms = map (fun f => name (fst f)) (filter written fs).
Proof.
  unfold Marshal. rewrite encode_VStruct.
  destruct (encodeFields fs) as [ms |] eqn:E; [| discriminate].
  cbn [bind]. intros [= <-]. exists ms. split; [reflexivity |].
  now apply encodeFields_names.
Qed.


(** X14. The object the encoder writes for the performance of a drive has the
    members path, latency and throughput whatever they hold, also when
    latency and throughput are all zeros, and before them the member
    error exactly when Error is not empty. *)
Theorem DrivePerfInfo_members (d : DrivePerfInfo.t) (s : text) :
  Marshal (DrivePerfInfo.reflect d) = Ok s ->
  exists ms,
    s = objectText ms
    /\ map fst ms
       = (if (DrivePerfInfo.Error d =? EmptyString)%string then []
          else ["error"%string])
         ++ ["path"; "latency"; "throughput"]%string.
Proof.
  intro H. destruct (Marshal_struct_names _ _ H) as (ms & -> & N).
  exists ms. split; [reflexivity |]. rewrite N. cbn [filter].
  unfold written, Latency.reflect, Throughput.reflect.
  cbn [fst snd omitempty isEmptyValue andb negb map name].
  rewrite String_eqb_empty.
  now destruct (DrivePerfInfo.Error d =? EmptyString)%string.
Qed.


Lemma DrivePerfInfo_members_witness :
  exists s, Marshal (DrivePerfInfo.reflect DrivePerfInfo.zero) = Ok s
            /\ exists ms,
                s = objectText ms
                /\ map fst ms = ["path"; "latency"; "throughput"]%string.
Proof.
  eexists. split; [vm_compute; reflexivity |].
  apply (DrivePerfInfo_members DrivePerfInfo.zero). vm_compute. reflexivity.
Defined.

(* ===================================================================== *)
(** * Version 2 reports come back                                         *)
(* ===================================================================== *)

Section Version2.
Context {D : Declared} {L : DeclaredLaws D}.

Lemma NodeCommon_zeroFields (c : NodeCommon) :
  map zeroField (fieldsNodeCommon c) = fieldsNodeCommon zeroNodeCommon.
Proof.
  pose proof (zeroOf_typeOf_VStruct (fieldsNodeCommon c)) as H.
  rewrite type_NodeCommon, zero_NodeCommon in H. now injection H.
Qed.

Lemma SysInfo_zero (s : SysInfo) :
  zeroOf (typeOf (reflectSysInfo s)) = reflectSysInfo zeroSysInfo.
Proof. now rewrite type_SysInfo, zero_SysInfo. Qed.

Lemma MinioHealthInfo_zero (m : MinioHealthInfo) :
  zeroOf (typeOf (reflectMinioHealthInfo m))
  = reflectMinioHealthInfo zeroMinioHealthInfo.
Proof. now rewrite type_MinioHealthInfo, zero_MinioHealthInfo. Qed.

Lemma NetPerfInfo_zero (n : NetPerfInfo.t) :
  zeroOf (typeOf (NetPerfInfo.reflect n)) = NetPerfInfo.reflect NetPerfInfo.zero.
Proof.
  unfold NetPerfInfo.reflect. rewrite zeroOf_typeOf_VStruct, map_app.
  now rewrite NodeCommon_zeroFields.
Qed.

Lemma PerfInfo_zero (p : PerfInfo.t) :
  zeroOf (typeOf (PerfInfo.reflect p)) = PerfInfo.reflect PerfInfo.zero.
Proof.
  unfold PerfInfo.reflect. rewrite zeroOf_typeOf_VStruct.
  cbn [map]. unfold zeroField. cbn [fst snd].
  now rewrite NetPerfInfo_zero.
Qed.

Lemma HealthInfoV2_zero (info : HealthInfoV2.t) :
  zeroOf (typeOf (HealthInfoV2.reflect info))
  = HealthInfoV2.reflect HealthInfoV2.zero.
Proof.
  unfold HealthInfoV2.reflect. rewrite zeroOf_typeOf_VStruct.
  cbn [map]. unfold zeroField. cbn [fst snd].
  now rewrite SysInfo_zero, PerfInfo_zero, MinioHealthInfo_zero.
Qed.

(** The fields a record declares after an embedded one are found behind
    the embedded one's. *)
Lemma embedded_split (pre post : list (fieldtag * value)) :
  firstn (List.length (pre ++ post) - List.length post) (pre ++ post) = pre
  /\ skipn (List.length (pre ++ post) - List.length post) (pre ++ post) = post.
Proof.
  rewrite length_app.
  replace (List.length pre + List.length post - List.length post)%nat
    with (List.length pre + 0)%nat by lia.
  split.
  - rewrite firstn_app_2. cbn [firstn]. apply app_nil_r.
  - rewrite Nat.add_0_r. rewrite skipn_app, skipn_all, Nat.sub_diag. reflexivity.
Qed.

Lemma DrivePerfInfos_reify (x : DrivePerfInfos.t) :
  DrivePerfInfos.reify (DrivePerfInfos.reflect x) = Some x.
Proof.
  destruct x as [c sp pp]. unfold DrivePerfInfos.reflect, DrivePerfInfos.reify.
  cbn [DrivePerfInfos.Common DrivePerfInfos.SerialPerf DrivePerfInfos.ParallelPerf].
  cbv zeta.
  match goal with
  | |- context [firstn _ (?pre ++ ?post)] =>
      destruct (embedded_split pre post) as [F S]
  end.
  cbn [List.length] in F, S. rewrite F, S, reify_NodeCommon.
  now rewrite !(reifySlice_map _ _ _ _ DrivePerfInfo_reify).
Qed.

Lemma PeerNetPerfInfo_reify (x : PeerNetPerfInfo.t) :
  PeerNetPerfInfo.reify (PeerNetPerfInfo.reflect x) = Some x.
Proof.
  destruct x as [c l t]. unfold PeerNetPerfInfo.reflect, PeerNetPerfInfo.reify.
  cbn [PeerNetPerfInfo.Common PeerNetPerfInfo.Latency PeerNetPerfInfo.Throughput].
  cbv zeta.
  match goal with
  | |- context [firstn _ (?pre ++ ?post)] =>
      destruct (embedded_split pre post) as [F S]
  end.
  cbn [List.length] in F, S. rewrite F, S, reify_NodeCommon.
  now rewrite Latency_reify, Throughput_reify.
Qed.

Lemma NetPerfInfo_reify (x : NetPerfInfo.t) :
  NetPerfInfo.reify (NetPerfInfo.reflect x) = Some x.
Proof.
  destruct x as [c rp]. unfold NetPerfInfo.reflect, NetPerfInfo.reify.
  cbn [NetPerfInfo.Common NetPerfInfo.RemotePeers]. cbv zeta.
  match goal with
  | |- context [firstn _ (?pre ++ ?post)] =>
      destruct (embedded_split pre post) as [F S]
  end.
  cbn [List.length] in F, S. rewrite F, S, reify_NodeCommon.
  now rewrite (reifySlice_map _ _ _ _ PeerNetPerfInfo_reify).
Qed.

Lemma PerfInfo_reify (x : PerfInfo.t) :
  PerfInfo.reify (PerfInfo.reflect x) = Some x.
Proof.
  destruct x as [d n np]. unfold PerfInfo.reflect, PerfInfo.reify.
  cbn [PerfInfo.Drives PerfInfo.Net PerfInfo.NetParallel].
  rewrite (reifySlice_map _ _ _ _ DrivePerfInfos_reify).
  rewrite (reifySlice_map _ _ _ _ NetPerfInfo_reify).
  now rewrite NetPerfInfo_reify.
Qed.

Lemma HealthInfoV2_reify (x : HealthInfoV2.t) :
  HealthInfoV2.reify (HealthInfoV2.reflect x) = Some x.
Proof.
  destruct x. unfold HealthInfoV2.reflect, HealthInfoV2.reify.
  cbn [HealthInfoV2.Version HealthInfoV2.Error HealthInfoV2.TimeStamp
       HealthInfoV2.Sys HealthInfoV2.Perf HealthInfoV2.Minio].
  now rewrite reify_SysInfo, PerfInfo_reify, reify_MinioHealthInfo.
Qed.


End Version2.

(** The sample obeys the laws. *)
Lemma Sample_laws : DeclaredLaws Sample.declared.
Proof.
  constructor.
  - exact SysHealthInfo_reify.
  - reflexivity.
  - reflexivity.
  - now intros [e].
  - reflexivity.
  - reflexivity.
  - now intros [a e].
  - reflexivity.
  - reflexivity.
Qed.


(* ===================================================================== *)
(** * A time reads back                                                   *)
(* ===================================================================== *)

Lemma digitVal_digit (d : Z) : 0 <= d <= 9 -> digitVal (digit d) = Some d.
Proof.
  intro H.
  assert (C : d = 0 \/ d = 1 \/ d = 2 \/ d = 3 \/ d = 4 \/ d = 5 \/ d = 6
              \/ d = 7 \/ d = 8 \/ d = 9) by lia.
  repeat (destruct C as [-> | C]; [reflexivity |]). now subst.
Qed.

Lemma digitsValue_app (a b : string) :
  forall acc,
    digitsValue (a ++ b)%string acc
    = match digitsValue a acc with
      | Some v => digitsValue b v
      | None => None
      end.
Proof.
  induction a as [| c a IH]; intro acc; [reflexivity |].
  cbn [append digitsValue]. destruct (digitVal c); [apply IH | reflexivity].
Qed.

Lemma digits_S (w : nat) (x : Z) :
  digits (S w) x
  = (digits w (x / 10) ++ String (digit (x mod 10)) EmptyString)%string.
Proof. reflexivity. Qed.

Lemma digitsValue_digits (w : nat) :
  forall x acc,
    digitsValue (digits w x) acc = Some (acc * 10 ^ Z.of_nat w + x mod 10 ^ Z.of_nat w).
Proof.
  induction w as [| w IH]; intros x acc.
  - cbn [digits digitsValue]. f_equal. change (10 ^ Z.of_nat 0) with 1.
    rewrite Z.mod_1_r. lia.
  - rewrite digits_S, digitsValue_app, IH. cbn [digitsValue].
    rewrite digitVal_digit by (pose proof (Z.mod_pos_bound x 10); lia). f_equal.
    rewrite Nat2Z.inj_succ, Z.pow_succ_r by lia.
    rewrite (Z.rem_mul_r x 10 (10 ^ Z.of_nat w)) by lia. lia.
Qed.

Lemma length_digits (w : nat) : forall x, String.length (digits w x) = w.
Proof.
  induction w as [| w IH]; intro x; [reflexivity |].
  rewrite digits_S.
  assert (A : forall a b, String.length (a ++ b)%string
                          = (String.length a + String.length b)%nat).
  { induction a as [| c a IHa]; intro b; [reflexivity |].
    cbn [append String.length]. now rewrite IHa. }
  rewrite A, IH. cbn [String.length]. lia.
Qed.

Lemma parseUint_digits (w : nat) (x lo hi : Z) :
  0 <= x < 10 ^ Z.of_nat w -> lo <= x <= hi ->
  parseUint (digits w x) lo hi = Some x.
Proof.
  intros B R. unfold parseUint. rewrite digitsValue_digits.
  rewrite Z.mod_small by exact B. cbn [Z.mul Z.add].
  replace ((lo <=? x) && (x <=? hi)) with true; [reflexivity |].
  symmetry. apply andb_true_iff. split; apply Z.leb_le; lia.
Qed.

Lemma appendInt_digits (w : nat) (x : Z) :
  0 <= x < 10 ^ Z.of_nat w -> appendInt x w = digits w x.
Proof.
  intro B. unfold appendInt.
  replace (x <? 0) with false by (symmetry; apply Z.ltb_ge; lia).
  rewrite Z.abs_eq by lia.
  replace (x <? 10 ^ Z.of_nat w) with true by (symmetry; apply Z.ltb_lt; lia).
  reflexivity.
Qed.

(** The layout of an RFC 3339 text, as [parseRFC3339] takes it apart. *)
Lemma parseRFC3339_layout (y m d h mi s rest : string) :
  String.length y = 4%nat -> String.length m = 2%nat ->
  String.length d = 2%nat -> String.length h = 2%nat ->
  String.length mi = 2%nat -> String.length s = 2%nat ->
  parseRFC3339
    (y ++ "-" ++ m ++ "-" ++ d ++ "T" ++ h ++ ":" ++ mi ++ ":" ++ s ++ rest)%string
  = match parseUint y 0 9999, parseUint m 1 12 with
    | Some y', Some m' =>
        match parseUint d 1 (daysIn m' y'), parseUint h 0 23,
              parseUint mi 0 59, parseUint s 0 59 with
        | Some d', Some h', Some mi', Some s' =>
            match parseFraction rest with
            | Some (ns, rest') =>
                match parseZone rest' with
                | Some l => Some (mkTime y' m' d' h' mi' s' ns None l)
                | None => None
                end
            | None => None
            end
        | _, _, _, _ => None
        end
    | _, _ => None
    end.
Proof.
  intros Ly Lm Ld Lh Lmi Ls.
  destruct y as [| y1 [| y2 [| y3 [| y4 [| ? ?]]]]]; try discriminate.
  destruct m as [| m1 [| m2 [| ? ?]]]; try discriminate.
  destruct d as [| d1 [| d2 [| ? ?]]]; try discriminate.
  destruct h as [| h1 [| h2 [| ? ?]]]; try discriminate.
  destruct mi as [| i1 [| i2 [| ? ?]]]; try discriminate.
  destruct s as [| s1 [| s2 [| ? ?]]]; try discriminate.
  clear. unfold parseRFC3339.
  cbn [append String.length Nat.ltb Nat.leb substring charAt String.get
       Ascii.eqb Bool.eqb andb Nat.sub].
  rewrite Nat.sub_0_r.
  replace (substring 0 0 rest) with EmptyString by (now destruct rest).
  replace (substring 0 (String.length rest) rest) with rest; [reflexivity |].
  clear. induction rest as [| c r IH]; [reflexivity |].
  cbn [String.length substring]. now rewrite <- IH.
Qed.

(** Trailing zeros of a fraction scale its value. *)
Lemma trimZeros_value (ds : string) :
  forall acc v,
    digitsValue ds acc = Some v ->
    exists v',
      digitsValue (trimZeros ds) acc = Some v'
      /\ v = v' * 10 ^ Z.of_nat (String.length ds - String.length (trimZeros ds))
      /\ (String.length (trimZeros ds) <= String.length ds)%nat
      /\ (trimZeros ds = EmptyString -> v' = acc).
Proof.
  induction ds as [| c r IH]; intros acc v H.
  - exists acc. cbn in *. injection H as <-. repeat split; lia.
  - cbn [digitsValue] in H. destruct (digitVal c) as [d |] eqn:Dc; [| discriminate].
    destruct (IH _ _ H) as (v' & T & E & Len & Emp).
    cbn [trimZeros]. destruct (trimZeros r) as [| c' r'] eqn:TR.
    + cbn [digitsValue] in T. injection T as <-.
      cbn [String.length] in E. rewrite Nat.sub_0_r in E.
      destruct (Ascii.eqb c "0") eqn:C0.
      * apply Ascii.eqb_eq in C0. subst c. vm_compute in Dc. injection Dc as <-.
        exists acc. cbn [digitsValue String.length].
        rewrite Nat.sub_0_r, Nat2Z.inj_succ, Z.pow_succ_r by lia.
        repeat split; [lia | lia].
      * exists (acc * 10 + d). cbn [digitsValue String.length]. rewrite Dc.
        replace (S (String.length r) - 1)%nat with (String.length r) by lia.
        repeat split; [exact E | lia | discriminate].
    + exists v'. cbn [digitsValue]. rewrite Dc.
      cbn [String.length] in *.
      replace (S (String.length r) - S (S (String.length r')))%nat
        with (String.length r - S (String.length r'))%nat by lia.
      repeat split; [exact T | exact E | lia | discriminate].
Qed.

Lemma spanDigits_app (ds : string) :
  forall acc v rest,
    digitsValue ds acc = Some v ->
    match rest with
    | String c _ => digitVal c = None
    | EmptyString => True
    end ->
    spanDigits (ds ++ rest)%string = (ds, rest).
Proof.
  induction ds as [| c r IH]; intros acc v rest H R.
  - cbn [append]. destruct rest as [| c r]; [reflexivity |].
    cbn [spanDigits]. now rewrite R.
  - cbn [digitsValue] in H. cbn [append spanDigits].
    destruct (digitVal c); [| discriminate].
    now rewrite (IH _ _ _ H R).
Qed.

Lemma substring_whole (s : string) (n : nat) :
  (String.length s <= n)%nat -> substring 0 n s = s.
Proof.
  revert n. induction s as [| c r IH]; intros n H.
  - now destruct n.
  - destruct n as [| n]; [cbn in H; lia |].
    cbn [substring]. rewrite IH; [reflexivity | cbn in H; lia].
Qed.

Lemma parseFraction_appendNano (ns : Z) :
  0 <= ns <= 999999999 ->
  parseFraction (appendNano ns ++ "Z")%string = Some (ns, "Z"%string).
Proof.
  intro B. unfold appendNano. destruct (Z.eqb_spec ns 0) as [-> | NZ]; [reflexivity |].
  cbn [append parseFraction]. change (Ascii.eqb "." ".") with true. cbv iota.
  rewrite appendInt_digits by (cbn; lia).
  pose proof (digitsValue_digits 9 ns 0) as V.
  rewrite Z.mod_small in V by (cbn; lia). cbn [Z.mul Z.add] in V.
  destruct (trimZeros_value _ _ _ V) as (v' & T & E & Len & Emp).
  rewrite length_digits in E, Len.
  rewrite (spanDigits_app _ _ _ "Z" T) by reflexivity.
  destruct (trimZeros (digits 9 ns)) as [| c r] eqn:TR.
  - rewrite (Emp eq_refl) in E. lia.
  - rewrite substring_whole by exact Len. rewrite T.
    replace (9 - Z.of_nat (String.length (String c r)))
      with (Z.of_nat (9 - String.length (String c r))) by lia.
    now rewrite <- E.
Qed.

Lemma length_quoted (s : string) :
  String.length (quoted s) = S (S (String.length s)).
Proof.
  unfold quoted. cbn [String.length]. f_equal.
  induction s as [| c r IH]; [reflexivity |].
  cbn [append String.length]. now rewrite IH.
Qed.

Lemma get_closing_quote (s : string) (c : ascii) :
  String.get (String.length s) (s ++ String c EmptyString)%string = Some c.
Proof. induction s as [| d r IH]; [reflexivity | exact IH]. Qed.

Lemma substring_before_quote (s : string) (c : ascii) :
  substring 0 (String.length s) (s ++ String c EmptyString)%string = s.
Proof.
  induction s as [| d r IH]; [reflexivity |].
  cbn [append String.length substring]. now rewrite IH.
Qed.

(** [Time.UnmarshalJSON] on a quoted text reads what is between the
    quotes. *)
Lemma UnmarshalJSON_quoted (s : string) (t0 : Time) :
  UnmarshalJSON (quoted s) t0
  = match parseRFC3339 s with
    | Some t' => Ok t'
    | None => Err OutsideModel
    end.
Proof.
  unfold UnmarshalJSON. rewrite length_quoted.
  assert (N : (quoted s =? "null")%string = false) by reflexivity.
  rewrite N. cbn [Nat.ltb Nat.leb orb Nat.sub].
  unfold quoted, charAt. cbn [String.get substring].
  rewrite Nat.sub_0_r, get_closing_quote, substring_before_quote.
  now rewrite Ascii.eqb_refl.
Qed.

(** A time of a date and clock that exist, in UTC and without a monotonic
    reading, is written by [MarshalJSON] and read back by
    [UnmarshalJSON] from what was written. *)
Lemma validClock_readsBack (t : Time) : validClock t -> timeReadsBack t.
Proof.
  intros (Y & Mo & Da & H & Mi & S & N & Mn & Lo).
  assert (Dm : daysIn (month t) (year t) <= 31).
  { unfold daysIn. repeat match goal with
                          | |- context [if ?b then _ else _] => destruct b
                          end; lia. }
  unfold timeReadsBack, MarshalJSON, appendStrictRFC3339, zoneOffset.
  rewrite Lo.
  replace ((0 <=? year t) && (year t <=? 9999)) with true
    by (symmetry; apply andb_true_iff; split; apply Z.leb_le; lia).
  cbn [negb Z.eqb andb].
  change (String dquote (appendFormatRFC3339 t ++ String dquote EmptyString)%string)
    with (quoted (appendFormatRFC3339 t)).
  rewrite UnmarshalJSON_quoted.
  unfold appendFormatRFC3339, zoneOffset. rewrite Lo. cbv zeta. cbn [Z.eqb].
  rewrite (appendInt_digits 4), !(appendInt_digits 2) by (cbn; lia).
  rewrite parseRFC3339_layout by apply length_digits.
  rewrite !parseUint_digits by (cbn; lia).
  rewrite parseFraction_appendNano by exact N.
  change (parseZone "Z") with (Some UTC).
  destruct t; cbn in *. now subst.
Qed.

(** X16. The timestamp member of String's text of a version 2 report, handed
    to the timestamp's own UnmarshalJSON, gives the time GetTimestamp
    returns, when that time is a date and clock that exist, in UTC and
    without a monotonic reading. *)
Theorem timestamp_reads_back {D : Declared} (info : HealthInfoV2.t) (s : text) :
  validClock (HealthInfoV2.TimeStamp info) ->
  call HealthInfoV2.String info = Returns s ->
  exists ms raw,
    s = objectText ms
    /\ In ("timestamp"%string, bytes raw) ms
    /\ UnmarshalJSON raw zeroTime = Ok (HealthInfoV2.TimeStamp info)
    /\ call HealthInfoV2.GetTimestamp info = Returns (HealthInfoV2.TimeStamp info).
Proof.
  intros V H. apply HealthInfoV2_String_Marshal in H.
  unfold Marshal, HealthInfoV2.reflect in H. rewrite encode_VStruct in H.
  pose proof (HealthInfoV2_fields_time info) as F.
  unfold HealthInfoV2.reflect in F. cbv beta iota in F. rewrite F in H.
  pose proof (validClock_readsBack _ V) as R. unfold timeReadsBack in R.
  unfold encodeTime in H.
  destruct (MarshalJSON (HealthInfoV2.TimeStamp info)) as [raw | msg];
    [| contradiction].
  destruct (encodeFields _) as [ms |]; [| discriminate]. cbn [bind] in H.
  injection H as <-. eexists. exists raw.
  split; [reflexivity |]. split; [| split; [exact R | reflexivity]].
  right. apply in_or_app. right. now left.
Qed.

Lemma timestamp_reads_back_witness :
  validClock (HealthInfoV2.TimeStamp Reports.noisy)
  /\ exists s, call HealthInfoV2.String Reports.noisy = Returns s
    /\ exists ms raw,
        s = objectText ms
        /\ In ("timestamp"%string, bytes raw) ms
        /\ UnmarshalJSON raw zeroTime = Ok (HealthInfoV2.TimeStamp Reports.noisy)
        /\ call HealthInfoV2.GetTimestamp Reports.noisy
           = Returns (HealthInfoV2.TimeStamp Reports.noisy).
Proof.
  assert (V : validClock (HealthInfoV2.TimeStamp Reports.noisy))
    by (unfold validClock; cbn; repeat split; lia).
  split; [exact V |].
  eexists. split; [vm_compute; reflexivity |].
  apply (timestamp_reads_back Reports.noisy); [exact V |].
  vm_compute. reflexivity.
Defined.

(* ===================================================================== *)
(** * Bytes that are not UTF-8                                            *)
(* ===================================================================== *)

Lemma runeSize_startsNoRune (b : ascii) (r : string) :
  startsNoRune b = true -> runeSize (String b r) = 0%nat.
Proof.
  unfold startsNoRune, runeSize, between, isCont. intro H.
  apply orb_prop in H.
  destruct r as [| b1 [| b2 [| b3 r]]]; cbv zeta;
    repeat match goal with
           | |- context [if ?c then _ else _] => destruct c eqn:?
           end;
    try reflexivity; exfalso; destruct H; bools; lia.
Qed.

Lemma escape_startsNoRune (b : ascii) (r : string) :
  startsNoRune b = true ->
  escape (String b r) = (replacement ++ escape r)%string.
Proof.
  intro H. cbn [escape]. rewrite (runeSize_startsNoRune b r H).
  replace (byteval b <? 0x80) with false; [reflexivity |].
  symmetry. apply Z.ltb_ge. unfold startsNoRune, between in H.
  apply orb_prop in H. destruct H; bools; lia.
Qed.

Lemma append_assoc (a b c : string) :
  ((a ++ b) ++ c = a ++ b ++ c)%string.
Proof. induction a as [| x a IH]; [reflexivity | cbn [append]; now rewrite IH]. Qed.

(** Escaping goes through a text of valid UTF-8 without looking past
    it. *)
Lemma escape_app_upto (n : nat) :
  forall p q, (String.length p <= n)%nat -> validUTF8 p = true ->
              escape (p ++ q) = (escape p ++ escape q)%string.
Proof.
  induction n as [| n IH]; intros p q Len Valid.
  - destruct p; [reflexivity | simpl in Len; lia].
  - destruct p as [| b r]; [reflexivity |].
    simpl in Len. cbn [append]. cbn [escape validUTF8] in *.
    destruct (byteval b <? 0x80) eqn:A.
    + rewrite IH by (assumption || lia). now rewrite append_assoc.
    + destruct (runeSize (String b r)) as [| [| [| [| [| k]]]]] eqn:Size;
        try discriminate.
      * destruct r as [| b1 r']; [discriminate |]. simpl in Len.
        pose proof (runeSize_ext b _ (r' ++ q)%string _ Size) as Ext.
        cbv iota in Ext. cbn [append]. rewrite Ext.
        rewrite IH by (assumption || lia). reflexivity.
      * destruct r as [| b1 [| b2 r']]; try discriminate. simpl in Len.
        pose proof (runeSize_ext b _ (r' ++ q)%string _ Size) as Ext.
        cbv iota in Ext. cbn [append]. rewrite Ext.
        rewrite IH by (assumption || lia).
        destruct (isLineSep b b1 b2); reflexivity.
      * destruct r as [| b1 [| b2 [| b3 r']]]; try discriminate. simpl in Len.
        pose proof (runeSize_ext b _ (r' ++ q)%string _ Size) as Ext.
        cbv iota in Ext. cbn [append]. rewrite Ext.
        rewrite IH by (assumption || lia). reflexivity.
Qed.

Lemma escape_invalid_byte (p r : string) (b : ascii) :
  validUTF8 p = true -> startsNoRune b = true ->
  escape (p ++ String b r) = (escape p ++ replacement ++ escape r)%string.
Proof.
  intros V N. rewrite (escape_app_upto (String.length p)) by (lia || assumption).
  now rewrite escape_startsNoRune.
Qed.

Lemma append_nonempty (p r : string) (b : ascii) :
  (String.length (p ++ String b r) =? 0)%nat = false.
Proof. now destruct p. Qed.

Lemma append_inj_byte (p r : string) (b1 b2 : ascii) :
  (p ++ String b1 r = p ++ String b2 r)%string -> b1 = b2.
Proof.
  induction p as [| c p IH]; cbn [append]; intro H; injection H; auto.
Qed.

(** X17. A byte that is not UTF-8 leaves no trace of itself in the text: two
    version 2 reports whose Error differ in one such byte only, which
    GetError tells apart, get the same answer from String and from
    JSON. *)
Theorem String_loses_invalid_bytes {D : Declared} (info : HealthInfoV2.t)
    (p r : string) (b1 b2 : ascii) :
  validUTF8 p = true -> startsNoRune b1 = true -> startsNoRune b2 = true ->
  call HealthInfoV2.String (withError info (p ++ String b1 r))
  = call HealthInfoV2.String (withError info (p ++ String b2 r))
  /\ call HealthInfoV2.JSON (withError info (p ++ String b1 r))
     = call HealthInfoV2.JSON (withError info (p ++ String b2 r))
  /\ (b1 <> b2 ->
      call HealthInfoV2.GetError (withError info (p ++ String b1 r))
      <> call HealthInfoV2.GetError (withError info (p ++ String b2 r))).
Proof.
  intros V N1 N2.
  assert (M : Marshal (HealthInfoV2.reflect (withError info (p ++ String b1 r)))
              = Marshal (HealthInfoV2.reflect (withError info (p ++ String b2 r)))).
  { unfold Marshal, HealthInfoV2.reflect, withError.
    cbn [HealthInfoV2.Version HealthInfoV2.Error HealthInfoV2.TimeStamp
         HealthInfoV2.Sys HealthInfoV2.Perf HealthInfoV2.Minio].
    rewrite !encode_VStruct. f_equal.
    rewrite !(encodeFields_string (tag "version" false)) by reflexivity. f_equal.
    rewrite !(encodeFields_string (tag "error" true))
      by (cbn [omitempty isEmptyValue andb]; apply append_nonempty).
    unfold appendString.
    now rewrite !escape_invalid_byte by assumption. }
  unfold call, HealthInfoV2.String, HealthInfoV2.JSON, HealthInfoV2.GetError,
    seq, receiver, ret, panic.
  cbv beta iota. rewrite !MarshalIndent_Marshal.
  set (m1 := Marshal (HealthInfoV2.reflect (withError info (p ++ String b1 r)))) in *.
  set (m2 := Marshal (HealthInfoV2.reflect (withError info (p ++ String b2 r)))) in *.
  clearbody m1 m2. subst m1.
  assert (G : b1 <> b2 ->
              Returns (HealthInfoV2.Error (withError info (p ++ String b1 r)))
              <> Returns (HealthInfoV2.Error (withError info (p ++ String b2 r)))).
  { intros Ne E. apply Ne. injection E. apply append_inj_byte. }
  destruct m2; cbn [bind fst]; repeat split; exact G.
Qed.

Lemma String_loses_invalid_bytes_witness :
  (validUTF8 "disk " = true
   /\ startsNoRune (byteOf 0xFF) = true /\ startsNoRune (byteOf 0xC0) = true)
  /\ call HealthInfoV2.String
       (withError Reports.quiet ("disk " ++ String (byteOf 0xFF) "1")%string)
     = call HealthInfoV2.String
         (withError Reports.quiet ("disk " ++ String (byteOf 0xC0) "1")%string).
Proof.
  split; [repeat split |].
  exact (proj1 (String_loses_invalid_bytes Reports.quiet "disk " "1"
                  (byteOf 0xFF) (byteOf 0xC0) eq_refl eq_refl eq_refl)).
Defined.

(* ===================================================================== *)
(** * Floats without digits, below a version 2 report                     *)
(* ===================================================================== *)

Lemma encodes_field (fs : list (fieldtag * value)) (t : fieldtag) (v : value) :
  In (t, v) fs -> omitempty t && isEmptyValue v = false ->
  encodes v = false -> encodes (VStruct fs) = false.
Proof.
  intros I W E. destruct (encodes (VStruct fs)) eqn:S; [| reflexivity].
  cbn [encodes] in S. rewrite forallb_forall in S.
  specialize (S _ I). cbn [fst snd] in S. rewrite W, E in S. discriminate.
Qed.

Lemma encodes_elem (e : rtype) (l : list value) (x : value) :
  In x l -> encodes x = false -> encodes (VSlice e l) = false.
Proof.
  intros I E. destruct (encodes (VSlice e l)) eqn:S; [| reflexivity].
  cbn [encodes] in S. rewrite forallb_forall in S.
  rewrite (S _ I) in E. discriminate.
Qed.

Lemma nonempty_slice {A : Type} (g : A -> value) (l : list A) (x : A) (e : rtype) :
  In x l -> isEmptyValue (VSlice e (map g l)) = false.
Proof. destruct l; [contradiction | reflexivity]. Qed.

Lemma Latency_encodes (l : Latency.t) :
  encodes (Latency.reflect l) = latencyFinite l.
Proof.
  unfold Latency.reflect, latencyFinite.
  cbn [encodes forallb fst snd omitempty andb orb].
  now rewrite andb_true_r, !andb_assoc.
Qed.

Lemma DrivePerfInfo_encodes (d : DrivePerfInfo.t) :
  latencyFinite (DrivePerfInfo.Latency d) = false ->
  encodes (DrivePerfInfo.reflect d) = false.
Proof.
  intro H. unfold DrivePerfInfo.reflect.
  apply (encodes_field _ (tag "latency" true)
           (Latency.reflect (DrivePerfInfo.Latency d))).
  - right. right. now left.
  - reflexivity.
  - now rewrite Latency_encodes.
Qed.

Section Perf.
Context {D : Declared}.

Lemma DrivePerfInfos_encodes (ds : DrivePerfInfos.t) (d : DrivePerfInfo.t) :
  In d (DrivePerfInfos.SerialPerf ds ++ DrivePerfInfos.ParallelPerf ds) ->
  latencyFinite (DrivePerfInfo.Latency d) = false ->
  encodes (DrivePerfInfos.reflect ds) = false.
Proof.
  intros I H. apply in_app_or in I. unfold DrivePerfInfos.reflect.
  destruct I as [I | I].
  - apply (encodes_field _ (tag "serial_perf" true)
             (VSlice DrivePerfInfo.typ
                (map DrivePerfInfo.reflect (DrivePerfInfos.SerialPerf ds)))).
    + apply in_or_app. right. now left.
    + cbn [omitempty andb]. exact (nonempty_slice _ _ _ _ I).
    + apply (encodes_elem _ _ (DrivePerfInfo.reflect d)).
      * now apply in_map.
      * now apply DrivePerfInfo_encodes.
  - apply (encodes_field _ (tag "parallel_perf" true)
             (VSlice DrivePerfInfo.typ
                (map DrivePerfInfo.reflect (DrivePerfInfos.ParallelPerf ds)))).
    + apply in_or_app. right. right. now left.
    + cbn [omitempty andb]. exact (nonempty_slice _ _ _ _ I).
    + apply (encodes_elem _ _ (DrivePerfInfo.reflect d)).
      * now apply in_map.
      * now apply DrivePerfInfo_encodes.
Qed.

(** X18. A latency without digits, NaN or an infinity, in the performance of
    any drive of any node makes String and JSON of a version 2 report
    panic. *)
Theorem nonfinite_latency_panics (info : HealthInfoV2.t)
    (ds : DrivePerfInfos.t) (d : DrivePerfInfo.t) :
  In ds (PerfInfo.Drives (HealthInfoV2.Perf info)) ->
  In d (DrivePerfInfos.SerialPerf ds ++ DrivePerfInfos.ParallelPerf ds) ->
  latencyFinite (DrivePerfInfo.Latency d) = false ->
  exists e, call HealthInfoV2.String info = Panics e
            /\ call HealthInfoV2.JSON info = Panics e.
Proof.
  intros Ids Id H.
  assert (P : encodes (PerfInfo.reflect (HealthInfoV2.Perf info)) = false).
  { unfold PerfInfo.reflect.
    apply (encodes_field _ (tag "drives" true)
             (VSlice DrivePerfInfos.typ
                (map DrivePerfInfos.reflect
                   (PerfInfo.Drives (HealthInfoV2.Perf info))))).
    - now left.
    - cbn [omitempty andb]. exact (nonempty_slice _ _ _ _ Ids).
    - apply (encodes_elem _ _ (DrivePerfInfos.reflect ds)).
      + now apply in_map.
      + now apply (DrivePerfInfos_encodes ds d). }
  assert (E : encodes (HealthInfoV2.reflect info) = false).
  { unfold HealthInfoV2.reflect.
    apply (encodes_field _ (tag "perf" true)
             (PerfInfo.reflect (HealthInfoV2.Perf info))).
    - do 4 right. now left.
    - reflexivity.
    - exact P. }
  pose proof (encode_encodes (HealthInfoV2.reflect info)) as M.
  rewrite E in M. destruct M as (e & M). exists e.
  unfold call, HealthInfoV2.String, HealthInfoV2.JSON, seq, receiver, ret, panic.
  cbv beta iota. rewrite MarshalIndent_Marshal. unfold Marshal. rewrite M.
  split; reflexivity.
Qed.


End Perf.

(* ===================================================================== *)
(** * The empty object                                                    *)
(* ===================================================================== *)

Lemma objectText_empty (ms : list (string * text)) :
  objectText ms = bytes "{}" -> ms = [].
Proof.
  destruct ms as [| m ms]; [reflexivity |]. intro H. exfalso.
  unfold objectText in H. cbn [map] in H. unfold memberText in H at 1.
  unfold appendString in H. cbn [bytes] in H.
  destruct (map memberText ms); cbn [commaSep app] in H;
    injection H as H _; vm_compute in H; discriminate.
Qed.

(** X20. The encoder writes the hardware and system information as the empty
    object exactly when it is the zero value: every list empty and no
    error. *)
Theorem SysHealthInfo_empty_object (x : SysHealthInfo.t) :
  Marshal (SysHealthInfo.reflect x) = Ok (bytes "{}") <-> x = SysHealthInfo.zero.
Proof.
  split; [| now intros ->].
  intro H. destruct (Marshal_struct_names _ _ H) as (ms & E & N).
  symmetry in E. apply objectText_empty in E. subst ms.
  destruct x as [c d o m p e].
  destruct c; [| discriminate N]. destruct d; [| discriminate N].
  destruct o; [| discriminate N]. destruct m; [| discriminate N].
  destruct p; [| discriminate N]. destruct e; [| discriminate N].
  reflexivity.
Qed.

Lemma nonfinite_latency_panics_witness :
  exists e, call HealthInfoV2.String nanPerfReport = Panics e
            /\ call HealthInfoV2.JSON nanPerfReport = Panics e.
Proof.
  apply (nonfinite_latency_panics nanPerfReport
           (DrivePerfInfos.mk (D := Sample.declared)
              (Sample.mkNode "node1:9000" EmptyString) [] [nanDrive])
           nanDrive).
  - now left.
  - now left.
  - reflexivity.
Defined.

